(** * arango-orm: the query builder, the change-tracked persister and the
      graph synchronizer, embedded from [arango_orm/query.py] and
      [arango_orm/database.py].

    Python objects that are mutated in place (entities, the query builder)
    are modelled by explicit state passing; calls that leave the two
    modules (python-arango, the event listeners, the entity classes, the
    logger, standard output) are recorded on a trace or answered by
    parameters of the development. *)

From Stdlib Require Import ZArith String Ascii List DecimalString Lia.
From stdpp Require Import base functions gmap strings list.

Open Scope Z_scope.
Open Scope string_scope.

(* [set_solver] clears hypotheses by name and warns when one is gone. *)
#[global] Set Warnings "-clear-no-such-hyp".

(** ** Python values, exceptions, results *)

(** The scalar values that travel through the two modules: arguments of
    [Query.limit], bind variables, fields of a serialized document. *)
Inductive PyVal : Type :=
  | VNone
  | VBool (b : bool)
  | VInt (z : Z)
  | VStr (s : string).

#[global] Instance PyVal_eq_dec : EqDecision PyVal.
Proof. solve_decision. Defined.

(** Python truthiness, as used by [if x:] and [not x]. *)
Definition truthy (v : PyVal) : bool :=
  match v with
  | VNone => false
  | VBool b => b
  | VInt z => negb (z =? 0)%Z
  | VStr s => negb (bool_decide (s = ""))
  end.

(** [isinstance(v, int)]: [bool] is a subclass of [int]. *)
Definition isinstance_int (v : PyVal) : bool :=
  match v with
  | VBool _ | VInt _ => true
  | VNone | VStr _ => false
  end.

Definition string_of_Z (z : Z) : string := NilZero.string_of_int (Z.to_int z).

(** What [str.format] substitutes for [{}]. *)
Definition py_str (v : PyVal) : string :=
  match v with
  | VNone => "None"
  | VBool true => "True"
  | VBool false => "False"
  | VInt z => string_of_Z z
  | VStr s => s
  end.

Inductive Exn : Type :=
  | AssertionError
  | KeyError
  | IndexError
  | TypeError
  | RemoteError      (* raised by python-arango *)
  | CollectionDeleteError  (* python-arango: [delete_collection] was refused *)
  | ListenerError.   (* raised inside an event listener *)

Inductive Res (A : Type) : Type :=
  | Ok (a : A)
  | Raise (x : Exn).
Arguments Ok {A} a.
Arguments Raise {A} x.

(** A serialized document, a bind-variable map: Python dicts read by key. *)
Abbreviation Doc := (gmap string PyVal).

(** The line feed of ['\n']. *)
Definition nl : string := String "010"%char EmptyString.

(** [s[:-1]] *)
Fixpoint drop_last (s : string) : string :=
  match s with
  | EmptyString => EmptyString
  | String _ EmptyString => EmptyString
  | String c rest => String c (drop_last rest)
  end.

(** ** query.py *)

Module Query.

(** [dict(condition=condition, joiner=joiner)] *)
Record FilterCond : Type := MkFilterCond {
  condition : string;
  joiner : option string
}.

(** The attributes of a [Query] object; [collection] stands for
    [self._CollectionClass.__collection__]. *)
Record t : Type := MkQuery {
  collection : string;
  _bind_vars : Doc;
  _filter_conditions : list FilterCond;
  _sort_columns : list string;
  _limit : PyVal;
  _limit_start_record : PyVal
}.

(** [Query.__init__] *)
Definition init (coll : string) : t :=
  {| collection := coll;
     _bind_vars := {[ "@collection" := VStr coll ]};
     _filter_conditions := [];
     _sort_columns := [];
     _limit := VNone;
     _limit_start_record := VInt 0 |}.

(** [Query.filter(condition, _or=False, **kwargs)] *)
Definition filter (q : t) (cond : string) (_or : bool) (kwargs : Doc) : t :=
  let joiner :=
    if (0 <? length (_filter_conditions q))%nat
    then Some (if _or then "OR" else "AND")
    else None in
  {| collection := collection q;
     _bind_vars := kwargs ∪ _bind_vars q;
     _filter_conditions :=
       _filter_conditions q ++ [ {| condition := cond; joiner := joiner |} ];
     _sort_columns := _sort_columns q;
     _limit := _limit q;
     _limit_start_record := _limit_start_record q |}.

(** [Query.sort(col_name)] *)
Definition sort (q : t) (col_name : string) : t :=
  {| collection := collection q;
     _bind_vars := _bind_vars q;
     _filter_conditions := _filter_conditions q;
     _sort_columns := _sort_columns q ++ [col_name];
     _limit := _limit q;
     _limit_start_record := _limit_start_record q |}.

(** [Query.limit(num_records, start_from=0)]: the two [assert
    isinstance(_, int)] are the only checks. *)
Definition limit (q : t) (num_records start_from : PyVal) : Res t :=
  if negb (isinstance_int num_records) then Raise AssertionError
  else if negb (isinstance_int start_from) then Raise AssertionError
  else Ok {| collection := collection q;
             _bind_vars := _bind_vars q;
             _filter_conditions := _filter_conditions q;
             _sort_columns := _sort_columns q;
             _limit := num_records;
             _limit_start_record := start_from |}.

(** One turn of the loop over [self._filter_conditions]. *)
Definition filter_line (fc : FilterCond) : string :=
  (match joiner fc with
   | None => "FILTER "
   | Some j => j +:+ " "
   end) +:+ ("rec." +:+ condition fc).

(** [Query._make_aql] *)
Definition _make_aql (q : t) : string :=
  let aql := "FOR rec IN @@collection" +:+ nl in
  let aql :=
    fold_left (fun aql fc => aql +:+ (filter_line fc +:+ " "))
              (_filter_conditions q) aql in
  let aql :=
    match _sort_columns q with
    | [] => aql
    | _ :: _ =>
        drop_last
          (fold_left (fun aql sc => aql +:+ ((" rec." +:+ sc) +:+ ","))
                     (_sort_columns q) (aql +:+ (nl +:+ " SORT")))
    end in
  if truthy (_limit q)
  then aql +:+ (nl +:+ " LIMIT " +:+ py_str (_limit_start_record q) +:+ ", "
                   +:+ py_str (_limit q) +:+ " ")
  else aql.

(** The text [Query.all] hands to [aql.execute]:
    [self._make_aql() + '\n RETURN rec']. *)
Definition compile (q : t) : string :=
  _make_aql q +:+ (nl +:+ " RETURN rec").

(** A call of the fluent interface, and a chain of them on one builder. *)
Inductive Call : Type :=
  | CFilter (cond : string) (_or : bool) (kwargs : Doc)
  | CSort (col_name : string)
  | CLimit (num_records start_from : PyVal).

Definition call (q : t) (c : Call) : Res t :=
  match c with
  | CFilter cond o kw => Ok (filter q cond o kw)
  | CSort col => Ok (sort q col)
  | CLimit n s => limit q n s
  end.

Fixpoint chain (q : t) (cs : list Call) : Res t :=
  match cs with
  | [] => Ok q
  | c :: cs' =>
      match call q c with
      | Ok q' => chain q' cs'
      | Raise x => Raise x
      end
  end.

End Query.

(** ** Insertion-ordered dictionaries

    Where [database.py] iterates over a dict it built itself
    ([collections.items()], [existing_edges.items()]) the order is the order
    of first insertion, and a later store under the same key overwrites in
    place. *)

Section PyDict.
Context {V : Type}.

Fixpoint dict_get (d : list (string * V)) (k : string) : option V :=
  match d with
  | [] => None
  | (k', v) :: d' => if decide (k' = k) then Some v else dict_get d' k
  end.

(** [d[k] = v] *)
Fixpoint dict_set (d : list (string * V)) (k : string) (v : V)
  : list (string * V) :=
  match d with
  | [] => [(k, v)]
  | (k', v') :: d' =>
      if decide (k' = k) then (k, v) :: d' else (k', v') :: dict_set d' k v
  end.

(** [k in d] *)
Definition dict_mem (d : list (string * V)) (k : string) : bool :=
  bool_decide (is_Some (dict_get d k)).

(** [dict(pairs)] *)
Definition dict_of_pairs (pairs : list (string * V)) : list (string * V) :=
  fold_left (fun d kv => dict_set d kv.1 kv.2) pairs [].
End PyDict.

(** ** database.py: data *)

(** An entity object. [key_] and [rev_] are the attributes behind the
    aliases [_key] and [_rev]; [_db] is true once [setattr(entity, "_db",
    self)] has run. *)
Record Entity : Type := MkEntity {
  __collection__ : string;
  key_ : PyVal;
  rev_ : PyVal;
  fields : Doc;
  _dirty : gset string;
  _db : bool
}.

(** Entities are shared mutable objects: the heap maps a reference to the
    object's current state, and a list of entities is a list of references
    (the same object may occur twice). *)
Abbreviation ref := nat.
Abbreviation Store := (ref -> Entity).

Inductive Hook : Type :=
  | pre_add | post_add
  | pre_update | post_update
  | pre_delete | post_delete.

#[global] Instance Hook_eq_dec : EqDecision Hook.
Proof. solve_decision. Defined.

(** An edge definition dict, as built by [update_graph] and as returned by
    [edge_definitions()]. *)
Record EdgeDef : Type := MkEdgeDef {
  edge_collection : string;
  from_vertex_collections : list string;
  to_vertex_collections : list string
}.

#[global] Instance EdgeDef_eq_dec : EqDecision EdgeDef.
Proof. solve_decision. Defined.

(** [index] entries of [_collection_config["indexes"]]. *)
Record Index : Type := MkIndex {
  index_type : string;
  index_args : Doc
}.

#[global] Instance Index_eq_dec : EqDecision Index.
Proof. solve_decision. Defined.

(** What [database.py] reads of a collection or relation class. *)
Record CollectionClass : Type := MkCollectionClass {
  cc_collection : string;                 (* [__collection__] *)
  cc_is_relation : bool;                  (* subclass of [Relation] *)
  cc_col_args : option Doc;               (* [_collection_config["col_args"]] *)
  cc_indexes : option (list Index)        (* [_collection_config["indexes"]] *)
}.

Record GraphConnection : Type := MkGraphConnection {
  relation : CollectionClass
}.

(** What [database.py] reads of a [Graph] object. The three dicts keyed by
    relation name are filled by [Graph.__init__] (graph.py); [edges] is
    iterated, the other two are read by key. *)
Record Graph : Type := MkGraph {
  __graph__ : string;
  vertices : list (string * CollectionClass);
  edges : list (string * CollectionClass);
  edge_cols_from : gmap string (list CollectionClass);
  edge_cols_to : gmap string (list CollectionClass);
  graph_connections : list GraphConnection
}.

Inductive Level : Type := DEBUG | INFO | WARNING.

Inductive LogArg : Type :=
  | LStr (s : string)
  | LEdge (e : EdgeDef).

#[global] Instance Level_eq_dec : EqDecision Level.
Proof. solve_decision. Defined.
#[global] Instance LogArg_eq_dec : EqDecision LogArg.
Proof. solve_decision. Defined.

(** Every call that leaves [database.py] / [query.py]. *)
Inductive Event : Type :=
  (* python-arango, documents *)
  | ECollection (name : string)                       (* [_db.collection(name)] *)
  | EHas (name : string) (key : PyVal)
  | EInsert (name : string) (doc : Doc)
  | EInsertMany (name : string) (docs : list Doc)
  | EUpdate (name : string) (doc : Doc)
  | EUpdateMany (name : string) (docs : list Doc)
  | EDelete (name : string) (key : PyVal)
  | EExecute (aql : string) (bind_vars : Doc) (kwargs : Doc)
  (* python-arango, collections and graphs *)
  | ECollections
  | EGraphs
  | ECreateCollection (name : string) (col_args : Doc)
  | EAddIndex (name : string) (idx : Index)
  | EDeleteCollection (name : string)
  | ECreateGraph (name : string) (defs : list EdgeDef)
  | EDeleteGraph (name : string) (drop_collections : bool)
  | EEdgeDefinitions (graph : string)
  | ECreateEdgeDefinition (e : EdgeDef)
  | EReplaceEdgeDefinition (e : EdgeDef)
  | EDeleteEdgeDefinition (name : string)
  (* event.dispatch, logging and standard output *)
  | EDispatch (entity : ref) (h : Hook)
  | ELog (lvl : Level) (fmt : string) (args : list LogArg)
  | EPrint (text : string).

#[global] Instance Event_eq_dec : EqDecision Event.
Proof. solve_decision. Defined.

Record World : Type := MkWorld {
  store : Store;
  trace : list Event
}.

(** ** The collaborators, as interfaces *)

(** [entity.model_dump(mode="json", by_alias=True)] (collections.py). *)
Class EntityModel : Type := {
  model_dump : Entity -> Doc
}.

(** The listeners behind [event.dispatch]: what a hook does to the entities,
    [None] when it raises. *)
Class Listeners : Type := {
  listener : Hook -> ref -> Store -> option Store
}.

(** [CollectionClass._load(rec)] (collections.py): the entity object built
    from a row, or the exception raised on a row it does not accept. The
    class is named by its collection, as in [Query.t]. *)
Class EntityLoader : Type := {
  _load : string -> Doc -> Res Entity
}.

(** python-arango. [client_ok h ev] tells whether call [ev], made after the
    calls in [h], returns; the other fields are what it returns, but for
    [delete_collection_error h name], the exception [delete_collection(name)]
    raises when it does not return: [CollectionDeleteError] when the server
    answers with an error, another one when the request itself fails. *)
Class Client : Type := {
  client_ok : list Event -> Event -> bool;
  has_reply : list Event -> string -> PyVal -> bool;
  insert_reply : list Event -> string -> Doc -> Doc;
  insert_many_reply : list Event -> string -> list Doc -> list Doc;
  update_reply : list Event -> string -> Doc -> Doc;
  update_many_reply : list Event -> string -> list Doc -> list Doc;
  execute_reply : list Event -> string -> Doc -> Doc -> list Doc;
  collections_reply : list Event -> list string;
  graphs_reply : list Event -> list string;
  edge_definitions_reply : list Event -> string -> list EdgeDef;
  delete_collection_error : list Event -> string -> Exn
}.

(** ** The state-and-exception monad of a call into the ORM *)

Definition M (A : Type) : Type := World -> Res A * World.

Definition ret {A} (a : A) : M A := fun w => (Ok a, w).

Definition raise {A} (x : Exn) : M A := fun w => (Raise x, w).

Definition bind {A B} (m : M A) (f : A -> M B) : M B :=
  fun w =>
    match m w with
    | (Ok a, w') => f a w'
    | (Raise x, w') => (Raise x, w')
    end.

Notation "'let*' x := m 'in' k" := (bind m (fun x => k))
  (at level 10, x name, m at level 100, k at level 200).

(** [try: m except Exception: handler] *)
Definition try_except {A} (m : M A) (handler : M A) : M A :=
  fun w =>
    match m w with
    | (Ok a, w') => (Ok a, w')
    | (Raise _, w') => handler w'
    end.

(** [for x in xs: body(x)] *)
Fixpoint for_each {X} (xs : list X) (body : X -> M unit) : M unit :=
  match xs with
  | [] => ret tt
  | x :: xs' => let* _ := body x in for_each xs' body
  end.

Definition record (ev : Event) (w : World) : World :=
  {| store := store w; trace := trace w ++ [ev] |}.

Definition log (lvl : Level) (fmt : string) (args : list LogArg) : M unit :=
  fun w => (Ok tt, record (ELog lvl fmt args) w).

Definition get_entity (r : ref) : M Entity :=
  fun w => (Ok (store w r), w).

Definition set_entity (r : ref) (e : Entity) : M unit :=
  fun w => (Ok tt, {| store := <[r := e]> (store w); trace := trace w |}).

(** ** database.py: operations *)

Module Database.
Section Operations.
Context {EM : EntityModel} {LD : EntityLoader} {LS : Listeners} {CL : Client}.

(** A call into python-arango: it is recorded, then returns or raises. *)
Definition remote {A} (ev : Event) (reply : list Event -> A) : M A :=
  fun w =>
    if client_ok (trace w) ev
    then (Ok (reply (trace w)), record ev w)
    else (Raise RemoteError, record ev w).

(** [self._db.collection(name)]: python-arango builds a handle and sends
    nothing; the handle is the collection name. *)
Definition collection (name : string) : M string :=
  fun w => (Ok name, record (ECollection name) w).

(** [dispatch(entity, hook, db=self, ...)] (event.py) *)
Definition dispatch (entity : ref) (h : Hook) : M unit :=
  fun w =>
    match listener h entity (store w) with
    | Some s' => (Ok tt, {| store := s'; trace := trace w ++ [EDispatch entity h] |})
    | None => (Raise ListenerError, record (EDispatch entity h) w)
    end.

(** [setattr(entity, "_db", self)] *)
Definition attach_db (entity : ref) : M unit :=
  let* e := get_entity entity in
  set_entity entity
    {| __collection__ := __collection__ e; key_ := key_ e; rev_ := rev_ e;
       fields := fields e; _dirty := _dirty e; _db := true |}.

(** [entity._dirty.clear()] *)
Definition dirty_clear (entity : ref) : M unit :=
  let* e := get_entity entity in
  set_entity entity
    {| __collection__ := __collection__ e; key_ := key_ e; rev_ := rev_ e;
       fields := fields e; _dirty := ∅; _db := _db e |}.

(** [entity._dirty.remove(name)]: [set.remove] raises on a missing
    element. *)
Definition dirty_remove (entity : ref) (name : string) : M unit :=
  let* e := get_entity entity in
  if decide (name ∈ _dirty e) then
    set_entity entity
      {| __collection__ := __collection__ e; key_ := key_ e; rev_ := rev_ e;
         fields := fields e; _dirty := _dirty e ∖ {[name]}; _db := _db e |}
  else raise KeyError.

(** Modelled from the spec: [Collection.__setattr__] of collections.py is
    not among the sources. The dirty set is "repopulated by external
    mutation of entity fields": assigning attribute [name] stores the value
    and adds [name] to [_dirty]. *)
Definition setattr (entity : ref) (name : string) (v : PyVal) : M unit :=
  let* e := get_entity entity in
  set_entity entity
    {| __collection__ := __collection__ e;
       key_ := if decide (name = "key_") then v else key_ e;
       rev_ := if decide (name = "rev_") then v else rev_ e;
       fields := if decide (name = "key_" ∨ name = "rev_") then fields e
                 else <[name := v]> (fields e);
       _dirty := {[name]} ∪ _dirty e;
       _db := _db e |}.

(** [Database._entity_pre_process] *)
Definition _entity_pre_process (data : Doc) : Doc :=
  fold_left
    (fun data k =>
       match data !! k with
       | Some VNone => delete k data
       | _ => data
       end)
    ["_key"; "_rev"] data.

(** [Database._entity_post_process] *)
Definition _entity_post_process (entity : ref) (result : Doc) : M unit :=
  for_each [("key_", "_key"); ("rev_", "_rev")]
    (fun k =>
       match result !! k.2 with
       | None | Some VNone => ret tt
       | Some v =>
           let* _ := setattr entity k.1 v in
           dirty_remove entity k.1
       end).

(** [{k: v for k, v in data.items() if k == "_key" or k in entity._dirty}] *)
Definition dirty_payload (data : Doc) (dirty : gset string) : Doc :=
  filter (fun kv => kv.1 = "_key" ∨ kv.1 ∈ dirty) data.

(** [Database.exists] *)
Definition exists_ (document : ref) : M bool :=
  let* d := get_entity document in
  let* c := collection (__collection__ d) in
  remote (EHas c (key_ d)) (fun h => has_reply h c (key_ d)).

(** [Database.update] *)
Definition update (entity : ref) (only_dirty : bool) : M ref :=
  let* e := get_entity entity in
  let* c := collection (__collection__ e) in
  if only_dirty && bool_decide (_dirty e = ∅) then ret entity
  else
    let* _ := dispatch entity pre_update in
    let* e := get_entity entity in
    let data :=
      if only_dirty then dirty_payload (model_dump e) (_dirty e)
      else model_dump e in
    let* _ := attach_db entity in
    let data := _entity_pre_process data in
    let* res := remote (EUpdate c data) (fun h => update_reply h c data) in
    let* _ := dirty_clear entity in
    let* _ := _entity_post_process entity res in
    let* _ := dispatch entity post_update in
    ret entity.

(** [Database.add], lines 172-185: the insert itself. *)
Definition add_insert (entity : ref) : M ref :=
  let* e := get_entity entity in
  let data_json := _entity_pre_process (model_dump e) in
  let* _ := dispatch entity pre_add in
  let* e := get_entity entity in
  let* c := collection (__collection__ e) in
  let* _ := attach_db entity in
  let* res := remote (EInsert c data_json) (fun h => insert_reply h c data_json) in
  let* _ := _entity_post_process entity res in
  let* _ := dirty_clear entity in
  let* _ := dispatch entity post_add in
  ret entity.

(** [Database.add] *)
Definition add (entity : ref) (if_present : PyVal) : M ref :=
  if negb (bool_decide (if_present ∈ [VNone; VStr "ignore"; VStr "update"]))
  then raise AssertionError
  else
    let* e := get_entity entity in
    if truthy if_present && truthy (key_ e) then
      let* present := exists_ entity in
      if present then
        if decide (if_present = VStr "ignore") then
          let* _ := attach_db entity in
          ret entity
        else if decide (if_present = VStr "update") then
          update entity false
        else add_insert entity
      else add_insert entity
    else add_insert entity.

(** [Database.delete] *)
Definition delete (entity : ref) : M ref :=
  let* _ := dispatch entity pre_delete in
  let* e := get_entity entity in
  let* c := collection (__collection__ e) in
  let* _ := remote (EDelete c (key_ e)) (fun _ => tt) in
  let* _ := dispatch entity post_delete in
  ret entity.

(** The value of one key of the [collections] dict of the bulk calls. *)
Record CollectionDict : Type := MkCollectionDict {
  entity_dict_list : list Doc;
  entity_obj_list : list ref;
  collection_model : string
}.

(** What a bulk call returns: the entity that stopped it, or
    [collections]. *)
Inductive BulkResult : Type :=
  | ReturnedEntity (entity : ref)
  | ReturnedCollections (collections : list (string * CollectionDict)).

(** Lines 213-224 and 319-332: file [entity] and [data] under the
    entity's collection. *)
Definition file_entity (collections : list (string * CollectionDict))
    (name : string) (collection_model : string) (entity : ref) (data : Doc)
  : list (string * CollectionDict) :=
  let collection_dict := dict_get collections name in
  let entity_dict_list :=
    match collection_dict with Some cd => entity_dict_list cd | None => [] end in
  let entity_obj_list :=
    match collection_dict with Some cd => entity_obj_list cd | None => [] end in
  dict_set collections name
    {| entity_dict_list := entity_dict_list ++ [data];
       entity_obj_list := entity_obj_list ++ [entity];
       collection_model := collection_model |}.

(** [Database.bulk_add], the first loop (lines 199-226). [inl entity] is
    the [return entity] of line 205. *)
Fixpoint bulk_add_collect (entity_list : list ref) (only_dirty : bool)
    (collections : list (string * CollectionDict))
  : M (ref + list (string * CollectionDict)) :=
  match entity_list with
  | [] => ret (inr collections)
  | entity :: rest =>
      let* e := get_entity entity in
      let* collection_model := collection (__collection__ e) in
      let data := model_dump e in
      if only_dirty && bool_decide (_dirty e = ∅) then ret (inl entity)
      else
        let data := if only_dirty then dirty_payload data (_dirty e) else data in
        let data := _entity_pre_process data in
        let* _ := dispatch entity pre_update in
        let* e := get_entity entity in
        let collections :=
          file_entity collections (__collection__ e) collection_model entity data in
        let* _ := attach_db entity in
        let* _ := dirty_clear entity in
        bulk_add_collect rest only_dirty collections
  end.

(** The inner loop of lines 234-237 / 342-345, from position [num]. *)
Fixpoint bulk_post (post : Hook) (entity_obj_list : list ref)
    (res : list Doc) (num : nat) : M unit :=
  match entity_obj_list with
  | [] => ret tt
  | entity :: rest =>
      let* _ := dirty_clear entity in
      let* _ :=
        match res !! num with
        | Some r => _entity_post_process entity r
        | None => raise IndexError
        end in
      let* _ := dispatch entity post in
      bulk_post post rest res (S num)
  end.

(** [Database.bulk_add] *)
Definition bulk_add (entity_list : list ref) (only_dirty : bool)
  : M BulkResult :=
  let* collected := bulk_add_collect entity_list only_dirty [] in
  match collected with
  | inl entity => ret (ReturnedEntity entity)
  | inr collections =>
      let* _ :=
        for_each collections
          (fun item =>
             let data := item.2 in
             let* res :=
               remote (EInsertMany (collection_model data) (entity_dict_list data))
                      (fun h => insert_many_reply h (collection_model data)
                                                  (entity_dict_list data)) in
             bulk_post post_add (entity_obj_list data) res 0) in
      ret (ReturnedCollections collections)
  end.

(** [Database.bulk_update], the first loop (lines 300-334). *)
Fixpoint bulk_update_collect (entity_list : list ref) (only_dirty : bool)
    (collections : list (string * CollectionDict))
  : M (ref + list (string * CollectionDict)) :=
  match entity_list with
  | [] => ret (inr collections)
  | entity :: rest =>
      let* e := get_entity entity in
      let* collection_model := collection (__collection__ e) in
      if only_dirty && bool_decide (_dirty e = ∅) then ret (inl entity)
      else
        let* _ := dispatch entity pre_update in
        let* e := get_entity entity in
        let data :=
          if only_dirty then dirty_payload (model_dump e) (_dirty e)
          else model_dump e in
        let data := _entity_pre_process data in
        let collections :=
          file_entity collections (__collection__ e) collection_model entity data in
        let* _ := attach_db entity in
        bulk_update_collect rest only_dirty collections
  end.

(** [Database.bulk_update] *)
Definition bulk_update (entity_list : list ref) (only_dirty : bool)
  : M BulkResult :=
  let* collected := bulk_update_collect entity_list only_dirty [] in
  match collected with
  | inl entity => ret (ReturnedEntity entity)
  | inr collections =>
      let* _ :=
        for_each collections
          (fun item =>
             let data := item.2 in
             let* res :=
               remote (EUpdateMany (collection_model data) (entity_dict_list data))
                      (fun h => update_many_reply h (collection_model data)
                                                  (entity_dict_list data)) in
             bulk_post post_update (entity_obj_list data) res 0) in
      ret (ReturnedCollections collections)
  end.

(** *** Collections and graphs *)

(** [Database.create_collection] *)
Definition create_collection (c : CollectionClass) : M unit :=
  let col_args := default ∅ (cc_col_args c) in
  let col_args :=
    if cc_is_relation c && negb (bool_decide (is_Some (col_args !! "edge")))
    then <["edge" := VBool true]> col_args
    else col_args in
  let* col :=
    remote (ECreateCollection (cc_collection c) col_args)
           (fun _ => cc_collection c) in
  match cc_indexes c with
  | Some indexes =>
      for_each indexes (fun index => remote (EAddIndex col index) (fun _ => tt))
  | None => ret tt
  end.

(** [Database.drop_collection]: the call of [delete_collection] is
    recorded, then returns or raises what python-arango raises for it. *)
Definition drop_collection (c : CollectionClass) : M unit :=
  fun w =>
    if client_ok (trace w) (EDeleteCollection (cc_collection c))
    then (Ok tt, record (EDeleteCollection (cc_collection c)) w)
    else (Raise (delete_collection_error (trace w) (cc_collection c)),
          record (EDeleteCollection (cc_collection c)) w).

(** [Database.drop_graph] *)
Definition drop_graph (g : Graph) (drop_collections : bool) : M unit :=
  remote (EDeleteGraph (__graph__ g) drop_collections) (fun _ => tt).

(** [Database._get_graph_info]: the entry of [self.graphs()] named like
    the graph, if any. *)
Definition _get_graph_info (g : Graph) : M (option string) :=
  let* graphs_info := remote EGraphs graphs_reply in
  ret (List.find (fun gi => bool_decide (gi = __graph__ g)) graphs_info).

(** [Database._is_same_edge] *)
Definition _is_same_edge (e1 e2 : EdgeDef) : Res bool :=
  if negb (bool_decide (edge_collection e1 = edge_collection e2))
  then Raise AssertionError
  else if negb (length (to_vertex_collections e1)
                  =? length (to_vertex_collections e2))%nat
          || negb (length (from_vertex_collections e1)
                     =? length (from_vertex_collections e2))%nat
  then Ok false
  else if negb (forallb (fun cname => bool_decide (cname ∈ to_vertex_collections e2))
                        (to_vertex_collections e1))
  then Ok false
  else if negb (forallb (fun cname => bool_decide (cname ∈ from_vertex_collections e2))
                        (from_vertex_collections e1))
  then Ok false
  else Ok true.

Definition lift {A} (r : Res A) : M A :=
  match r with
  | Ok a => ret a
  | Raise x => raise x
  end.

(** [d[k]] on a dict read by key: [KeyError] when the key is missing. *)
Definition getitem {A} (d : gmap string A) (k : string) : M A :=
  match d !! k with
  | Some a => ret a
  | None => raise KeyError
  end.

(** [Database.update_graph], lines 444-457: one declared vertex
    collection. *)
Definition ensure_vertex_collection (existing_collection_names : list string)
    (col_obj : CollectionClass) : M unit :=
  try_except
    (if bool_decide (cc_collection col_obj ∈ existing_collection_names) then
       log DEBUG "Collection %s already exists" [LStr (cc_collection col_obj)]
     else
       let* _ := log INFO "+ Creating collection %s" [LStr (cc_collection col_obj)] in
       create_collection col_obj)
    (log WARNING "Error creating collection %s, it probably already exists"
         [LStr (cc_collection col_obj)]).

(** Lines 459-471: one declared edge collection. [create_collection]
    takes no [edge] keyword, so the call of line 466 raises [TypeError]
    before it reaches python-arango, and the handler logs it. *)
Definition ensure_edge_collection (existing_collection_names : list string)
    (rel_obj : CollectionClass) : M unit :=
  try_except
    (if bool_decide (cc_collection rel_obj ∈ existing_collection_names) then
       log DEBUG "Collection %s already exists" [LStr (cc_collection rel_obj)]
     else
       let* _ := log INFO "+ Creating edge collection %s"
                     [LStr (cc_collection rel_obj)] in
       raise TypeError)
    (log WARNING "Error creating edge collection %s, it probably already exists"
         [LStr (cc_collection rel_obj)]).

(** Lines 481-488: the edge definition built from the vertex classes
    found for a relation. *)
Definition edge_definition_of (relation : CollectionClass)
    (cols_from cols_to : list CollectionClass) : EdgeDef :=
  {| edge_collection := cc_collection relation;
     from_vertex_collections := map cc_collection cols_from;
     to_vertex_collections := map cc_collection cols_to |}.

Definition modified_message : string :=
  "  graph edge definition modified, updating:" +:+ nl
  +:+ " new: %r" +:+ nl +:+ " old: %r".

(** Lines 477-507: one declared relation against the live definitions. *)
Definition sync_relation (g : Graph) (existing_edges : list (string * EdgeDef))
    (item : string * CollectionClass) : M unit :=
  let* cols_from := getitem (edge_cols_from g) item.1 in
  let* cols_to := getitem (edge_cols_to g) item.1 in
  let edge_definition := edge_definition_of item.2 cols_from cols_to in
  match dict_get existing_edges (edge_collection edge_definition) with
  | None =>
      let* _ := log INFO "  + creating graph edge definition: %r"
                    [LEdge edge_definition] in
      remote (ECreateEdgeDefinition edge_definition) (fun _ => tt)
  | Some live =>
      let* same := lift (_is_same_edge edge_definition live) in
      if negb same then
        let* _ := log INFO modified_message
                      [LEdge edge_definition; LEdge live] in
        remote (EReplaceEdgeDefinition edge_definition) (fun _ => tt)
      else ret tt
  end.

Definition stale_message : string :=
  "  - dropping edge no longer present in graph definition. "
  +:+ "Please drop the edge and vertex collections manually if you no "
  +:+ "longer need them: " +:+ nl +:+ "%s".

(** Lines 514-523: one live definition against the declared
    connections. *)
Definition drop_if_stale (graph_connections : list (string * GraphConnection))
    (item : string * EdgeDef) : M unit :=
  if negb (dict_mem graph_connections item.1) then
    let* _ := log WARNING stale_message [LEdge item.2] in
    remote (EDeleteEdgeDefinition item.1) (fun _ => tt)
  else ret tt.

(** [Database.update_graph] *)
Definition update_graph (g : Graph) (graph_info : option string) : M unit :=
  let* _ :=
    match graph_info with
    | None => _get_graph_info g
    | Some gi => ret (Some gi)
    end in
  let* existing_collection_names := remote ECollections collections_reply in
  let* _ :=
    for_each (vertices g)
      (fun item => ensure_vertex_collection existing_collection_names item.2) in
  let* _ :=
    for_each (edges g)
      (fun item => ensure_edge_collection existing_collection_names item.2) in
  let* live :=
    remote (EEdgeDefinitions (__graph__ g))
           (fun h => edge_definitions_reply h (__graph__ g)) in
  let existing_edges :=
    dict_of_pairs (map (fun e => (edge_collection e, e)) live) in
  let* _ := for_each (edges g) (sync_relation g existing_edges) in
  let graph_connections :=
    dict_of_pairs
      (map (fun gc => (cc_collection (relation gc), gc)) (graph_connections g)) in
  for_each existing_edges (drop_if_stale graph_connections).

(** *** Running a query *)

(** [print(aql)] *)
Definition print (text : string) : M unit :=
  fun w => (Ok tt, record (EPrint text) w).

(** The loop of [Query.all], lines 123-126, with the entities loaded so
    far: each row is loaded by the class of the builder, and the first row
    that is not accepted ends the call. The entities are new objects, held
    by nobody else: they are returned as values. *)
Fixpoint load_loop (coll : string) (results : list Doc) (ret_ : list Entity)
  : M (list Entity) :=
  match results with
  | [] => ret ret_
  | rec :: rest =>
      let* e := lift (_load coll rec) in
      load_loop coll rest (ret_ ++ [e])
  end.

(** [Query.all] *)
Definition query_all (q : Query.t) : M (list Entity) :=
  let aql := Query.compile q in
  let* _ := print aql in
  let* results :=
    remote (EExecute aql (Query._bind_vars q) ∅)
           (fun h => execute_reply h aql (Query._bind_vars q) ∅) in
  load_loop (Query.collection q) results [].

(** *** The rest of the persister *)

(** [Database.bulk_delete], the loop of lines 254-255 with the results
    collected so far. *)
Fixpoint bulk_delete_loop (entity_list : list ref) (res : list ref)
  : M (list ref) :=
  match entity_list with
  | [] => ret res
  | entity :: rest =>
      let* r := delete entity in
      bulk_delete_loop rest (res ++ [r])
  end.

(** [Database.bulk_delete] *)
Definition bulk_delete (entity_list : list ref) : M (list ref) :=
  bulk_delete_loop entity_list [].

(** [Database.query]: a fresh builder on the collection of the class. *)
Definition query (c : CollectionClass) : Query.t :=
  Query.init (cc_collection c).

(** [[self._CollectionClass._load(rec) for rec in rows]] *)
Fixpoint load_each (coll : string) (rows : list Doc) : M (list Entity) :=
  match rows with
  | [] => ret []
  | rec :: rest =>
      let* e := lift (_load coll rec) in
      let* es := load_each coll rest in
      ret (e :: es)
  end.

(** [Query.aql(query, **kwargs)]. [bind_vars] is the keyword argument of
    that name, [None] when the caller gave none; [kwargs] holds the other
    keyword arguments, which are passed on to [execute] as they are. The
    dict given as [bind_vars] is the one that is updated and sent. *)
Definition query_aql (q : Query.t) (query : string) (bind_vars : option Doc)
    (kwargs : Doc) : M (list Entity) :=
  let* coll := getitem (Query._bind_vars q) "@collection" in
  let bind_vars :=
    match bind_vars with
    | Some given => <["@collection" := coll]> given
    | None => {[ "@collection" := coll ]}
    end in
  let* rows :=
    remote (EExecute query bind_vars kwargs)
           (fun h => execute_reply h query bind_vars kwargs) in
  load_each (Query.collection q) rows.

(** *** Creating and dropping graphs *)

(** Lines 367-371 and 382-386: is the collection named in
    [kwargs["ignore_collections"]]? *)
Definition ignored (ignore_collections : option (list string))
    (c : CollectionClass) : bool :=
  match ignore_collections with
  | Some names => bool_decide (cc_collection c ∈ names)
  | None => false
  end.

(** Lines 366-379 and 381-394: one declared collection of a graph that
    is being created; [fmt] is the warning of the loop. *)
Definition create_unless_ignored (ignore_collections : option (list string))
    (fmt : string) (c : CollectionClass) : M unit :=
  if ignored ignore_collections c then ret tt
  else
    try_except (create_collection c)
               (log WARNING fmt [LStr (cc_collection c)]).

(** Lines 396-409: the edge definitions of the declared relations,
    appended to [graph_edge_definitions] in the order of [edges]. *)
Fixpoint collect_edge_definitions (g : Graph)
    (items : list (string * CollectionClass))
    (graph_edge_definitions : list EdgeDef) : M (list EdgeDef) :=
  match items with
  | [] => ret graph_edge_definitions
  | item :: rest =>
      let* cols_from := getitem (edge_cols_from g) item.1 in
      let* cols_to := getitem (edge_cols_to g) item.1 in
      collect_edge_definitions g rest
        (graph_edge_definitions
         ++ [edge_definition_of item.2 cols_from cols_to])
  end.

(** [Database.create_graph]; [ignore_collections] is the keyword argument
    of that name, [None] when it is not given. *)
Definition create_graph (g : Graph) (ignore_collections : option (list string))
  : M unit :=
  let* _ :=
    for_each (vertices g)
      (fun item =>
         create_unless_ignored ignore_collections
           "Error creating collection %s, it probably already exists" item.2) in
  let* _ :=
    for_each (edges g)
      (fun item =>
         create_unless_ignored ignore_collections
           "Error creating edge collection %s, it probably already exists"
           item.2) in
  let* graph_edge_definitions := collect_edge_definitions g (edges g) [] in
  remote (ECreateGraph (__graph__ g) graph_edge_definitions) (fun _ => tt).

(** An element of the list given to [create_all] and [drop_all]: a graph
    class ([hasattr(obj, "__graph__")]) with the instance that
    [graph_obj(connection=self)] builds, which sends nothing (graph.py);
    another class, [direct] telling whether [Collection in obj.__bases__],
    which is false for a class derived from [Relation]; or anything
    else. *)
Inductive DbObject : Type :=
  | GraphClass (g : Graph)
  | Class (direct : bool) (c : CollectionClass)
  | Other.

(** [[obj for obj in db_objects if hasattr(obj, "__graph__")]] *)
Definition graph_objs (db_objects : list DbObject) : list Graph :=
  omap (fun obj => match obj with GraphClass g => Some g | _ => None end)
       db_objects.

(** Lines 568-579: one graph class of [create_all]. *)
Definition create_or_update_graph (graph_obj : Graph) : M unit :=
  let* graph_info := _get_graph_info graph_obj in
  match graph_info with
  | None =>
      let* _ := log INFO "Creating graph %s" [LStr (__graph__ graph_obj)] in
      create_graph graph_obj None
  | Some gi =>
      let* _ := log DEBUG "Graph %s already exists"
                    [LStr (__graph__ graph_obj)] in
      update_graph graph_obj (Some gi)
  end.

(** Lines 583-589: one object of the second loop of [create_all]. *)
Definition create_if_missing (exclude_collections : list string)
    (obj : DbObject) : M unit :=
  match obj with
  | Class true c =>
      if bool_decide (cc_collection c ∈ exclude_collections) then
        log DEBUG "Collection %s already exists" [LStr (cc_collection c)]
      else
        let* _ := log INFO "Creating collection %s" [LStr (cc_collection c)] in
        create_collection c
  | _ => ret tt
  end.

(** [Database.create_all] *)
Definition create_all (db_objects : list DbObject) : M unit :=
  let* _ := for_each (graph_objs db_objects) create_or_update_graph in
  let* exclude_collections := remote ECollections collections_reply in
  for_each db_objects (create_if_missing exclude_collections).

(** [try: m except CollectionDeleteError: handler]: any other exception
    goes through. *)
Definition try_except_delete_error {A} (m : M A) (handler : M A) : M A :=
  fun w =>
    match m w with
    | (Raise CollectionDeleteError, w') => handler w'
    | r => r
    end.

(** Lines 600-609: one graph class of [drop_all]; [drop_graph] is called
    with its default, [drop_collections=True]. *)
Definition drop_graph_if_present (graph_obj : Graph) : M unit :=
  let* graph_info := _get_graph_info graph_obj in
  match graph_info with
  | Some _ =>
      let* _ := log INFO "Dropping graph %s" [LStr (__graph__ graph_obj)] in
      drop_graph graph_obj true
  | None =>
      log DEBUG "Graph %s does not exist" [LStr (__graph__ graph_obj)]
  end.

(** Lines 611-619: one object of the second loop of [drop_all]. *)
Definition drop_if_collection (obj : DbObject) : M unit :=
  match obj with
  | Class true c =>
      try_except_delete_error
        (drop_collection c)
        (log DEBUG "Not deleting missing collection: %s"
             [LStr (cc_collection c)])
  | _ => ret tt
  end.

(** [Database.drop_all] *)
Definition drop_all (db_objects : list DbObject) : M unit :=
  let* _ := for_each (graph_objs db_objects) drop_graph_if_present in
  for_each db_objects drop_if_collection.

End Operations.
End Database.

(** ** The query text clause by clause

    The text the builder is meant to produce, written from the description
    of the clauses rather than from [_make_aql]; the theorems below compare
    the two. *)

Module QueryText.

Definition concat_str (l : list string) : string :=
  fold_right String.append "" l.

Definition iteration : string := "FOR rec IN @@collection" +:+ nl.

Definition projection : string := nl +:+ " RETURN rec".

Definition keyword (use_or : bool) : string :=
  if use_or then "OR" else "AND".

(** Filters in accumulation order: the first bare, the others behind
    their joining keyword. *)
Definition filters (calls : list (string * bool)) : string :=
  match calls with
  | [] => ""
  | (c, _) :: rest =>
      ("FILTER rec." +:+ c +:+ " ")
      +:+ concat_str
            (map (fun co => keyword co.2 +:+ " rec." +:+ co.1 +:+ " ") rest)
  end.

Fixpoint comma_join (l : list string) : string :=
  match l with
  | [] => ""
  | [x] => x
  | x :: rest => x +:+ "," +:+ comma_join rest
  end.

(** One sort clause, keys comma-joined in call order. *)
Definition sort (cols : list string) : string :=
  match cols with
  | [] => ""
  | _ :: _ => nl +:+ " SORT" +:+ comma_join (map (fun c => " rec." +:+ c) cols)
  end.

(** One limit clause, offset then count. *)
Definition limit_clause (start_from num_records : PyVal) : string :=
  nl +:+ " LIMIT " +:+ py_str start_from +:+ ", " +:+ py_str num_records +:+ " ".

(** The records a run of filter calls leaves in [_filter_conditions];
    [first] tells whether the list was empty before the run. *)
Fixpoint joined (first : bool) (calls : list (string * bool))
  : list Query.FilterCond :=
  match calls with
  | [] => []
  | (c, o) :: rest =>
      {| Query.condition := c;
         Query.joiner := if first then None else Some (keyword o) |}
      :: joined false rest
  end.

(** The filter calls of a chain, in order. *)
Definition filters_of (cs : list Query.Call) : list (string * bool) :=
  omap (fun c => match c with
                 | Query.CFilter cond o _ => Some (cond, o)
                 | _ => None
                 end) cs.

Definition sorts_of (cs : list Query.Call) : list string :=
  omap (fun c => match c with
                 | Query.CSort col => Some col
                 | _ => None
                 end) cs.

(** The last limit call of a chain, if any: (count, offset). *)
Definition limit_of (cs : list Query.Call) : option (PyVal * PyVal) :=
  last (omap (fun c => match c with
                       | Query.CLimit n s => Some (n, s)
                       | _ => None
                       end) cs).

(** The limit clause of a chain: that of its last limit call, present
    when the count of that call is truthy. *)
Definition limit_part (cs : list Query.Call) : string :=
  match limit_of cs with
  | Some (n, s) => if truthy n then limit_clause s n else ""
  | None => ""
  end.

(** The whole text of a chain. *)
Definition text (cs : list Query.Call) : string :=
  iteration +:+ filters (filters_of cs) +:+ sort (sorts_of cs)
  +:+ limit_part cs +:+ projection.

(** The value the last filter call that binds [k] gives it, if any call
    of the chain binds [k]. *)
Definition bound (cs : list Query.Call) (k : string) : option PyVal :=
  last (omap (fun c => match c with
                       | Query.CFilter _ _ kwargs => kwargs !! k
                       | _ => None
                       end) cs).

End QueryText.

(** ** Properties of traces *)

(** The calls that write documents. *)
Definition is_write (ev : Event) : bool :=
  match ev with
  | EInsert _ _ | EInsertMany _ _ | EUpdate _ _ | EUpdateMany _ _
  | EDelete _ _ => true
  | _ => false
  end.

(** The batched calls of the bulk operations. *)
Definition is_batch (ev : Event) : bool :=
  match ev with
  | EInsertMany _ _ | EUpdateMany _ _ => true
  | _ => false
  end.

(** Calls that drop a collection, by itself or with its graph. *)
Definition drops_collection (ev : Event) : bool :=
  match ev with
  | EDeleteCollection _ => true
  | EDeleteGraph _ drop_collections => drop_collections
  | _ => false
  end.

(** No identity field of a payload is null. *)
Definition doc_clean (d : Doc) : Prop :=
  d !! "_key" <> Some VNone /\ d !! "_rev" <> Some VNone.

Definition payload_clean (ev : Event) : Prop :=
  match ev with
  | EInsert _ d | EUpdate _ d => doc_clean d
  | EInsertMany _ ds | EUpdateMany _ ds => Forall doc_clean ds
  | _ => True
  end.

(** [emits P R m]: whatever the world, [m] only adds events that satisfy
    [P] to the trace, and a value it returns satisfies [R]. *)
Definition emits {A} (P : Event -> Prop) (R : A -> Prop) (m : M A) : Prop :=
  forall w, exists t,
    trace (m w).2 = (trace w ++ t)%list
    /\ Forall P t
    /\ forall a, (m w).1 = Ok a -> R a.

(** Calls that reach the database server. *)
Definition is_remote (ev : Event) : bool :=
  match ev with
  | ECollection _ | EDispatch _ _ | ELog _ _ _ | EPrint _ => false
  | _ => true
  end.

(** Every payload filed so far in [collections] satisfies [Q]. *)
Definition filed (Q : Doc -> Prop)
    (collections : list (string * Database.CollectionDict)) : Prop :=
  Forall (fun item => Forall Q (Database.entity_dict_list item.2)) collections.

(** Any call but the dispatch of [pre_add]. *)
Definition not_pre_add (ev : Event) : Prop :=
  match ev with
  | EDispatch _ pre_add => False
  | _ => True
  end.

(** ** Edge definitions: the calls of a pass, equivalence *)

Definition replaces (name : string) (ev : Event) : bool :=
  match ev with
  | EReplaceEdgeDefinition e => bool_decide (edge_collection e = name)
  | _ => false
  end.

Definition deletes (name : string) (ev : Event) : bool :=
  match ev with
  | EDeleteEdgeDefinition n => bool_decide (n = name)
  | _ => false
  end.

(** Calls that read or change the edge definitions of a graph. *)
Definition touches_edge_definitions (ev : Event) : bool :=
  match ev with
  | EEdgeDefinitions _ | ECreateEdgeDefinition _ | EReplaceEdgeDefinition _
  | EDeleteEdgeDefinition _ => true
  | _ => false
  end.

(** Equivalence of edge definitions in the words of the specification:
    same edge collection, same set of source names, same set of target
    names. *)
Definition equivalent (e1 e2 : EdgeDef) : Prop :=
  edge_collection e1 = edge_collection e2
  /\ list_to_set (from_vertex_collections e1)
     =@{gset string} list_to_set (from_vertex_collections e2)
  /\ list_to_set (to_vertex_collections e1)
     =@{gset string} list_to_set (to_vertex_collections e2).

(** Calls of the first half of a pass: nothing about edge definitions,
    nothing dropped. *)
Definition prepares (ev : Event) : Prop :=
  touches_edge_definitions ev = false /\ drops_collection ev = false.

(** The calls one declared relation leads to in a pass that completes. *)
Definition relation_calls (g : Graph) (existing_edges : list (string * EdgeDef))
    (item : string * CollectionClass) : list Event :=
  match edge_cols_from g !! item.1, edge_cols_to g !! item.1 with
  | Some cols_from, Some cols_to =>
      let declared := Database.edge_definition_of item.2 cols_from cols_to in
      match dict_get existing_edges (edge_collection declared) with
      | None =>
          [ELog INFO "  + creating graph edge definition: %r" [LEdge declared];
           ECreateEdgeDefinition declared]
      | Some live =>
          match Database._is_same_edge declared live with
          | Ok false =>
              [ELog INFO Database.modified_message [LEdge declared; LEdge live];
               EReplaceEdgeDefinition declared]
          | _ => []
          end
      end
  | _, _ => []
  end.

(** The calls one live definition leads to in a pass that completes. *)
Definition stale_calls (graph_connections : list (string * GraphConnection))
    (item : string * EdgeDef) : list Event :=
  if negb (dict_mem graph_connections item.1)
  then [ELog WARNING Database.stale_message [LEdge item.2];
        EDeleteEdgeDefinition item.1]
  else [].

(** ** Assumptions on the listeners, effects on the entities *)

(** No listener changes the dirty set of an entity. *)
Definition listeners_keep_dirty {LS : Listeners} : Prop :=
  forall h r s s',
    listener h r s = Some s' -> forall x, _dirty (s' x) = _dirty (s x).

(** Every listener returns, and leaves [_dirty] and [_db] of every entity
    as they were. *)
Definition listeners_quiet {LS : Listeners} : Prop :=
  forall h r s, exists s',
    listener h r s = Some s'
    /\ forall x, _dirty (s' x) = _dirty (s x) /\ _db (s' x) = _db (s x).

(** The groups of a bulk call: one key per collection met among
    [processed], and under each key the entities of that collection in
    input order, a payload for each, and the handle of the collection. *)
Definition grouped (coll : ref -> string) (processed : list ref)
    (collections : list (string * Database.CollectionDict)) : Prop :=
  NoDup (map fst collections)
  /\ (forall name, name ∈ map fst collections
                  <-> exists e, e ∈ processed /\ coll e = name)
  /\ forall name cd,
      (name, cd) ∈ collections ->
      Database.entity_obj_list cd
      = List.filter (fun e => bool_decide (coll e = name)) processed
      /\ length (Database.entity_dict_list cd) = length (Database.entity_obj_list cd)
      /\ Database.collection_model cd = name.

(** No listener moves an entity to another collection. *)
Definition listeners_keep_collection {LS : Listeners} : Prop :=
  forall h r s s',
    listener h r s = Some s' ->
    forall x, __collection__ (s' x) = __collection__ (s x).

(** [w'] differs from [w] at most in the attributes of [entity], whose
    dirty set did not grow. *)
Definition identity_written (entity : ref) (w w' : World) : Prop :=
  trace w' = trace w
  /\ (forall x, x <> entity -> store w' x = store w x)
  /\ _dirty (store w' entity) ⊆ _dirty (store w entity)
  /\ _db (store w' entity) = _db (store w entity)
  /\ __collection__ (store w' entity) = __collection__ (store w entity).

(** What the first loop of a bulk call has done when it returns [r] at
    line 205 / 306: the entities of [pre] were processed, [r] was found
    with an empty dirty set. [clears] is true for [bulk_add], whose loop
    clears the dirty set of each entity it has processed. *)
Definition stopped_at (clears : bool) (entity_list : list ref) (w : World)
    (r : ref) (w' : World) : Prop :=
  exists pre post t,
    entity_list = (pre ++ r :: post)%list
    /\ Forall (fun x => _dirty (store w x) <> ∅) pre
    /\ (_dirty (store w r) = ∅ \/ (clears = true /\ r ∈ pre))
    /\ trace w' = (trace w ++ t)%list
    /\ Forall (fun ev => is_remote ev = false) t
    /\ (forall x, x ∈ pre ->
          EDispatch x pre_update ∈ t /\ _db (store w' x) = true)
    /\ (forall x, _dirty (store w' x)
                  = if clears && bool_decide (x ∈ pre) then ∅
                    else _dirty (store w x))
    /\ (forall x, _db (store w x) = true -> _db (store w' x) = true)
    /\ (clears = true -> NoDup pre).

(** ** Identity write-back *)

(** The value of an identity attribute after [_entity_post_process]: the
    value of the result when the result has one that is not null, the old
    value otherwise. *)
Definition written (reply : option PyVal) (old : PyVal) : PyVal :=
  match reply with
  | None | Some VNone => old
  | Some v => v
  end.

(** No listener changes what the persister reads and writes of an
    entity: collection, identity, dirty set, attachment. *)
Definition listeners_keep_entities {LS : Listeners} : Prop :=
  forall h r s s',
    listener h r s = Some s' ->
    forall x,
      __collection__ (s' x) = __collection__ (s x)
      /\ key_ (s' x) = key_ (s x)
      /\ rev_ (s' x) = rev_ (s x)
      /\ _dirty (s' x) = _dirty (s x)
      /\ _db (s' x) = _db (s x).


(** [w'] has the persister's view of [w]: no entity differs in
    collection, identity, dirty set or attachment. *)
Definition same_entities (w w' : World) : Prop :=
  forall x,
    __collection__ (store w' x) = __collection__ (store w x)
    /\ key_ (store w' x) = key_ (store w x)
    /\ rev_ (store w' x) = rev_ (store w x)
    /\ _dirty (store w' x) = _dirty (store w x)
    /\ _db (store w' x) = _db (store w x).

(** The payload of every single insert is [data]. *)
Definition inserts (data : Doc) (ev : Event) : Prop :=
  match ev with
  | EInsert _ d => d = data
  | _ => True
  end.

(** The payload of every single update satisfies [Q]. *)
Definition updates (Q : Doc -> Prop) (ev : Event) : Prop :=
  match ev with
  | EUpdate _ d => Q d
  | _ => True
  end.

(** What [_entity_pre_process] leaves under key [k] of a payload that
    had [v] there. *)
Definition stripped (k : string) (v : option PyVal) : option PyVal :=
  if bool_decide (k = "_key" \/ k = "_rev") && bool_decide (v = Some VNone)
  then None
  else v.

(** The four calls of a [delete] that returns, for an entity of
    collection [c] with key [key]. *)
Definition delete_calls (entity : ref) (c : string) (key : PyVal)
  : list Event :=
  [EDispatch entity pre_delete; ECollection c; EDelete c key;
   EDispatch entity post_delete].

(** ** Creating and dropping: the calls *)

(** Calls that drop a collection or a graph. *)
Definition is_drop (ev : Event) : bool :=
  match ev with
  | EDeleteCollection _ | EDeleteGraph _ _ => true
  | _ => false
  end.

(** Calls that change the edge definitions of a graph. *)
Definition changes_edge_definitions (ev : Event) : bool :=
  match ev with
  | ECreateEdgeDefinition _ | EReplaceEdgeDefinition _
  | EDeleteEdgeDefinition _ => true
  | _ => false
  end.

(** Calls that create the edge definition of collection [name]. *)
Definition creates_definition (name : string) (ev : Event) : bool :=
  match ev with
  | ECreateEdgeDefinition e => bool_decide (edge_collection e = name)
  | _ => false
  end.

(** The collection a call creates. *)
Definition created (ev : Event) : option string :=
  match ev with
  | ECreateCollection name _ => Some name
  | _ => None
  end.


(** Every collection created or indexed by the call has a name in
    [allowed]. *)
Definition builds_only (allowed : string -> Prop) (ev : Event) : Prop :=
  match ev with
  | ECreateCollection name _ | EAddIndex name _ => allowed name
  | _ => True
  end.

(** Calls that set up collections, and log lines. *)
Definition sets_up (ev : Event) : Prop :=
  match ev with
  | ECreateCollection _ _ | EAddIndex _ _ | ELog _ _ _ => True
  | _ => False
  end.

(** The edge definition a graph declares for a relation. *)
Definition declared_definition (g : Graph) (item : string * CollectionClass)
  : EdgeDef :=
  Database.edge_definition_of item.2
    (default [] (edge_cols_from g !! item.1))
    (default [] (edge_cols_to g !! item.1)).

(** What is dropped is listed in [db_objects]: a graph of the list,
    dropped together with its collections, or a direct subclass of
    [Collection] of the list. *)
Definition drops_listed (db_objects : list Database.DbObject)
    (ev : Event) : Prop :=
  match ev with
  | EDeleteGraph name drop_collections =>
      drop_collections = true
      /\ exists g, Database.GraphClass g ∈ db_objects /\ __graph__ g = name
  | EDeleteCollection name =>
      exists c, Database.Class true c ∈ db_objects /\ cc_collection c = name
  | _ => True
  end.

(** The lookups of [edge_cols_from] and [edge_cols_to] succeed for every
    declared relation. *)
Definition relations_resolved (g : Graph) : Prop :=
  Forall (fun item : string * CollectionClass =>
            is_Some (edge_cols_from g !! item.1)
            /\ is_Some (edge_cols_to g !! item.1)) (edges g).

(** A declared collection of [g] that [ignore_collections] does not
    name. *)
Definition declared_and_kept (g : Graph)
    (ignore_collections : option (list string)) (name : string) : Prop :=
  exists item : string * CollectionClass,
    item ∈ (vertices g ++ edges g)%list
    /\ cc_collection item.2 = name
    /\ Database.ignored ignore_collections item.2 = false.


(** The classes [create_all] creates when the server lists [names]. *)
Definition missing_classes (names : list string)
    (db_objects : list Database.DbObject) : list CollectionClass :=
  omap (fun obj => match obj with
                   | Database.Class true c =>
                       if bool_decide (cc_collection c ∈ names) then None
                       else Some c
                   | _ => None
                   end) db_objects.


(** ** The groups of a bulk update *)

(** The distinct names of a list, in the order in which they first
    occur. *)
Fixpoint first_occurrences (names : list string) : list string :=
  match names with
  | [] => []
  | x :: rest =>
      x :: List.filter (fun y => negb (bool_decide (y = x)))
                       (first_occurrences rest)
  end.

(** An entity once [setattr(entity, "_db", self)] has run. *)
Definition attached (e : Entity) : Entity :=
  {| __collection__ := __collection__ e; key_ := key_ e; rev_ := rev_ e;
     fields := fields e; _dirty := _dirty e; _db := true |}.

(** The serializer does not dump [_db]. *)
Definition dump_ignores_db {EM : EntityModel} : Prop :=
  forall e, model_dump (attached e) = model_dump e.

(** No listener changes what is serialized of an entity, or its dirty
    set. *)
Definition listeners_keep_dump {EM : EntityModel} {LS : Listeners} : Prop :=
  forall h r s s',
    listener h r s = Some s' ->
    forall x, model_dump (s' x) = model_dump (s x)
              /\ _dirty (s' x) = _dirty (s x).

(** The payload [bulk_update] files for an entity in state [e]. *)
Definition update_payload {EM : EntityModel} (only_dirty : bool) (e : Entity)
  : Doc :=
  Database._entity_pre_process
    (if only_dirty then Database.dirty_payload (model_dump e) (_dirty e)
     else model_dump e).

(** The calls [create_collection] has made when it comes to index [i] of
    the class: the creation of the collection, then the indexes before
    [i]. *)
Definition creating (name : string) (col_args : Doc) (indexes : list Index)
    (i : nat) : list Event :=
  ECreateCollection name col_args :: map (EAddIndex name) (take i indexes).


(** ** Loading rows *)

(** The rows are accepted one for one, and [es] are the entities they are
    loaded into, in the order of the rows. *)
Definition loads_to {LD : EntityLoader} (coll : string) (rows : list Doc)
    (es : list Entity) : Prop :=
  Forall2 (fun rec e => _load coll rec = Ok e) rows es.

(** [x] is what loading raises on the first row that is not accepted. *)
Definition first_refused {LD : EntityLoader} (coll : string) (rows : list Doc)
    (x : Exn) : Prop :=
  exists i rec,
    rows !! i = Some rec
    /\ _load coll rec = Raise x
    /\ forall j rec', (j < i)%nat -> rows !! j = Some rec' ->
                      exists e, _load coll rec' = Ok e.

(** ** A small world to run the calls in *)

Module Sample.

(** A serializer that dumps the identity fields under their aliases, next
    to the other fields. *)
Definition serializer : EntityModel :=
  {| model_dump e := <["_key" := key_ e]> (<["_rev" := rev_ e]> (fields e)) |}.

Definition stamp (e : Entity) : Entity :=
  {| __collection__ := __collection__ e; key_ := key_ e; rev_ := rev_ e;
     fields := <["seen" := VBool true]> (fields e);
     _dirty := _dirty e; _db := _db e |}.

(** Listeners that stamp the entity they are called for. *)
Definition stamping : Listeners :=
  {| listener h r s := Some (<[r := stamp (s r)]> s) |}.

Definition identity_of (n : nat) : Doc :=
  {[ "_key" := VInt (Z.of_nat n); "_rev" := VStr "r1" ]}.

(** A loader that takes the identity of the entity from [_key] and [_rev]
    of the row and its fields from the other entries, and does not accept
    a row without [_key]. *)
Definition loader : EntityLoader :=
  {| _load coll rec :=
       match rec !! "_key" with
       | Some k =>
           Ok {| __collection__ := coll; key_ := k;
                 rev_ := default VNone (rec !! "_rev");
                 fields := base.delete "_key" (base.delete "_rev" rec);
                 _dirty := ∅; _db := false |}
       | None => Raise KeyError
       end |}.

(** A server on which every call succeeds; keys are numbered by the
    length of the history, [live] is what [edge_definitions()] returns. *)
Definition client (live : list EdgeDef) : Client :=
  {| client_ok _ _ := true;
     has_reply _ _ _ := false;
     insert_reply h _ _ := identity_of (length h);
     insert_many_reply h _ docs := imap (fun i _ => identity_of (length h + i)) docs;
     update_reply h _ _ := identity_of (length h);
     update_many_reply h _ docs := imap (fun i _ => identity_of (length h + i)) docs;
     execute_reply _ _ _ _ := [];
     collections_reply _ := ["person"; "knows"];
     graphs_reply _ := ["social"];
     edge_definitions_reply _ _ := live;
     delete_collection_error _ _ := CollectionDeleteError |}.

Definition alice : Entity :=
  {| __collection__ := "person"; key_ := VNone; rev_ := VNone;
     fields := {[ "name" := VStr "Alice" ]};
     _dirty := {[ "name" ]}; _db := false |}.

Definition bob : Entity :=
  {| __collection__ := "person"; key_ := VStr "bob"; rev_ := VStr "r0";
     fields := {[ "name" := VStr "Bob" ]};
     _dirty := ∅; _db := false |}.

Definition oslo : Entity :=
  {| __collection__ := "city"; key_ := VNone; rev_ := VNone;
     fields := {[ "name" := VStr "Oslo" ]};
     _dirty := {[ "name" ]}; _db := false |}.

(** Entity 0 is Alice (dirty), entity 1 is Bob (clean), the others are
    Oslo (dirty). *)
Definition world : World :=
  {| store := fun r => match r with
                       | O => alice
                       | S O => bob
                       | _ => oslo
                       end;
     trace := [] |}.

Definition person : CollectionClass :=
  {| cc_collection := "person"; cc_is_relation := false;
     cc_col_args := None;
     cc_indexes := Some [ {| index_type := "hash";
                             index_args := {[ "unique" := VBool true ]} |} ] |}.

Definition city : CollectionClass :=
  {| cc_collection := "city"; cc_is_relation := false;
     cc_col_args := None; cc_indexes := None |}.

Definition knows : CollectionClass :=
  {| cc_collection := "knows"; cc_is_relation := true;
     cc_col_args := None; cc_indexes := None |}.

Definition lives_in : CollectionClass :=
  {| cc_collection := "lives_in"; cc_is_relation := true;
     cc_col_args := None; cc_indexes := None |}.

(** A graph of persons who know each other and live in cities. *)
Definition social : Graph :=
  {| __graph__ := "social";
     vertices := [("person", person); ("city", city)];
     edges := [("knows", knows); ("lives_in", lives_in)];
     edge_cols_from := {[ "knows" := [person]; "lives_in" := [person] ]};
     edge_cols_to := {[ "knows" := [person]; "lives_in" := [city] ]};
     graph_connections :=
       [ {| relation := knows |}; {| relation := lives_in |} ] |}.

(** The live graph: [knows] as declared, [lives_in] with another target,
    and [visited], which is not declared. *)
Definition live : list EdgeDef :=
  [ {| edge_collection := "knows";
       from_vertex_collections := ["person"];
       to_vertex_collections := ["person"] |};
    {| edge_collection := "lives_in";
       from_vertex_collections := ["person"];
       to_vertex_collections := ["person"] |};
    {| edge_collection := "visited";
       from_vertex_collections := ["person"];
       to_vertex_collections := ["city"] |} ].

(** The server that holds [live]. *)
Definition server : Client := client live.

(** [knows] declared with the same target class twice. *)
Definition doubled : Graph :=
  {| __graph__ := "social";
     vertices := [("person", person)];
     edges := [("knows", knows)];
     edge_cols_from := {[ "knows" := [person] ]};
     edge_cols_to := {[ "knows" := [person; person] ]};
     graph_connections := [ {| relation := knows |} ] |}.

Definition doubled_declared : EdgeDef :=
  {| edge_collection := "knows";
     from_vertex_collections := ["person"];
     to_vertex_collections := ["person"; "person"] |}.

Definition doubled_live : EdgeDef :=
  {| edge_collection := "knows";
     from_vertex_collections := ["person"];
     to_vertex_collections := ["person"] |}.

(** A server that has every document it is asked about. *)
Definition keeper : Client :=
  {| client_ok _ _ := true;
     has_reply _ _ _ := true;
     insert_reply := @insert_reply (client []);
     insert_many_reply := @insert_many_reply (client []);
     update_reply := @update_reply (client []);
     update_many_reply := @update_many_reply (client []);
     execute_reply := @execute_reply (client []);
     collections_reply := @collections_reply (client []);
     graphs_reply := @graphs_reply (client []);
     edge_definitions_reply := @edge_definitions_reply (client []);
     delete_collection_error := @delete_collection_error (client []) |}.

(** A server that refuses to delete a document without a key, to create
    a collection or an index, and to delete a collection. *)
Definition refusing : Client :=
  {| client_ok _ ev :=
       match ev with
       | EDelete _ VNone | ECreateCollection _ _ | EAddIndex _ _
       | EDeleteCollection _ => false
       | _ => true
       end;
     has_reply := @has_reply (client []);
     insert_reply := @insert_reply (client []);
     insert_many_reply := @insert_many_reply (client []);
     update_reply := @update_reply (client []);
     update_many_reply := @update_many_reply (client []);
     execute_reply := @execute_reply (client []);
     collections_reply := @collections_reply (client []);
     graphs_reply := @graphs_reply (client []);
     edge_definitions_reply := @edge_definitions_reply (client []);
     delete_collection_error := @delete_collection_error (client []) |}.



Definition ann_row : Doc :=
  {[ "_key" := VStr "ann"; "_rev" := VStr "r7"; "name" := VStr "Ann" ]}.

Definition ben_row : Doc :=
  {[ "_key" := VStr "ben"; "name" := VStr "Ben" ]}.

Definition ann : Entity :=
  {| __collection__ := "person"; key_ := VStr "ann"; rev_ := VStr "r7";
     fields := {[ "name" := VStr "Ann" ]}; _dirty := ∅; _db := false |}.

Definition ben : Entity :=
  {| __collection__ := "person"; key_ := VStr "ben"; rev_ := VNone;
     fields := {[ "name" := VStr "Ben" ]}; _dirty := ∅; _db := false |}.

(** A server that answers every query with the rows of Ann and Ben. *)
Definition answering : Client :=
  {| client_ok _ _ := true;
     has_reply := @has_reply (client []);
     insert_reply := @insert_reply (client []);
     insert_many_reply := @insert_many_reply (client []);
     update_reply := @update_reply (client []);
     update_many_reply := @update_many_reply (client []);
     execute_reply _ _ _ _ := [ann_row; ben_row];
     collections_reply := @collections_reply (client []);
     graphs_reply := @graphs_reply (client []);
     edge_definitions_reply := @edge_definitions_reply (client []);
     delete_collection_error := @delete_collection_error (client []) |}.

(** A server that answers every query with the row of Ann, a row without
    a key, and the row of Ben. *)
Definition garbled : Client :=
  {| client_ok _ _ := true;
     has_reply := @has_reply (client []);
     insert_reply := @insert_reply (client []);
     insert_many_reply := @insert_many_reply (client []);
     update_reply := @update_reply (client []);
     update_many_reply := @update_many_reply (client []);
     execute_reply _ _ _ _ := [ann_row; {[ "name" := VStr "Nobody" ]}; ben_row];
     collections_reply := @collections_reply (client []);
     graphs_reply := @graphs_reply (client []);
     edge_definitions_reply := @edge_definitions_reply (client []);
     delete_collection_error := @delete_collection_error (client []) |}.

(** Listeners that do nothing. *)
Definition silent : Listeners :=
  {| listener _ _ s := Some s |}.

(** The live graph as [social] declares it, in another order. *)
Definition converged : list EdgeDef :=
  [ {| edge_collection := "lives_in";
       from_vertex_collections := ["person"];
       to_vertex_collections := ["city"] |};
    {| edge_collection := "knows";
       from_vertex_collections := ["person"];
       to_vertex_collections := ["person"] |} ].

(** A chain of builder calls, kinds interleaved, two limits. *)
Definition calls : list Query.Call :=
  [ Query.CSort "name"; Query.CLimit (VInt 5) (VInt 10);
    Query.CFilter "age > @min" false {[ "min" := VInt 30 ]};
    Query.CSort "age DESC";
    Query.CFilter "city == @c" true {[ "c" := VStr "Oslo"; "min" := VInt 18 ]};
    Query.CLimit (VInt 2) (VInt 0) ].

(** Classes as given to [create_all] and [drop_all]. *)
Definition classes : list Database.DbObject :=
  [ Database.Class true person; Database.Class false knows;
    Database.Class true city; Database.Other ].

End Sample.

(** * Theorems *)

(** ** Strings *)

Lemma str_app_cons (x : ascii) (a b : string) :
  String x a +:+ b = String x (a +:+ b).
Proof. reflexivity. Qed.

Lemma str_app_assoc (a b c : string) : (a +:+ b) +:+ c = a +:+ (b +:+ c).
Proof.
  induction a as [|x a IH]; [done |].
  by rewrite !str_app_cons, IH.
Qed.

Lemma str_app_nil_r (s : string) : s +:+ "" = s.
Proof.
  induction s as [|x s IH]; [done |].
  by rewrite str_app_cons, IH.
Qed.

Lemma drop_last_snoc (s : string) (c : ascii) :
  drop_last (s +:+ String c "") = s.
Proof.
  induction s as [|x s IH]; [done |].
  rewrite str_app_cons. simpl. rewrite IH.
  destruct s; done.
Qed.

Lemma fold_left_append {X} (f : X -> string) (l : list X) (a : string) :
  fold_left (fun acc x => acc +:+ f x) l a
  = a +:+ QueryText.concat_str (map f l).
Proof.
  revert a. induction l as [|x l IH]; intros a; simpl.
  - by rewrite str_app_nil_r.
  - by rewrite IH, str_app_assoc.
Qed.

Lemma concat_comma_join (l : list string) :
  l <> [] ->
  QueryText.concat_str (map (fun x => x +:+ ",") l)
  = QueryText.comma_join l +:+ ",".
Proof.
  induction l as [|x l IH]; [done | intros _].
  destruct l as [|y l]; [by simpl; rewrite str_app_nil_r |].
  change (QueryText.concat_str (map (fun x => x +:+ ",") (x :: y :: l)))
    with ((x +:+ ",") +:+ QueryText.concat_str (map (fun x => x +:+ ",") (y :: l))).
  rewrite IH by done.
  change (QueryText.comma_join (x :: y :: l))
    with (x +:+ "," +:+ QueryText.comma_join (y :: l)).
  by rewrite !str_app_assoc.
Qed.

(** ** The query builder *)

Section QueryFacts.
Import Query.

(** The sort loop of [_make_aql] and the slice that removes the last
    comma. *)
Lemma sort_loop (cols : list string) (a : string) :
  cols <> [] ->
  drop_last
    (fold_left (fun aql sc => aql +:+ ((" rec." +:+ sc) +:+ ","))
               cols (a +:+ (nl +:+ " SORT")))
  = a +:+ QueryText.sort cols.
Proof.
  intros Hne.
  rewrite (fold_left_append (fun sc => (" rec." +:+ sc) +:+ ",")).
  rewrite <- (map_map (fun sc => " rec." +:+ sc) (fun x => x +:+ ",")).
  rewrite concat_comma_join by (destruct cols; done).
  rewrite <- !str_app_assoc.
  change ("," : string) with (String ","%char "").
  rewrite drop_last_snoc.
  destruct cols; [done |].
  unfold QueryText.sort. by rewrite !str_app_assoc.
Qed.

(** [_make_aql] clause by clause: iteration, the stored filter lines,
    the sort clause when there are sort keys, the limit clause when
    [_limit] is truthy. *)
Lemma make_aql_layout (q : t) :
  _make_aql q
  = QueryText.iteration
    +:+ QueryText.concat_str
          (map (fun fc => filter_line fc +:+ " ") (_filter_conditions q))
    +:+ QueryText.sort (_sort_columns q)
    +:+ (if truthy (_limit q)
         then QueryText.limit_clause (_limit_start_record q) (_limit q)
         else "").
Proof.
  unfold _make_aql.
  rewrite (fold_left_append (fun fc => filter_line fc +:+ " ")).
  fold QueryText.iteration.
  set (pre := QueryText.iteration +:+ _).
  assert (Hsort :
    match _sort_columns q with
    | [] => pre
    | _ :: _ =>
        drop_last
          (fold_left (fun aql sc => aql +:+ ((" rec." +:+ sc) +:+ ","))
                     (_sort_columns q) (pre +:+ (nl +:+ " SORT")))
    end = pre +:+ QueryText.sort (_sort_columns q)).
  { destruct (_sort_columns q) as [|c cols] eqn:E.
    - by rewrite str_app_nil_r.
    - by rewrite sort_loop. }
  rewrite Hsort. unfold pre.
  destruct (truthy (_limit q)).
  - unfold QueryText.limit_clause. by rewrite !str_app_assoc.
  - by rewrite !str_app_assoc, !str_app_nil_r.
Qed.

(** The lines of the stored filter records are the filters of the
    description. *)
Lemma joined_lines (calls : list (string * bool)) :
  QueryText.concat_str
    (map (fun fc => filter_line fc +:+ " ") (QueryText.joined true calls))
  = QueryText.filters calls.
Proof.
  destruct calls as [|[c o] rest]; [done |].
  unfold QueryText.filters. simpl QueryText.joined. simpl map.
  simpl QueryText.concat_str. f_equal.
  induction rest as [|[c' o'] rest IH]; [done |].
  simpl. rewrite IH. unfold filter_line. simpl.
  by rewrite !str_app_assoc.
Qed.

(** What a run of filter calls appends to [_filter_conditions]. *)
Lemma filter_run (calls : list (string * bool * Doc)) (q : t) :
  let q' := fold_left (fun q c => filter q c.1.1 c.1.2 c.2) calls q in
  _filter_conditions q'
  = (_filter_conditions q
     ++ QueryText.joined (bool_decide (_filter_conditions q = []))
                         (map fst calls))%list
  /\ _sort_columns q' = _sort_columns q
  /\ _limit q' = _limit q
  /\ _limit_start_record q' = _limit_start_record q.
Proof.
  revert q. induction calls as [|[[c o] kw] calls IH]; intros q; simpl.
  - by rewrite app_nil_r.
  - destruct (IH (filter q c o kw)) as (Hf & Hs & Hl & Hr).
    rewrite Hf, Hs, Hl, Hr. simpl.
    split; [| done].
    rewrite <- app_assoc. f_equal. simpl.
    rewrite (bool_decide_eq_false_2 ((_ ++ [_])%list = [])) by (by destruct (_filter_conditions q)).
    destruct (_filter_conditions q); done.
Qed.

(** The state a chain of builder calls reaches: filters and sort keys
    accumulate in call order, the last limit call wins. *)
Lemma chain_state (cs : list Call) (q q' : t) :
  chain q cs = Ok q' ->
  _filter_conditions q'
  = (_filter_conditions q
     ++ QueryText.joined (bool_decide (_filter_conditions q = []))
                         (QueryText.filters_of cs))%list
  /\ _sort_columns q' = (_sort_columns q ++ QueryText.sorts_of cs)%list
  /\ (_limit q', _limit_start_record q')
     = default (_limit q, _limit_start_record q) (QueryText.limit_of cs).
Proof.
  revert q. induction cs as [|c cs IH]; intros q Hc.
  - injection Hc as <-. by rewrite !app_nil_r.
  - simpl in Hc. destruct (call q c) as [q1|x] eqn:E; [| done].
    destruct (IH _ Hc) as (Hf & Hs & Hl). rewrite Hf, Hs, Hl.
    unfold QueryText.limit_of in *.
    destruct c as [cond o kw | col | n s]; simpl in E.
    + injection E as <-. simpl.
      rewrite <- app_assoc. simpl.
      rewrite (bool_decide_eq_false_2 ((_ ++ [_])%list = []))
        by (by destruct (_filter_conditions q)).
      by destruct (_filter_conditions q).
    + injection E as <-. simpl. by rewrite <- app_assoc.
    + unfold limit in E.
      destruct (isinstance_int n); [| done].
      destruct (isinstance_int s); [| done].
      injection E as <-. simpl.
      rewrite last_cons. by destruct (last _) as [[??]|].
Qed.

(** The query a chain of calls on a fresh builder compiles to, whatever
    the order of the calls: iteration, filters, sort, limit, projection.
    The limit clause is there when the last count given is truthy. *)
Lemma compile_chain (coll : string) (cs : list Call) (q : t) :
  chain (init coll) cs = Ok q ->
  compile q
  = QueryText.iteration
    +:+ QueryText.filters (QueryText.filters_of cs)
    +:+ QueryText.sort (QueryText.sorts_of cs)
    +:+ match QueryText.limit_of cs with
        | Some (n, s) => if truthy n then QueryText.limit_clause s n else ""
        | None => ""
        end
    +:+ QueryText.projection.
Proof.
  intros Hc. apply chain_state in Hc as (Hf & Hs & Hl).
  unfold compile. rewrite make_aql_layout, Hf, Hs. simpl.
  rewrite joined_lines. fold QueryText.projection.
  rewrite !str_app_assoc.
  destruct (QueryText.limit_of cs) as [[n s]|]; simpl in Hl;
    injection Hl as Hl Hr; by rewrite Hl, Hr.
Qed.

End QueryFacts.

(** C7. On a builder that holds no filter yet, after any run of [filter]
    calls the first stored predicate has no joiner and every later one has
    [OR] when its call passed [_or] true and [AND] otherwise; in the compiled
    query the first predicate follows the [FILTER] keyword directly and each
    later one follows its [OR] / [AND]. *)
Theorem filter_chain_joiners (q0 : Query.t) (calls : list (string * bool * Doc)) :
  Query._filter_conditions q0 = [] ->
  let q := fold_left (fun q c => Query.filter q c.1.1 c.1.2 c.2) calls q0 in
  map Query.joiner (Query._filter_conditions q)
  = match calls with
    | [] => []
    | _ :: rest => None :: map (fun c => Some (QueryText.keyword c.1.2)) rest
    end
  /\ map Query.condition (Query._filter_conditions q) = map (fun c => c.1.1) calls
  /\ Query.compile q
     = QueryText.iteration
       +:+ QueryText.filters (map fst calls)
       +:+ QueryText.sort (Query._sort_columns q0)
       +:+ (if truthy (Query._limit q0)
            then QueryText.limit_clause (Query._limit_start_record q0)
                                        (Query._limit q0)
            else "")
       +:+ QueryText.projection.
Proof.
  intros H0 q.
  destruct (filter_run calls q0) as (Hf & Hs & Hl & Hr).
  fold q in Hf, Hs, Hl, Hr.
  rewrite H0 in Hf. simpl in Hf.
  split; [| split].
  - rewrite Hf. destruct calls as [|[[c o] kw] rest]; [done |].
    simpl. f_equal. clear.
    induction rest as [|[[c o] kw] rest IH]; [done |].
    simpl. by rewrite IH.
  - rewrite Hf. clear.
    generalize true.
    induction calls as [|[[c o] kw] rest IH]; intros b; [done |].
    simpl. by rewrite IH.
  - unfold Query.compile.
    rewrite make_aql_layout, Hf, Hs, Hl, Hr, joined_lines.
    fold QueryText.projection. by rewrite !str_app_assoc.
Qed.

(** C7 on a chain of three filters. *)
Lemma filter_chain_joiners_witness :
  Query._filter_conditions (Query.init "users") = []
  /\ Query.compile
       (fold_left (fun q c => Query.filter q c.1.1 c.1.2 c.2)
          [("age > 30", true, ∅); ("city == @c", true, {[ "c" := VStr "Oslo" ]});
           ("active", false, ∅)]
          (Query.init "users"))
     = "FOR rec IN @@collection" +:+ nl
       +:+ "FILTER rec.age > 30 OR rec.city == @c AND rec.active "
       +:+ nl +:+ " RETURN rec".
Proof.
  split; [reflexivity |].
  exact (proj2 (proj2 (filter_chain_joiners (Query.init "users")
    [("age > 30", true, ∅); ("city == @c", true, {[ "c" := VStr "Oslo" ]});
     ("active", false, ∅)] eq_refl))).
Defined.

(** C8. A limit with count 0 is a limit that was set, yet the compiled
    query carries no limit clause: [if self._limit:] drops it, and the offset
    with it. The other clauses are in their places. *)
Theorem compile_limit_zero :
  Query.chain (Query.init "users")
    [Query.CSort "name"; Query.CLimit (VInt 0) (VInt 10);
     Query.CFilter "age > 30" false ∅]
  = Ok {| Query.collection := "users";
          Query._bind_vars := {[ "@collection" := VStr "users" ]};
          Query._filter_conditions :=
            [ {| Query.condition := "age > 30"; Query.joiner := None |} ];
          Query._sort_columns := ["name"];
          Query._limit := VInt 0;
          Query._limit_start_record := VInt 10 |}
  /\ Query.compile
       {| Query.collection := "users";
          Query._bind_vars := {[ "@collection" := VStr "users" ]};
          Query._filter_conditions :=
            [ {| Query.condition := "age > 30"; Query.joiner := None |} ];
          Query._sort_columns := ["name"];
          Query._limit := VInt 0;
          Query._limit_start_record := VInt 10 |}
     = "FOR rec IN @@collection" +:+ nl +:+ "FILTER rec.age > 30 "
       +:+ nl +:+ " SORT rec.name" +:+ nl +:+ " RETURN rec".
Proof.
  split.
  - vm_compute. reflexivity.
  - reflexivity.
Qed.

(** C9, amended. [limit] fails (with [AssertionError], inside the builder,
    no remote call involved) exactly when the count or the offset is not an
    integer; every integer, negative ones included, is stored as given. *)
Theorem limit_checks_types_only (q : Query.t) (num_records start_from : PyVal) :
  Query.limit q num_records start_from
  = (if isinstance_int num_records && isinstance_int start_from
     then Ok {| Query.collection := Query.collection q;
                Query._bind_vars := Query._bind_vars q;
                Query._filter_conditions := Query._filter_conditions q;
                Query._sort_columns := Query._sort_columns q;
                Query._limit := num_records;
                Query._limit_start_record := start_from |}
     else Raise AssertionError)
  /\ forall count offset : Z,
       exists q',
         Query.limit q (VInt count) (VInt offset) = Ok q'
         /\ Query._limit q' = VInt count
         /\ Query._limit_start_record q' = VInt offset.
Proof.
  split.
  - unfold Query.limit.
    by destruct (isinstance_int num_records), (isinstance_int start_from).
  - intros count offset. eexists. split; [reflexivity | done].
Qed.

(** ** The monad *)

Section MonadFacts.
Context {A B : Type}.

Lemma bind_ok_inv (m : M A) (f : A -> M B) (w w' : World) (b : B) :
  bind m f w = (Ok b, w') ->
  exists a w1, m w = (Ok a, w1) /\ f a w1 = (Ok b, w').
Proof.
  unfold bind. destruct (m w) as [[a|x] w1]; [eauto | done].
Qed.

Lemma bind_ok (m : M A) (f : A -> M B) (w w1 : World) (a : A) :
  m w = (Ok a, w1) -> bind m f w = f a w1.
Proof. unfold bind. by intros ->. Qed.

End MonadFacts.

Section Emits.
Context (P : Event -> Prop).

Lemma emits_ret {A} (R : A -> Prop) (a : A) : R a -> emits P R (ret a).
Proof.
  intros Ha w. exists []. simpl. rewrite app_nil_r.
  split; [done | split; [constructor |]]. by intros ? [= <-].
Qed.

Lemma emits_raise {A} (R : A -> Prop) (x : Exn) : emits P R (raise x).
Proof.
  intros w. exists []. simpl. rewrite app_nil_r.
  split; [done | split; [constructor | done]].
Qed.

Lemma emits_bind {A B} (R : A -> Prop) (R' : B -> Prop) (m : M A) (f : A -> M B) :
  emits P R m -> (forall a, R a -> emits P R' (f a)) -> emits P R' (bind m f).
Proof.
  intros Hm Hf w. destruct (Hm w) as (t1 & Ht1 & HP1 & HR).
  unfold bind. destruct (m w) as [[a|x] w1]; simpl in *.
  - destruct (Hf a (HR a eq_refl) w1) as (t2 & Ht2 & HP2 & HR').
    exists (t1 ++ t2)%list. rewrite Ht2, Ht1, app_assoc.
    split; [done | split; [by apply Forall_app | done]].
  - exists t1. split; [done | split; done].
Qed.

Lemma emits_try_except {A} (R : A -> Prop) (m handler : M A) :
  emits P R m -> emits P R handler -> emits P R (try_except m handler).
Proof.
  intros Hm Hh w. destruct (Hm w) as (t1 & Ht1 & HP1 & HR).
  unfold try_except. destruct (m w) as [[a|x] w1]; simpl in *.
  - exists t1. split; [done | split; [done |]]. intros ? [= <-]. by apply HR.
  - destruct (Hh w1) as (t2 & Ht2 & HP2 & HR').
    exists (t1 ++ t2)%list. rewrite Ht2, Ht1, app_assoc.
    split; [done | split; [by apply Forall_app | done]].
Qed.

Lemma emits_for_each {X} (xs : list X) (body : X -> M unit) :
  (forall x, x ∈ xs -> emits P (fun _ => True) (body x)) ->
  emits P (fun _ => True) (for_each xs body).
Proof.
  induction xs as [|x xs IH]; intros Hb; simpl.
  - by apply emits_ret.
  - apply emits_bind with (R := fun _ => True).
    + apply Hb. by left.
    + intros _ _. apply IH. intros y Hy. apply Hb. by right.
Qed.

Lemma emits_log (lvl : Level) (fmt : string) (args : list LogArg) :
  P (ELog lvl fmt args) -> emits P (fun _ => True) (log lvl fmt args).
Proof.
  intros HP w. exists [ELog lvl fmt args]. simpl.
  split; [done | split; [by repeat constructor | done]].
Qed.

Lemma emits_get_entity (r : ref) : emits P (fun _ => True) (get_entity r).
Proof.
  intros w. exists []. simpl. rewrite app_nil_r.
  split; [done | split; [constructor | done]].
Qed.

Lemma emits_set_entity (r : ref) (e : Entity) :
  emits P (fun _ => True) (set_entity r e).
Proof.
  intros w. exists []. simpl. rewrite app_nil_r.
  split; [done | split; [constructor | done]].
Qed.
End Emits.

(** ** Lists and insertion-ordered dictionaries *)

Lemma elem_of_map {X Y} (f : X -> Y) (l : list X) (y : Y) :
  y ∈ map f l <-> exists x, y = f x /\ x ∈ l.
Proof.
  rewrite list_elem_of_In, in_map_iff. split.
  - intros (x & <- & Hx). exists x. by rewrite list_elem_of_In.
  - intros (x & -> & Hx). exists x. by rewrite <- list_elem_of_In.
Qed.

Section DictFacts.
Context {V : Type}.
Implicit Types (d : list (string * V)) (k : string) (v : V).

Lemma dict_get_elem d k v : dict_get d k = Some v -> (k, v) ∈ d.
Proof.
  induction d as [|[k' v'] d IH]; simpl; [done |].
  destruct (decide (k' = k)) as [->|]; intros Hg.
  - injection Hg as ->. by left.
  - right. by apply IH.
Qed.

Lemma dict_set_Forall (Q : string * V -> Prop) d k v :
  Forall Q d -> Q (k, v) -> Forall Q (dict_set d k v).
Proof.
  intros Hd Hkv. induction Hd as [|[k' v'] d Hx Hd IH]; simpl.
  - by repeat constructor.
  - destruct (decide (k' = k)); constructor; done.
Qed.
Lemma dict_get_None d k : dict_get d k = None <-> k ∉ map fst d.
Proof.
  induction d as [|[k' v'] d IH]; simpl.
  - split; [intros _ Hin; by apply elem_of_nil in Hin | done].
  - destruct (decide (k' = k)) as [->|Hne].
    + split; [done |]. intros Hn. exfalso. apply Hn. by left.
    + rewrite IH. split.
      * intros Hn [->|Hin]%elem_of_cons; done.
      * intros Hn Hin. apply Hn. by right.
Qed.

Lemma dict_mem_keys d k : dict_mem d k = true <-> k ∈ map fst d.
Proof.
  unfold dict_mem. rewrite bool_decide_eq_true.
  destruct (dict_get d k) as [v|] eqn:E.
  - split; [| by eauto]. intros _.
    destruct (decide (k ∈ map fst d)) as [|Hn]; [done |].
    apply dict_get_None in Hn. congruence.
  - split; [by intros [? ?] |]. intros Hin.
    apply dict_get_None in E. done.
Qed.

Lemma dict_set_keys d k v :
  map fst (dict_set d k v)
  = if decide (k ∈ map fst d) then map fst d else (map fst d ++ [k])%list.
Proof.
  induction d as [|[k' v'] d IH]; simpl.
  - done.
  - destruct (decide (k' = k)) as [->|Hne]; simpl.
    + rewrite decide_True; [done | by left].
    + rewrite IH. destruct (decide (k ∈ map fst d)) as [Hin|Hout].
      * rewrite decide_True; [done | by right].
      * rewrite decide_False; [done |].
        by intros [?|?]%elem_of_cons.
Qed.

Lemma dict_set_get d k v k' :
  dict_get (dict_set d k v) k'
  = if decide (k = k') then Some v else dict_get d k'.
Proof.
  induction d as [|[k0 v0] d IH]; simpl.
  - destruct (decide (k = k')); done.
  - destruct (decide (k0 = k)) as [->|Hne]; simpl.
    + destruct (decide (k = k')); done.
    + rewrite IH. destruct (decide (k0 = k')) as [->|]; [| done].
      by rewrite decide_False.
Qed.

Lemma dict_set_NoDup d k v :
  NoDup (map fst d) -> NoDup (map fst (dict_set d k v)).
Proof.
  intros Hd. rewrite dict_set_keys. destruct (decide _); [done |].
  apply NoDup_app. split_and!; [done | | apply NoDup_singleton].
  intros x Hx ->%list_elem_of_singleton. done.
Qed.

Lemma dict_fold_NoDup (l : list (string * V)) d :
  NoDup (map fst d) ->
  NoDup (map fst (fold_left (fun d kv => dict_set d kv.1 kv.2) l d)).
Proof.
  revert d. induction l as [|[k v] l IH]; intros d Hd; simpl; [done |].
  by apply IH, dict_set_NoDup.
Qed.

Lemma dict_fold_keys (l : list (string * V)) d k :
  k ∈ map fst (fold_left (fun d kv => dict_set d kv.1 kv.2) l d)
  <-> k ∈ map fst d \/ k ∈ map fst l.
Proof.
  revert d. induction l as [|[k0 v0] l IH]; intros d; simpl.
  - split; [by left | intros [?|Hin]; [done | by apply elem_of_nil in Hin]].
  - rewrite IH, dict_set_keys. rewrite elem_of_cons.
    destruct (decide (k0 ∈ map fst d)); [| rewrite elem_of_app, list_elem_of_singleton];
      naive_solver.
Qed.

Lemma dict_fold_get (l : list (string * V)) d k v :
  dict_get (fold_left (fun d kv => dict_set d kv.1 kv.2) l d) k = Some v ->
  (k, v) ∈ l \/ dict_get d k = Some v.
Proof.
  revert d. induction l as [|[k0 v0] l IH]; intros d; simpl; [by right |].
  intros Hg. apply IH in Hg as [Hin|Hg]; [left; by right |].
  rewrite dict_set_get in Hg. destruct (decide (k0 = k)) as [->|]; [| by right].
  injection Hg as ->. left. by left.
Qed.

Lemma dict_of_pairs_NoDup (l : list (string * V)) :
  NoDup (map fst (dict_of_pairs l)).
Proof. apply dict_fold_NoDup. constructor. Qed.

Lemma dict_of_pairs_keys (l : list (string * V)) k :
  k ∈ map fst (dict_of_pairs l) <-> k ∈ map fst l.
Proof.
  unfold dict_of_pairs. rewrite dict_fold_keys. simpl.
  split; [intros [Hin|?]; [by apply elem_of_nil in Hin | done] | by right].
Qed.

Lemma dict_of_pairs_get (l : list (string * V)) k v :
  dict_get (dict_of_pairs l) k = Some v -> (k, v) ∈ l.
Proof. intros Hg. by apply dict_fold_get in Hg as [?|?]. Qed.

Lemma dict_elem_get d k v :
  NoDup (map fst d) -> (k, v) ∈ d -> dict_get d k = Some v.
Proof.
  induction d as [|[k' v'] d IH]; simpl; intros Hnd Hin.
  - by apply elem_of_nil in Hin.
  - apply NoDup_cons in Hnd as [Hk Hnd].
    apply elem_of_cons in Hin as [[= -> ->]|Hin].
    + by rewrite decide_True.
    + destruct (decide (k' = k)) as [->|]; [| by apply IH].
      exfalso. apply Hk. apply elem_of_map. by exists (k, v).
Qed.
End DictFacts.

(** ** The persister *)

Section PersisterFacts.
Context {EM : EntityModel} {LS : Listeners} {CL : Client}.
Import Database.

Section Primitives.
Context (P : Event -> Prop).

Lemma emits_remote {A} (R : A -> Prop) (ev : Event) (reply : list Event -> A) :
  P ev -> (forall h, R (reply h)) -> emits P R (remote ev reply).
Proof.
  intros HP HR w. exists [ev]. unfold remote.
  destruct (client_ok (trace w) ev); simpl.
  - split; [done | split; [by repeat constructor |]].
    intros ? [= <-]. apply HR.
  - split; [done | split; [by repeat constructor | done]].
Qed.

Lemma emits_collection (name : string) :
  P (ECollection name) -> emits P (fun _ => True) (collection name).
Proof.
  intros HP w. exists [ECollection name]. simpl.
  split; [done | split; [by repeat constructor | done]].
Qed.

Lemma emits_dispatch (entity : ref) (h : Hook) :
  P (EDispatch entity h) -> emits P (fun _ => True) (dispatch entity h).
Proof.
  intros HP w. exists [EDispatch entity h]. unfold dispatch.
  destruct (listener h entity (store w)); simpl;
    (split; [done | split; [by repeat constructor | done]]).
Qed.

Lemma emits_attach_db (entity : ref) :
  emits P (fun _ => True) (attach_db entity).
Proof.
  eapply emits_bind; [apply emits_get_entity | intros ? _].
  apply emits_set_entity.
Qed.

Lemma emits_dirty_clear (entity : ref) :
  emits P (fun _ => True) (dirty_clear entity).
Proof.
  eapply emits_bind; [apply emits_get_entity | intros ? _].
  apply emits_set_entity.
Qed.

Lemma emits_dirty_remove (entity : ref) (name : string) :
  emits P (fun _ => True) (dirty_remove entity name).
Proof.
  eapply emits_bind; [apply emits_get_entity | intros e _].
  destruct (decide _); [apply emits_set_entity | apply emits_raise].
Qed.

Lemma emits_setattr (entity : ref) (name : string) (v : PyVal) :
  emits P (fun _ => True) (setattr entity name v).
Proof.
  eapply emits_bind; [apply emits_get_entity | intros ? _].
  apply emits_set_entity.
Qed.

Lemma emits_post_process (entity : ref) (result : Doc) :
  emits P (fun _ => True) (_entity_post_process entity result).
Proof.
  apply emits_for_each. intros k _.
  destruct (result !! k.2) as [[]|]; try (by apply emits_ret);
    (eapply emits_bind; [apply emits_setattr | intros ? _];
     apply emits_dirty_remove).
Qed.
End Primitives.

Lemma pre_process_clean (data : Doc) : doc_clean (_entity_pre_process data).
Proof.
  unfold _entity_pre_process, doc_clean. simpl.
  destruct (data !! "_key") as [[]|] eqn:Ek;
    match goal with
    | |- context [match ?d !! "_rev" with _ => _ end] =>
        destruct (d !! "_rev") as [[]|] eqn:Er
    end;
    simplify_map_eq; split; congruence.
Qed.

(** *** Running the primitives *)

Lemma bind_get_entity {B} r (f : Entity -> M B) w :
  bind (get_entity r) f w = f (store w r) w.
Proof. reflexivity. Qed.

Lemma bind_collection {B} name (f : string -> M B) w :
  bind (collection name) f w = f name (record (ECollection name) w).
Proof. reflexivity. Qed.

Lemma dispatch_ok_inv entity h w w' :
  dispatch entity h w = (Ok tt, w') ->
  exists s', listener h entity (store w) = Some s'
    /\ w' = {| store := s'; trace := (trace w ++ [EDispatch entity h])%list |}.
Proof.
  unfold dispatch. destruct (listener h entity (store w)) as [s'|]; [| done].
  intros [= <-]. eauto.
Qed.

Lemma remote_ok_inv {A} ev (reply : list Event -> A) w a w' :
  remote ev reply w = (Ok a, w') ->
  client_ok (trace w) ev = true /\ a = reply (trace w) /\ w' = record ev w.
Proof.
  unfold remote. destruct (client_ok (trace w) ev); [| done].
  by intros [= <- <-].
Qed.

Lemma attach_db_run entity w :
  exists w', attach_db entity w = (Ok tt, w')
    /\ trace w' = trace w
    /\ (forall x, _dirty (store w' x) = _dirty (store w x))
    /\ _db (store w' entity) = true
    /\ (forall x, x <> entity -> _db (store w' x) = _db (store w x)).
Proof.
  eexists. split; [reflexivity |]. simpl.
  split; [done |]. split; [| split].
  - intros x. destruct (decide (x = entity)) as [->|].
    + by rewrite fn_lookup_insert.
    + by rewrite fn_lookup_insert_ne.
  - by rewrite fn_lookup_insert.
  - intros x Hx. by rewrite fn_lookup_insert_ne.
Qed.

Lemma dirty_clear_run entity w :
  exists w', dirty_clear entity w = (Ok tt, w')
    /\ trace w' = trace w
    /\ _dirty (store w' entity) = ∅
    /\ (forall x, x <> entity -> _dirty (store w' x) = _dirty (store w x))
    /\ (forall x, _db (store w' x) = _db (store w x)).
Proof.
  eexists. split; [reflexivity |]. simpl.
  split; [done |]. split; [| split].
  - by rewrite fn_lookup_insert.
  - intros x Hx. by rewrite fn_lookup_insert_ne.
  - intros x. destruct (decide (x = entity)) as [->|].
    + by rewrite fn_lookup_insert.
    + by rewrite fn_lookup_insert_ne.
Qed.

Lemma dispatch_run entity h w :
  listeners_quiet ->
  exists w', dispatch entity h w = (Ok tt, w')
    /\ trace w' = (trace w ++ [EDispatch entity h])%list
    /\ (forall x, _dirty (store w' x) = _dirty (store w x))
    /\ (forall x, _db (store w' x) = _db (store w x)).
Proof.
  intros Hq. destruct (Hq h entity (store w)) as (s' & Hl & Hs).
  unfold dispatch. rewrite Hl. eexists. split; [reflexivity |]. simpl.
  split; [done |]. split; intros x; apply Hs.
Qed.

Lemma identity_written_refl entity w : identity_written entity w w.
Proof. by repeat split. Qed.

Lemma identity_written_trans entity w1 w2 w3 :
  identity_written entity w1 w2 -> identity_written entity w2 w3 ->
  identity_written entity w1 w3.
Proof.
  intros (Ht & Ho & Hd & Hb & Hc) (Ht' & Ho' & Hd' & Hb' & Hc').
  split_and!.
  - congruence.
  - intros x Hx. rewrite Ho', Ho; done.
  - set_solver.
  - congruence.
  - congruence.
Qed.

(** [setattr] marks the attribute dirty, so the [remove] that follows
    finds it. *)
Lemma set_identity_run entity name v w :
  exists w',
    (let* _ := setattr entity name v in dirty_remove entity name) w = (Ok tt, w')
    /\ identity_written entity w w'.
Proof.
  unfold setattr, dirty_remove, bind, get_entity, set_entity, ret. simpl.
  rewrite fn_lookup_insert. simpl.
  destruct (decide (name ∈ _)) as [Hin|Hout]; [| set_solver].
  eexists. split; [reflexivity |]. simpl.
  split; [done |]. split.
  { intros x Hx. simpl. by rewrite !fn_lookup_insert_ne. }
  simpl. rewrite !fn_lookup_insert. simpl. split; [set_solver | done].
Qed.

Lemma post_process_run entity result w :
  exists w',
    _entity_post_process entity result w = (Ok tt, w')
    /\ identity_written entity w w'.
Proof.
  unfold _entity_post_process. simpl.
  assert (Hstep : forall (k : string * string) w, exists w',
    match result !! k.2 with
    | None | Some VNone => ret tt
    | Some v => let* _ := setattr entity k.1 v in dirty_remove entity k.1
    end w = (Ok tt, w') /\ identity_written entity w w').
  { intros k w0. destruct (result !! k.2) as [[]|];
      try apply set_identity_run;
      (eexists; split; [reflexivity | apply identity_written_refl]). }
  destruct (Hstep ("key_", "_key") w) as (w1 & E1 & I1).
  destruct (Hstep ("rev_", "_rev") w1) as (w2 & E2 & I2).
  exists w2. split; [| by eapply identity_written_trans].
  unfold bind at 1. simpl in E1. rewrite E1.
  unfold bind at 1. simpl in E2. rewrite E2. done.
Qed.

(** *** Dirty-only update *)

Lemma update_noop entity w :
  _dirty (store w entity) = ∅ ->
  update entity true w
  = (Ok entity, record (ECollection (__collection__ (store w entity))) w).
Proof.
  intros Hd. unfold update, bind, get_entity, collection. simpl.
  by rewrite Hd.
Qed.

Lemma update_twice entity w r w1 :
  listeners_keep_dirty ->
  _dirty (store w entity) <> ∅ ->
  update entity true w = (Ok r, w1) ->
  (exists t, trace w1 = (trace w ++ t)%list
             /\ length (List.filter is_write t) = 1%nat)
  /\ update entity true w1
     = (Ok entity, record (ECollection (__collection__ (store w1 entity))) w1).
Proof.
  intros Hk Hd Hu.
  unfold update in Hu.
  apply bind_ok_inv in Hu as (e & wa & Ea & Hu). injection Ea as <- <-.
  apply bind_ok_inv in Hu as (c & wb & Eb & Hu). injection Eb as <- <-.
  rewrite (bool_decide_eq_false_2 _ Hd) in Hu. simpl andb in Hu. cbv iota in Hu.
  apply bind_ok_inv in Hu as ([] & wc & Ec & Hu).
  apply bind_ok_inv in Hu as (e1 & wd & Ed & Hu). injection Ed as <- <-.
  apply bind_ok_inv in Hu as ([] & we & Ee & Hu).
  apply bind_ok_inv in Hu as (res & wf & Ef & Hu).
  apply bind_ok_inv in Hu as ([] & wg & Eg & Hu).
  apply bind_ok_inv in Hu as ([] & wh & Eh & Hu).
  apply bind_ok_inv in Hu as ([] & wi & Ei & Hu).
  injection Hu as <- <-.
  apply dispatch_ok_inv in Ec as (s1 & L1 & Ec).
  destruct (attach_db_run entity wc) as (? & E & Te & _).
  rewrite E in Ee. injection Ee as ->. clear E.
  apply remote_ok_inv in Ef as (_ & _ & Ef).
  destruct (dirty_clear_run entity wf) as (? & E & Tg & Dg & _).
  rewrite E in Eg. injection Eg as ->. clear E.
  destruct (post_process_run entity res wg) as (? & E & Th & _ & Dh & _).
  rewrite E in Eh. injection Eh as ->. clear E.
  apply dispatch_ok_inv in Ei as (s2 & L2 & Ei).
  split.
  - eexists [_; _; _; _].
    rewrite Ei. simpl. rewrite Th, Tg, Ef. simpl. rewrite Te, Ec. simpl.
    split; [by rewrite <- !app_assoc |]. reflexivity.
  - apply update_noop. rewrite Ei. simpl.
    rewrite (Hk _ _ _ _ L2 entity). rewrite Dg in Dh. set_solver.
Qed.

(** C5. With [only_dirty] and an empty dirty set, [update] returns the
    entity and leaves every entity as it was; the only thing it does is
    build the collection handle: no hook, no request. And when a dirty
    entity is updated with [only_dirty] and the call returns, that call
    has made exactly one write, and the same call made again right after
    is the no-op just described. The listeners are assumed not to touch
    dirty sets: a [post_update] listener that did would be a mutation in
    between. *)
Theorem update_only_dirty_idempotent (entity : ref) (w : World) :
  (_dirty (store w entity) = ∅ ->
   update entity true w
   = (Ok entity, record (ECollection (__collection__ (store w entity))) w))
  /\ (forall r w1,
        listeners_keep_dirty ->
        _dirty (store w entity) <> ∅ ->
        update entity true w = (Ok r, w1) ->
        (exists t, trace w1 = (trace w ++ t)%list
                   /\ length (List.filter is_write t) = 1%nat)
        /\ update entity true w1
           = (Ok entity,
              record (ECollection (__collection__ (store w1 entity))) w1)).
Proof.
  split; [apply update_noop |].
  intros r w1. apply update_twice.
Qed.

(** *** The short circuit of the bulk calls *)

Lemma bulk_add_collect_stops entity_list collections w :
  listeners_quiet ->
  (exists e, e ∈ entity_list /\ _dirty (store w e) = ∅) ->
  exists r w',
    bulk_add_collect entity_list true collections w = (Ok (inl r), w')
    /\ stopped_at true entity_list w r w'.
Proof.
  intros Hq. revert collections w.
  induction entity_list as [|x rest IH]; intros collections w (e & He & Hde).
  { by apply elem_of_nil in He. }
  simpl.
  rewrite bind_get_entity, bind_collection.
  destruct (decide (_dirty (store w x) = ∅)) as [Hx|Hx].
  - simpl. rewrite (bool_decide_eq_true_2 _ Hx).
    eexists x, _. split; [reflexivity |].
    exists [], rest, [ECollection (__collection__ (store w x))].
    simpl. split_and!; try done.
    + by left.
    + by repeat constructor.
    + intros ? Hn. by apply elem_of_nil in Hn.
    + intros _. constructor.
  - simpl store. rewrite (bool_decide_eq_false_2 _ Hx). simpl andb. cbv iota.
    set (w0 := record _ w).
    destruct (dispatch_run x pre_update w0 Hq) as (w1 & E1 & T1 & D1 & B1).
    rewrite (bind_ok _ _ _ _ _ E1).
    rewrite bind_get_entity.
    destruct (attach_db_run x w1) as (w2 & E2 & T2 & D2 & B2 & B2').
    rewrite (bind_ok _ _ _ _ _ E2).
    destruct (dirty_clear_run x w2) as (w3 & E3 & T3 & D3 & D3' & B3).
    rewrite (bind_ok _ _ _ _ _ E3).
    assert (Hoth : forall y, y <> x -> _dirty (store w3 y) = _dirty (store w y)).
    { intros y Hy. by rewrite D3', D2, D1. }
    assert (He' : exists e, e ∈ rest /\ _dirty (store w3 e) = ∅).
    { exists e. apply elem_of_cons in He as [->|He]; [done |].
      split; [done |]. destruct (decide (e = x)) as [->|]; [done |].
      by rewrite Hoth. }
    edestruct IH as (r & w' & Er & Hs); [exact He' |].
    exists r, w'. split; [exact Er |].
    destruct Hs as (pre & post & t & -> & Hpre & Hr & Ht & Hw & Hp & Hd & Hb & Hn).
    assert (Hxpre : x ∉ pre).
    { intros Hin. by apply (proj1 (Forall_forall _ _) Hpre x Hin). }
    exists (x :: pre), post,
      ([ECollection (__collection__ (store w x)); EDispatch x pre_update] ++ t)%list.
    split_and!; [| | | | | | | | intros _; apply NoDup_cons; auto].
    + done.
    + constructor; [done |]. eapply Forall_impl; [exact Hpre |].
      intros y Hy. simpl in Hy |- *.
      destruct (decide (y = x)) as [->|]; [done |].
      by rewrite Hoth in Hy.
    + destruct (decide (r = x)) as [->|Hrx].
      * right. split; [done | by left].
      * destruct Hr as [Hr | [_ Hr]].
        -- left. by rewrite Hoth in Hr.
        -- right. split; [done | by right].
    + rewrite Ht, T3, T2, T1. unfold w0. simpl. by rewrite <- !app_assoc.
    + by repeat constructor.
    + intros y Hy. apply elem_of_cons in Hy as [->|Hy].
      * split; [set_solver |]. apply Hb. by rewrite B3.
      * destruct (Hp y Hy) as (? & ?). split; [set_solver | done].
    + intros y. rewrite Hd. simpl.
      destruct (decide (y = x)) as [->|Hyx].
      * rewrite (bool_decide_eq_true_2 (x ∈ x :: pre)) by (by left).
        rewrite D3. by destruct (bool_decide _).
      * rewrite Hoth by done.
        destruct (decide (y ∈ pre)).
        -- rewrite !bool_decide_eq_true_2; [done | by right | done].
        -- rewrite !bool_decide_eq_false_2; [done | | done].
           by intros [->|?]%elem_of_cons.
    + intros y Hy. apply Hb. rewrite B3.
      destruct (decide (y = x)) as [->|Hyx]; [done |].
      by rewrite B2', B1.
Qed.

Lemma bulk_update_collect_stops entity_list collections w :
  listeners_quiet ->
  (exists e, e ∈ entity_list /\ _dirty (store w e) = ∅) ->
  exists r w',
    bulk_update_collect entity_list true collections w = (Ok (inl r), w')
    /\ stopped_at false entity_list w r w'.
Proof.
  intros Hq. revert collections w.
  induction entity_list as [|x rest IH]; intros collections w (e & He & Hde).
  { by apply elem_of_nil in He. }
  simpl.
  rewrite bind_get_entity, bind_collection.
  destruct (decide (_dirty (store w x) = ∅)) as [Hx|Hx].
  - simpl. rewrite (bool_decide_eq_true_2 _ Hx).
    eexists x, _. split; [reflexivity |].
    exists [], rest, [ECollection (__collection__ (store w x))].
    simpl. split_and!; try done.
    + by left.
    + by repeat constructor.
    + intros ? Hn. by apply elem_of_nil in Hn.
  - simpl store. rewrite (bool_decide_eq_false_2 _ Hx). simpl andb. cbv iota.
    set (w0 := record _ w).
    destruct (dispatch_run x pre_update w0 Hq) as (w1 & E1 & T1 & D1 & B1).
    rewrite (bind_ok _ _ _ _ _ E1).
    rewrite bind_get_entity.
    destruct (attach_db_run x w1) as (w2 & E2 & T2 & D2 & B2 & B2').
    rewrite (bind_ok _ _ _ _ _ E2).
    assert (Hsame : forall y, _dirty (store w2 y) = _dirty (store w y)).
    { intros y. by rewrite D2, D1. }
    assert (He' : exists e, e ∈ rest /\ _dirty (store w2 e) = ∅).
    { exists e. apply elem_of_cons in He as [->|He]; [done |].
      split; [done |]. by rewrite Hsame. }
    edestruct IH as (r & w' & Er & Hs); [exact He' |].
    exists r, w'. split; [exact Er |].
    destruct Hs as (pre & post & t & -> & Hpre & Hr & Ht & Hw & Hp & Hd & Hb & _).
    exists (x :: pre), post,
      ([ECollection (__collection__ (store w x)); EDispatch x pre_update] ++ t)%list.
    split_and!; [| | | | | | | | done].
    + done.
    + constructor; [done |]. eapply Forall_impl; [exact Hpre |].
      intros y Hy. simpl in Hy |- *. by rewrite Hsame in Hy.
    + destruct Hr as [Hr | [? _]]; [| done]. left. by rewrite Hsame in Hr.
    + rewrite Ht, T2, T1. unfold w0. simpl. by rewrite <- !app_assoc.
    + by repeat constructor.
    + intros y Hy. apply elem_of_cons in Hy as [->|Hy].
      * split; [set_solver |]. by apply Hb.
      * destruct (Hp y Hy) as (? & ?). split; [set_solver | done].
    + intros y. rewrite Hd. simpl. apply Hsame.
    + intros y Hy. apply Hb.
      destruct (decide (y = x)) as [->|Hyx]; [done |].
      by rewrite B2', B1.
Qed.


(** C10. When a bulk call with [only_dirty] stops at the first entity it
    finds with an empty dirty set, the entities before it in the list have
    been processed for good: for each of them [pre_update] was dispatched
    and [_db] is set, and [bulk_add] has emptied its dirty set while
    [bulk_update] has left it as it was; yet nothing was sent to the
    server. The listeners are assumed to return and to leave [_dirty] and
    [_db] alone. *)
Theorem bulk_short_circuit_not_atomic (entity_list : list ref) (w : World) :
  listeners_quiet ->
  (exists e, e ∈ entity_list /\ _dirty (store w e) = ∅) ->
  (exists pre r post w' t,
      entity_list = (pre ++ r :: post)%list
      /\ (_dirty (store w r) = ∅ \/ r ∈ pre)
      /\ bulk_add entity_list true w = (Ok (ReturnedEntity r), w')
      /\ trace w' = (trace w ++ t)%list
      /\ Forall (fun ev => is_remote ev = false) t
      /\ forall x, x ∈ pre ->
           _dirty (store w x) <> ∅
           /\ EDispatch x pre_update ∈ t
           /\ _db (store w' x) = true
           /\ _dirty (store w' x) = ∅)
  /\ (exists pre r post w' t,
      entity_list = (pre ++ r :: post)%list
      /\ _dirty (store w r) = ∅
      /\ bulk_update entity_list true w = (Ok (ReturnedEntity r), w')
      /\ trace w' = (trace w ++ t)%list
      /\ Forall (fun ev => is_remote ev = false) t
      /\ forall x, x ∈ pre ->
           _dirty (store w x) <> ∅
           /\ EDispatch x pre_update ∈ t
           /\ _db (store w' x) = true
           /\ _dirty (store w' x) = _dirty (store w x)).
Proof.
  intros Hq He. split.
  - destruct (bulk_add_collect_stops entity_list [] w Hq He)
      as (r & w' & Er & pre & post & t & Hl & Hpre & Hr & Ht & Hw & Hp & Hd & _ & _).
    exists pre, r, post, w', t. split_and!; try done.
    + destruct Hr as [? | [_ ?]]; auto.
    + unfold bulk_add. by rewrite (bind_ok _ _ _ _ _ Er).
    + intros x Hx. destruct (Hp x Hx) as (? & ?). split_and!; try done.
      * by apply (proj1 (Forall_forall _ _) Hpre).
      * rewrite Hd. simpl. by rewrite bool_decide_eq_true_2.
  - destruct (bulk_update_collect_stops entity_list [] w Hq He)
      as (r & w' & Er & pre & post & t & Hl & Hpre & Hr & Ht & Hw & Hp & Hd & _ & _).
    exists pre, r, post, w', t. split_and!; try done.
    + by destruct Hr as [? | [? _]].
    + unfold bulk_update. by rewrite (bind_ok _ _ _ _ _ Er).
    + intros x Hx. destruct (Hp x Hx) as (? & ?). split_and!; try done.
      by apply (proj1 (Forall_forall _ _) Hpre).
Qed.

Ltac emits_prim :=
  first [ apply emits_get_entity | apply emits_set_entity
        | apply emits_attach_db | apply emits_dirty_clear
        | apply emits_post_process
        | apply emits_collection; done
        | apply emits_dispatch; done
        | apply emits_log; done ].

Ltac emits_step := eapply emits_bind; [emits_prim | intros ? _].

(** *** What the calls send *)

Lemma update_payload_clean (entity : ref) (only_dirty : bool) :
  emits payload_clean (fun _ => True) (update entity only_dirty).
Proof.
  unfold update. do 2 emits_step.
  destruct (only_dirty && _); [by apply emits_ret |].
  do 3 emits_step.
  eapply emits_bind with (R := fun _ => True);
    [apply emits_remote; [apply pre_process_clean | done] | intros res _].
  do 3 emits_step. by apply emits_ret.
Qed.

Lemma add_insert_payload_clean (entity : ref) :
  emits payload_clean (fun _ => True) (add_insert entity).
Proof.
  unfold add_insert. do 5 emits_step.
  eapply emits_bind with (R := fun _ => True);
    [apply emits_remote; [apply pre_process_clean | done] | intros res _].
  do 3 emits_step. by apply emits_ret.
Qed.

Lemma add_payload_clean (entity : ref) (if_present : PyVal) :
  emits payload_clean (fun _ => True) (add entity if_present).
Proof.
  unfold add. destruct (negb _); [apply emits_raise |].
  emits_step.
  destruct (truthy if_present && _); [| apply add_insert_payload_clean].
  eapply emits_bind with (R := fun _ => True).
  - unfold exists_. do 2 emits_step. by apply emits_remote.
  - intros [] _; [| apply add_insert_payload_clean].
    destruct (decide _).
    + emits_step. by apply emits_ret.
    + destruct (decide _);
        [apply update_payload_clean | apply add_insert_payload_clean].
Qed.

(** The bulk calls, for any property [P] of calls that holds of what
    they dispatch and of a batch of payloads satisfying [Q]. *)
Section Bulk.
Context (P : Event -> Prop) (Q : Doc -> Prop).
Hypothesis P_collection : forall name, P (ECollection name).
Hypothesis P_pre_update : forall x, P (EDispatch x pre_update).
Hypothesis P_post_add : forall x, P (EDispatch x post_add).
Hypothesis P_post_update : forall x, P (EDispatch x post_update).
Hypothesis P_insert_many : forall n ds, Forall Q ds -> P (EInsertMany n ds).
Hypothesis P_update_many : forall n ds, Forall Q ds -> P (EUpdateMany n ds).
Hypothesis Q_pre_process : forall d, Q (_entity_pre_process d).

Lemma file_entity_filed collections name model entity data :
  filed Q collections -> Q data ->
  filed Q (file_entity collections name model entity data).
Proof.
  intros Hc Hd. apply dict_set_Forall; [done |]. simpl.
  apply Forall_app. split; [| by apply Forall_singleton].
  destruct (dict_get collections name) as [cd|] eqn:E; [| constructor].
  apply dict_get_elem in E.
  by apply (proj1 (Forall_forall _ _) Hc (name, cd)).
Qed.

Lemma bulk_add_collect_emits entity_list only_dirty collections :
  filed Q collections ->
  emits P (fun r => match r with inl _ => True | inr c => filed Q c end)
        (bulk_add_collect entity_list only_dirty collections).
Proof.
  revert collections.
  induction entity_list as [|entity rest IH]; intros collections Hc; simpl.
  - by apply emits_ret.
  - do 2 emits_step.
    destruct (only_dirty && _); [by apply emits_ret |].
    do 4 emits_step.
    by apply IH, file_entity_filed.
Qed.

Lemma bulk_update_collect_emits entity_list only_dirty collections :
  filed Q collections ->
  emits P (fun r => match r with inl _ => True | inr c => filed Q c end)
        (bulk_update_collect entity_list only_dirty collections).
Proof.
  revert collections.
  induction entity_list as [|entity rest IH]; intros collections Hc; simpl.
  - by apply emits_ret.
  - do 2 emits_step.
    destruct (only_dirty && _); [by apply emits_ret |].
    do 3 emits_step.
    by apply IH, file_entity_filed.
Qed.

Lemma bulk_post_emits post entity_obj_list res num :
  (forall x, P (EDispatch x post)) ->
  emits P (fun _ => True) (bulk_post post entity_obj_list res num).
Proof.
  intros HP. revert num.
  induction entity_obj_list as [|entity rest IH]; intros num; simpl.
  - by apply emits_ret.
  - emits_step.
    eapply emits_bind with (R := fun _ => True).
    + destruct (res !! num); [apply emits_post_process | apply emits_raise].
    + intros _ _.
      eapply emits_bind; [apply emits_dispatch, HP | intros ? _]. apply IH.
Qed.

Lemma bulk_add_emits entity_list only_dirty :
  emits P (fun _ => True) (bulk_add entity_list only_dirty).
Proof.
  unfold bulk_add.
  eapply emits_bind; [by apply bulk_add_collect_emits; constructor |].
  intros [entity | collections] Hc; [by apply emits_ret |].
  eapply emits_bind with (R := fun _ => True); [| by intros; apply emits_ret].
  apply emits_for_each. intros [name data] Hin.
  eapply emits_bind with (R := fun _ => True).
  - apply emits_remote; [| done]. apply P_insert_many. simpl.
    by apply (proj1 (Forall_forall _ _) Hc (name, data)).
  - intros res _. by apply bulk_post_emits.
Qed.

Lemma bulk_update_emits entity_list only_dirty :
  emits P (fun _ => True) (bulk_update entity_list only_dirty).
Proof.
  unfold bulk_update.
  eapply emits_bind; [by apply bulk_update_collect_emits; constructor |].
  intros [entity | collections] Hc; [by apply emits_ret |].
  eapply emits_bind with (R := fun _ => True); [| by intros; apply emits_ret].
  apply emits_for_each. intros [name data] Hin.
  eapply emits_bind with (R := fun _ => True).
  - apply emits_remote; [| done]. apply P_update_many. simpl.
    by apply (proj1 (Forall_forall _ _) Hc (name, data)).
  - intros res _. by apply bulk_post_emits.
Qed.
End Bulk.

(** C6. Whatever the entity, the serializer, the listeners and the
    client, every payload that [add], [update], [bulk_add] and
    [bulk_update] hand to python-arango has passed
    [_entity_pre_process]: it holds no [_key] and no [_rev] bound to
    [None]. *)
Theorem null_identity_never_sent (w : World) :
  (forall entity if_present, exists t,
      trace (add entity if_present w).2 = (trace w ++ t)%list
      /\ Forall payload_clean t)
  /\ (forall entity only_dirty, exists t,
      trace (update entity only_dirty w).2 = (trace w ++ t)%list
      /\ Forall payload_clean t)
  /\ (forall entity_list only_dirty, exists t,
      trace (bulk_add entity_list only_dirty w).2 = (trace w ++ t)%list
      /\ Forall payload_clean t)
  /\ (forall entity_list only_dirty, exists t,
      trace (bulk_update entity_list only_dirty w).2 = (trace w ++ t)%list
      /\ Forall payload_clean t).
Proof.
  split_and!.
  - intros e ip. destruct (add_payload_clean e ip w) as (t & ? & ? & _). eauto.
  - intros e od. destruct (update_payload_clean e od w) as (t & ? & ? & _). eauto.
  - intros l od.
    destruct (bulk_add_emits payload_clean doc_clean) with (w := w)
      (entity_list := l) (only_dirty := od) as (t & ? & ? & _);
      eauto using pre_process_clean; done.
  - intros l od.
    destruct (bulk_update_emits payload_clean doc_clean) with (w := w)
      (entity_list := l) (only_dirty := od) as (t & ? & ? & _);
      eauto using pre_process_clean; done.
Qed.

(** [bulk_add] never dispatches [pre_add]. *)
Lemma bulk_add_not_pre_add entity_list only_dirty w :
  exists t,
    trace (bulk_add entity_list only_dirty w).2 = (trace w ++ t)%list
    /\ Forall not_pre_add t.
Proof.
  destruct (bulk_add_emits not_pre_add (fun _ => True)) with (w := w)
    (entity_list := entity_list) (only_dirty := only_dirty)
    as (t & ? & ? & _); eauto; done.
Qed.

(** The single-entity path dispatches [pre_add] before anything else. *)
Lemma add_pre_add_first entity w :
  exists t,
    trace (add entity VNone w).2 = (trace w ++ EDispatch entity pre_add :: t)%list.
Proof.
  unfold add. simpl. rewrite bind_get_entity. simpl.
  unfold add_insert. rewrite bind_get_entity.
  unfold bind at 1. unfold dispatch at 1.
  destruct (listener pre_add entity (store w)) as [s'|]; [| by exists []].
  match goal with
  | |- context [trace (?m ?w0).2] =>
      assert (Hm : emits (fun _ => True) (fun _ => True) m)
  end.
  { do 3 emits_step.
    eapply emits_bind with (R := fun _ => True); [by apply emits_remote |].
    intros res _. do 3 emits_step. by apply emits_ret. }
  match goal with
  | |- context [trace (?m ?w0).2] => destruct (Hm w0) as (t & Ht & _)
  end.
  exists t. rewrite Ht. simpl. by rewrite <- app_assoc.
Qed.

(** *** The groups and the batched calls of [bulk_add] *)

Lemma grouped_nil coll : grouped coll [] [].
Proof.
  split_and!.
  - constructor.
  - intros name. split.
    + intros Hin. by apply elem_of_nil in Hin.
    + intros (e & Hin & _). by apply elem_of_nil in Hin.
  - intros name cd Hin. by apply elem_of_nil in Hin.
Qed.

Lemma grouped_file coll processed collections e data :
  grouped coll processed collections ->
  grouped coll (processed ++ [e])
          (file_entity collections (coll e) (coll e) e data).
Proof.
  intros (Hnd & Hkeys & Hgroups). unfold file_entity.
  set (k := coll e).
  set (v := {| entity_dict_list := _; entity_obj_list := _; collection_model := k |}).
  assert (Hnd' : NoDup (map fst (dict_set collections k v)))
    by by apply dict_set_NoDup.
  split_and!; [done | |].
  - intros name. rewrite dict_set_keys.
    assert (Hk : name ∈ (if decide (k ∈ map fst collections)
                         then map fst collections
                         else (map fst collections ++ [k])%list)
                 <-> name ∈ map fst collections \/ name = k).
    { destruct (decide (k ∈ map fst collections)).
      - split; [by left | intros [?| ->]; done].
      - rewrite elem_of_app, list_elem_of_singleton. done. }
    rewrite Hk, Hkeys. split.
    + intros [(x & Hx & Hc) | ->].
      * exists x. split; [apply elem_of_app; by left | done].
      * exists e. split; [| done]. apply elem_of_app. right. by left.
    + intros (x & [Hx | ->%list_elem_of_singleton]%elem_of_app & Hc); eauto.
  - intros name cd Hin.
    apply (dict_elem_get _ _ _ Hnd') in Hin.
    rewrite dict_set_get in Hin.
    rewrite List.filter_app. simpl.
    destruct (decide (k = name)) as [<-|Hne].
    + injection Hin as <-. simpl.
      rewrite (bool_decide_eq_true_2 (coll e = k)) by done.
      destruct (dict_get collections k) as [old|] eqn:Eold.
      * apply dict_get_elem, Hgroups in Eold as (Ho & Hl & _).
        rewrite Ho. split; [done |]. split; [| done].
        rewrite !length_app, Hl, Ho. done.
      * apply dict_get_None in Eold.
        assert (Hnone : List.filter (fun e0 => bool_decide (coll e0 = k)) processed = []).
        { destruct (List.filter _ processed) as [|x l] eqn:Ef; [done |].
          exfalso. apply Eold, Hkeys. exists x.
          assert (Hx : In x (List.filter (fun e0 => bool_decide (coll e0 = k)) processed))
            by (rewrite Ef; by left).
          apply filter_In in Hx as [Hx Hb].
          split; [by apply list_elem_of_In | by apply bool_decide_eq_true in Hb]. }
        rewrite Hnone. done.
    + apply dict_get_elem, Hgroups in Hin as (Ho & Hl & Hm).
      rewrite (bool_decide_eq_false_2 (coll e = name)) by done.
      rewrite app_nil_r. done.
Qed.

Lemma attach_db_collection entity w :
  forall x, __collection__ (store (attach_db entity w).2 x)
            = __collection__ (store w x).
Proof.
  intros x. simpl. destruct (decide (x = entity)) as [->|].
  - by rewrite fn_lookup_insert.
  - by rewrite fn_lookup_insert_ne.
Qed.

Lemma dirty_clear_collection entity w :
  forall x, __collection__ (store (dirty_clear entity w).2 x)
            = __collection__ (store w x).
Proof.
  intros x. simpl. destruct (decide (x = entity)) as [->|].
  - by rewrite fn_lookup_insert.
  - by rewrite fn_lookup_insert_ne.
Qed.

Lemma bulk_add_collect_grouped coll entity_list only_dirty :
  listeners_keep_collection ->
  forall processed collections w collections' w',
    (forall x, __collection__ (store w x) = coll x) ->
    grouped coll processed collections ->
    bulk_add_collect entity_list only_dirty collections w
    = (Ok (inr collections'), w') ->
    grouped coll (processed ++ entity_list) collections'
    /\ (forall x, __collection__ (store w' x) = coll x)
    /\ exists t, trace w' = (trace w ++ t)%list
                 /\ Forall (fun ev => is_batch ev = false) t.
Proof.
  intros Hk.
  induction entity_list as [|e rest IH];
    intros processed collections w collections' w' Hcoll Hg Hrun.
  - injection Hrun as <- <-. rewrite app_nil_r.
    split; [done |]. split; [done |]. exists []. by rewrite app_nil_r.
  - simpl in Hrun. rewrite bind_get_entity, bind_collection in Hrun.
    destruct (only_dirty && _); [done |].
    apply bind_ok_inv in Hrun as ([] & w1 & E1 & Hrun).
    apply dispatch_ok_inv in E1 as (s1 & L1 & ->).
    rewrite bind_get_entity in Hrun.
    apply bind_ok_inv in Hrun as ([] & w2 & E2 & Hrun).
    apply bind_ok_inv in Hrun as ([] & w3 & E3 & Hrun).
    assert (H1 : forall x, __collection__ (s1 x) = coll x).
    { intros x. rewrite (Hk _ _ _ _ L1 x). apply Hcoll. }
    assert (H2 : forall x, __collection__ (store w2 x) = coll x).
    { intros x. pose proof (attach_db_collection e
        {| store := s1; trace := (trace (record (ECollection (__collection__ (store w e))) w)
                                  ++ [EDispatch e pre_update])%list |} x) as Ha.
      rewrite E2 in Ha. simpl in Ha. rewrite Ha. apply H1. }
    assert (H3 : forall x, __collection__ (store w3 x) = coll x).
    { intros x. pose proof (dirty_clear_collection e w2 x) as Ha.
      rewrite E3 in Ha. simpl in Ha. rewrite Ha. apply H2. }
    simpl store in Hrun. rewrite H1, Hcoll in Hrun.
    eapply IH in Hrun as (Hg' & Hc' & t & Ht & Hb);
      [| exact H3 | by apply grouped_file].
    rewrite <- app_assoc in Hg'. split; [exact Hg' |]. split; [done |].
    assert (T2 : trace w2 = (trace w ++ [ECollection (__collection__ (store w e));
                                         EDispatch e pre_update])%list).
    { injection E2 as <-. simpl. by rewrite <- app_assoc. }
    assert (T3 : trace w3 = trace w2) by (by injection E3 as <-).
    exists ([ECollection (__collection__ (store w e)); EDispatch e pre_update] ++ t)%list.
    split.
    + rewrite Ht, T3, T2. by rewrite <- app_assoc.
    + apply Forall_app. split; [by repeat constructor | done].
Qed.

Lemma filter_batch_none (t : list Event) :
  Forall (fun ev => is_batch ev = false) t -> List.filter is_batch t = [].
Proof.
  induction 1 as [|ev t Hev _ IH]; [done |]. simpl. by rewrite Hev.
Qed.

Lemma bulk_post_no_batch post entity_obj_list res num :
  emits (fun ev => is_batch ev = false) (fun _ => True)
        (bulk_post post entity_obj_list res num).
Proof.
  revert num. induction entity_obj_list as [|entity rest IH]; intros num; simpl.
  - by apply emits_ret.
  - eapply emits_bind; [apply emits_dirty_clear | intros ? _].
    eapply emits_bind with (R := fun _ => True).
    + destruct (res !! num); [apply emits_post_process | apply emits_raise].
    + intros _ _.
      eapply emits_bind; [by apply emits_dispatch | intros ? _]. apply IH.
Qed.

(** The second loop of [bulk_add]: one batched insert per key, in the
    order of the keys. *)
Lemma bulk_add_send_batches (collections : list (string * CollectionDict)) w w' :
  for_each collections
    (fun item =>
       let data := item.2 in
       let* res :=
         remote (EInsertMany (collection_model data) (entity_dict_list data))
                (fun h => insert_many_reply h (collection_model data)
                                            (entity_dict_list data)) in
       bulk_post post_add (entity_obj_list data) res 0) w
  = (Ok tt, w') ->
  exists t,
    trace w' = (trace w ++ t)%list
    /\ List.filter is_batch t
       = map (fun item => EInsertMany (collection_model item.2)
                                      (entity_dict_list item.2)) collections.
Proof.
  revert w. induction collections as [|[name data] rest IH]; intros w Hrun.
  - injection Hrun as <-. exists []. by rewrite app_nil_r.
  - simpl in Hrun.
    apply bind_ok_inv in Hrun as ([] & w2 & E & Hrun).
    apply bind_ok_inv in E as (res & w1 & E1 & E2).
    apply remote_ok_inv in E1 as (_ & -> & ->).
    destruct (bulk_post_no_batch post_add (entity_obj_list data)
                (insert_many_reply (trace w) (collection_model data)
                                   (entity_dict_list data)) 0
                (record (EInsertMany (collection_model data)
                                     (entity_dict_list data)) w))
      as (tp & Tp & Pp & _).
    rewrite E2 in Tp. simpl in Tp.
    apply IH in Hrun as (t & Ht & Hf).
    exists (EInsertMany (collection_model data) (entity_dict_list data)
            :: tp ++ t)%list.
    split.
    + rewrite Ht, Tp. by rewrite <- !app_assoc.
    + simpl. rewrite List.filter_app, (filter_batch_none _ Pp), Hf. done.
Qed.

(** When [bulk_add] returns the mapping: its keys are the collections of
    the input, each once, in order of first occurrence; under each key
    are the entities of that collection in input order, with one payload
    each; and the batched calls of the trace are one [insert_many] per
    key, sent to the collection of the key with the payloads of the
    group. *)
Lemma bulk_add_batches entity_list only_dirty w collections w' :
  listeners_keep_collection ->
  bulk_add entity_list only_dirty w = (Ok (ReturnedCollections collections), w') ->
  grouped (fun e => __collection__ (store w e)) entity_list collections
  /\ exists t,
      trace w' = (trace w ++ t)%list
      /\ List.filter is_batch t
         = map (fun item => EInsertMany item.1 (entity_dict_list item.2))
               collections.
Proof.
  intros Hk Hrun. unfold bulk_add in Hrun.
  apply bind_ok_inv in Hrun as (collected & w1 & E1 & Hrun).
  destruct collected as [entity | cols]; [done |].
  apply bind_ok_inv in Hrun as ([] & w2 & E2 & Hrun).
  injection Hrun as <- <-.
  eapply (bulk_add_collect_grouped (fun e => __collection__ (store w e))
            _ _ Hk []) in E1 as (Hg & _ & t1 & T1 & P1);
    [| done | apply grouped_nil].
  simpl in Hg. split; [done |].
  apply bulk_add_send_batches in E2 as (t2 & T2 & F2).
  exists (t1 ++ t2)%list. split.
  - rewrite T2, T1. by rewrite <- app_assoc.
  - rewrite List.filter_app, (filter_batch_none _ P1), F2. simpl.
    apply map_ext_in. intros [name cd] Hin. simpl.
    destruct Hg as (_ & _ & Hgroups).
    apply list_elem_of_In, Hgroups in Hin as (_ & _ & ->). done.
Qed.

End PersisterFacts.

(** ** Comparing edge definitions *)

Section SameEdge.
Import Database.

Lemma forallb_elem (l1 l2 : list string) :
  forallb (fun c => bool_decide (c ∈ l2)) l1 = true <-> l1 ⊆ l2.
Proof.
  rewrite forallb_forall. split.
  - intros Hf x Hx. apply list_elem_of_In in Hx.
    by apply Hf, bool_decide_eq_true in Hx.
  - intros Hs x Hx. apply bool_decide_eq_true, Hs. by apply list_elem_of_In.
Qed.

(** Lists of equal length without duplicates, one included in the other,
    have the same elements. *)
Lemma incl_same_length (l1 l2 : list string) :
  NoDup l1 -> length l1 = length l2 -> l1 ⊆ l2 -> l2 ⊆ l1.
Proof.
  intros Hnd Hlen Hsub x Hx.
  assert (Hincl : incl l2 l1).
  { apply NoDup_length_incl.
    - by apply NoDup_ListNoDup.
    - lia.
    - intros y Hy. apply list_elem_of_In, Hsub. by apply list_elem_of_In. }
  by apply list_elem_of_In, Hincl, list_elem_of_In.
Qed.

Lemma same_set_length (l1 l2 : list string) :
  NoDup l1 -> NoDup l2 ->
  list_to_set l1 =@{gset string} list_to_set l2 -> length l1 = length l2.
Proof.
  intros H1 H2 Heq.
  apply Permutation_length, NoDup_Permutation; [done.. |].
  intros x. by rewrite <- !(elem_of_list_to_set (C := gset string)), Heq.
Qed.

Lemma is_same_edge_total (e1 e2 : EdgeDef) :
  edge_collection e1 = edge_collection e2 ->
  exists same, _is_same_edge e1 e2 = Ok same.
Proof.
  intros Hn. unfold _is_same_edge. rewrite bool_decide_eq_true_2 by done.
  simpl. repeat destruct (negb _ || negb _); repeat destruct (negb _); eauto.
Qed.

(** The guard of lines 534-537: lists of different lengths are never the
    same. *)
Lemma is_same_edge_lengths (e1 e2 : EdgeDef) :
  _is_same_edge e1 e2 = Ok true ->
  length (from_vertex_collections e1) = length (from_vertex_collections e2)
  /\ length (to_vertex_collections e1) = length (to_vertex_collections e2).
Proof.
  unfold _is_same_edge. destruct (negb (bool_decide _)); [done |].
  destruct (Nat.eqb_spec (length (to_vertex_collections e1))
                         (length (to_vertex_collections e2))); [| done].
  destruct (Nat.eqb_spec (length (from_vertex_collections e1))
                         (length (from_vertex_collections e2))); done.
Qed.

Lemma is_same_edge_equivalent (e1 e2 : EdgeDef) :
  NoDup (from_vertex_collections e1) -> NoDup (to_vertex_collections e1) ->
  NoDup (from_vertex_collections e2) -> NoDup (to_vertex_collections e2) ->
  _is_same_edge e1 e2 = Ok true <-> equivalent e1 e2.
Proof.
  intros Hf1 Ht1 Hf2 Ht2. unfold _is_same_edge, equivalent.
  destruct (decide (edge_collection e1 = edge_collection e2)) as [Hn|Hn].
  2:{ rewrite bool_decide_eq_false_2 by done. simpl. naive_solver. }
  rewrite bool_decide_eq_true_2 by done. simpl.
  destruct (Nat.eqb_spec (length (to_vertex_collections e1))
                         (length (to_vertex_collections e2))) as [Lt|Lt]; simpl.
  2:{ split; [done |]. intros (_ & _ & Ht). by apply same_set_length in Ht. }
  destruct (Nat.eqb_spec (length (from_vertex_collections e1))
                         (length (from_vertex_collections e2))) as [Lf|Lf]; simpl.
  2:{ split; [done |]. intros (_ & Hf & _). by apply same_set_length in Hf. }
  destruct (forallb _ (to_vertex_collections e1)) eqn:Et; simpl.
  2:{ split; [done |]. intros (_ & _ & Ht).
      assert (to_vertex_collections e1 ⊆ to_vertex_collections e2) as Hs.
      { intros x Hx. apply (elem_of_list_to_set (C := gset string)).
        rewrite <- Ht. by apply elem_of_list_to_set. }
      apply forallb_elem in Hs. congruence. }
  destruct (forallb _ (from_vertex_collections e1)) eqn:Ef; simpl.
  2:{ split; [done |]. intros (_ & Hf & _).
      assert (from_vertex_collections e1 ⊆ from_vertex_collections e2) as Hs.
      { intros x Hx. apply (elem_of_list_to_set (C := gset string)).
        rewrite <- Hf. by apply elem_of_list_to_set. }
      apply forallb_elem in Hs. congruence. }
  apply forallb_elem in Et, Ef.
  split; [intros _ | done]. split_and!; [done | |].
  - apply set_eq. intros x. rewrite !elem_of_list_to_set.
    split; [apply Ef | by apply incl_same_length].
  - apply set_eq. intros x. rewrite !elem_of_list_to_set.
    split; [apply Et | by apply incl_same_length].
Qed.
End SameEdge.

(** ** Counting calls *)

Section Counting.
Context {X : Type} (p : Event -> bool) (calls : X -> list Event).

Lemma filter_concat_none (xs : list X) :
  (forall y, y ∈ xs -> List.filter p (calls y) = []) ->
  List.filter p (concat (map calls xs)) = [].
Proof.
  induction xs as [|y xs IH]; intros Hn; simpl; [done |].
  rewrite List.filter_app, Hn, IH; [done | | by left].
  intros z Hz. apply Hn. by right.
Qed.

(** Among items with distinct keys, only the item with the key looked for
    contributes. *)
Lemma filter_concat_unique (key : X -> string) (xs : list X) (x : X) :
  NoDup (map key xs) -> x ∈ xs ->
  (forall y, key y <> key x -> List.filter p (calls y) = []) ->
  List.filter p (concat (map calls xs)) = List.filter p (calls x).
Proof.
  intros Hnd Hx Hoth.
  induction xs as [|y xs IH]; [by apply elem_of_nil in Hx |].
  simpl in Hnd. apply NoDup_cons in Hnd as [Hy Hnd].
  simpl. rewrite List.filter_app.
  apply elem_of_cons in Hx as [->|Hx].
  - rewrite filter_concat_none, app_nil_r; [done |].
    intros z Hz. apply Hoth. intros Heq. apply Hy.
    rewrite <- Heq. apply elem_of_map. eauto.
  - rewrite IH by done. rewrite Hoth; [done |].
    intros Heq. apply Hy. rewrite Heq. apply elem_of_map. eauto.
Qed.
End Counting.

(** ** The synchronizer *)

Section SynchronizerFacts.
Context {EM : EntityModel} {LS : Listeners} {CL : Client}.
Import Database.

Lemma bind_run {A B} (m : M A) (f : A -> M B) w b :
  (bind m f w).1 = Ok b ->
  exists a, (m w).1 = Ok a
    /\ (f a (m w).2).1 = Ok b
    /\ (bind m f w).2 = (f a (m w).2).2.
Proof.
  unfold bind. destruct (m w) as [[a|x] w1]; simpl; [eauto | done].
Qed.

Lemma for_each_ok_trace {X} (xs : list X) (body : X -> M unit)
    (calls : X -> list Event) w :
  (forall x w, x ∈ xs -> (body x w).1 = Ok tt ->
               trace (body x w).2 = (trace w ++ calls x)%list) ->
  (for_each xs body w).1 = Ok tt ->
  trace (for_each xs body w).2 = (trace w ++ concat (map calls xs))%list.
Proof.
  revert w. induction xs as [|x xs IH]; intros w Hb Hr; simpl.
  - by rewrite app_nil_r.
  - simpl in Hr. apply bind_run in Hr as ([] & E1 & E2 & ->).
    rewrite IH; [| by intros; apply Hb; [right |] | done].
    rewrite Hb; [| by left | done]. by rewrite app_assoc.
Qed.

Lemma bind_ret_l {A B} (a : A) (f : A -> M B) w : bind (ret a) f w = f a w.
Proof. reflexivity. Qed.

Lemma for_each_ok_each {X} (xs : list X) (body : X -> M unit) w x :
  (for_each xs body w).1 = Ok tt -> x ∈ xs ->
  exists w0, (body x w0).1 = Ok tt.
Proof.
  revert w. induction xs as [|y xs IH]; intros w Hr Hx.
  - by apply elem_of_nil in Hx.
  - simpl in Hr. apply bind_run in Hr as ([] & E1 & E2 & _).
    apply elem_of_cons in Hx as [->|Hx]; eauto.
Qed.

Lemma sync_relation_ok_lookups g existing item w :
  (sync_relation g existing item w).1 = Ok tt ->
  is_Some (edge_cols_from g !! item.1) /\ is_Some (edge_cols_to g !! item.1).
Proof.
  unfold sync_relation, getitem.
  destruct (edge_cols_from g !! item.1); [| done].
  destruct (edge_cols_to g !! item.1); [| done]. eauto.
Qed.

Lemma sync_relation_trace g existing item w :
  (sync_relation g existing item w).1 = Ok tt ->
  trace (sync_relation g existing item w).2
  = (trace w ++ relation_calls g existing item)%list.
Proof.
  unfold sync_relation, relation_calls, getitem.
  destruct (edge_cols_from g !! item.1) as [cols_from|]; [| done].
  destruct (edge_cols_to g !! item.1) as [cols_to|]; [| done].
  rewrite !bind_ret_l. cbv zeta.
  destruct (dict_get existing _) as [live|].
  - unfold bind at 1 3.
    destruct (_is_same_edge _ live) as [[]|x]; simpl; [| | done].
    + intros _. by rewrite app_nil_r.
    + unfold bind, log, remote. simpl.
      destruct (client_ok _ _); [| done]. simpl. intros _.
      by rewrite <- app_assoc.
  - unfold bind, log, remote. simpl.
    destruct (client_ok _ _); [| done]. simpl. intros _.
    by rewrite <- app_assoc.
Qed.

Lemma drop_if_stale_trace gcs item w :
  (drop_if_stale gcs item w).1 = Ok tt ->
  trace (drop_if_stale gcs item w).2 = (trace w ++ stale_calls gcs item)%list.
Proof.
  unfold drop_if_stale, stale_calls.
  destruct (negb _); simpl; [| by rewrite app_nil_r].
  unfold bind, log, remote. simpl.
  destruct (client_ok _ _); [| done]. simpl. intros _.
  by rewrite <- app_assoc.
Qed.

Lemma create_collection_prepares c :
  emits prepares (fun _ => True) (create_collection c).
Proof.
  unfold create_collection.
  eapply emits_bind with (R := fun _ => True); [by apply emits_remote |].
  intros col _. destruct (cc_indexes c); [| by apply emits_ret].
  apply emits_for_each. intros idx _. by apply emits_remote.
Qed.

Lemma ensure_vertex_prepares names c :
  emits prepares (fun _ => True) (ensure_vertex_collection names c).
Proof.
  apply emits_try_except; [| by apply emits_log].
  destruct (bool_decide _); [by apply emits_log |].
  eapply emits_bind; [by apply emits_log | intros _ _].
  apply create_collection_prepares.
Qed.

Lemma ensure_edge_prepares names c :
  emits prepares (fun _ => True) (ensure_edge_collection names c).
Proof.
  apply emits_try_except; [| by apply emits_log].
  destruct (bool_decide _); [by apply emits_log |].
  eapply emits_bind; [by apply emits_log | intros _ _].
  apply emits_raise.
Qed.

Lemma get_graph_info_prepares g :
  emits prepares (fun _ => True) (_get_graph_info g).
Proof.
  eapply emits_bind with (R := fun _ => True); [by apply emits_remote |].
  intros ? _. by apply emits_ret.
Qed.

(** The trace of a pass that completes: preparation, the read of the live
    definitions, the calls for each declared relation, the calls for each
    live definition. *)
Lemma update_graph_trace g graph_info w :
  (update_graph g graph_info w).1 = Ok tt ->
  exists t1,
    Forall prepares t1
    /\ (forall item, item ∈ edges g ->
          is_Some (edge_cols_from g !! item.1)
          /\ is_Some (edge_cols_to g !! item.1))
    /\ let existing_edges :=
         dict_of_pairs
           (map (fun e => (edge_collection e, e))
                (edge_definitions_reply (trace w ++ t1) (__graph__ g))) in
       let connections :=
         dict_of_pairs
           (map (fun gc => (cc_collection (relation gc), gc))
                (graph_connections g)) in
       trace (update_graph g graph_info w).2
       = (trace w ++ t1 ++ EEdgeDefinitions (__graph__ g)
            :: (concat (map (relation_calls g existing_edges) (edges g))
                ++ concat (map (stale_calls connections) existing_edges)))%list.
Proof.
  intros Hr.
  destruct (update_graph g graph_info w) as [res w'] eqn:E.
  simpl in Hr. subst res. simpl. unfold update_graph in E.
  apply bind_ok_inv in E as (? & wA & EA & E).
  assert (exists tA, trace wA = (trace w ++ tA)%list /\ Forall prepares tA)
    as (tA & TA & PA).
  { destruct graph_info as [gi|].
    - injection EA as <- <-. exists []. by rewrite app_nil_r.
    - destruct (get_graph_info_prepares g w) as (t & Ht & HP & _).
      rewrite EA in Ht. eauto. }
  clear EA.
  apply bind_ok_inv in E as (names & wB & EB & E).
  apply remote_ok_inv in EB as (_ & -> & ->).
  set (names := collections_reply (trace wA)) in *.
  apply bind_ok_inv in E as ([] & wC & EC & E).
  destruct (emits_for_each prepares (vertices g)
              (fun item => ensure_vertex_collection names item.2)
              (fun x _ => ensure_vertex_prepares names x.2) (record ECollections wA))
    as (tC & TC & PC & _).
  rewrite EC in TC. simpl in TC. clear EC.
  apply bind_ok_inv in E as ([] & wD & ED & E).
  destruct (emits_for_each prepares (edges g)
              (fun item => ensure_edge_collection names item.2)
              (fun x _ => ensure_edge_prepares names x.2) wC)
    as (tD & TD & PD & _).
  rewrite ED in TD. simpl in TD. clear ED.
  apply bind_ok_inv in E as (live & wE & EE & E).
  apply remote_ok_inv in EE as (_ & -> & ->).
  apply bind_ok_inv in E as ([] & wF & EF & E).
  exists (tA ++ ECollections :: tC ++ tD)%list.
  assert (HtD : trace wD = (trace w ++ tA ++ ECollections :: tC ++ tD)%list).
  { rewrite TD, TC, TA. by rewrite <- !app_assoc. }
  split.
  { apply Forall_app. split; [done |]. constructor; [done |].
    by apply Forall_app. }
  split.
  { intros item Hin.
    assert (Hok : (for_each (edges g)
              (sync_relation g
                 (dict_of_pairs
                    (map (fun e => (edge_collection e, e))
                       (edge_definitions_reply (trace wD) (__graph__ g)))))
              (record (EEdgeDefinitions (__graph__ g)) wD)).1 = Ok tt)
      by (by rewrite EF).
    destruct (for_each_ok_each _ _ _ item Hok Hin) as (w0 & H0).
    by apply sync_relation_ok_lookups in H0. }
  cbv zeta. rewrite <- HtD.
  match type of E with
  | for_each ?xs (drop_if_stale ?gcs) _ = _ =>
      pose proof (for_each_ok_trace xs (drop_if_stale gcs) (stale_calls gcs) wF
                    (fun x w0 _ => drop_if_stale_trace gcs x w0)) as HG
  end.
  rewrite E in HG. simpl in HG. rewrite HG by done.
  match type of EF with
  | for_each ?xs (sync_relation g ?ex) ?wE = _ =>
      pose proof (for_each_ok_trace xs (sync_relation g ex) (relation_calls g ex) wE
                    (fun x w0 _ => sync_relation_trace g ex x w0)) as HF
  end.
  rewrite EF in HF. simpl in HF. rewrite HF by done.
  simpl. rewrite HtD. by rewrite <- !app_assoc.
Qed.

Lemma relation_calls_other g existing item name :
  cc_collection item.2 <> name ->
  List.filter (replaces name) (relation_calls g existing item) = [].
Proof.
  intros Hne. unfold relation_calls.
  destruct (edge_cols_from g !! item.1); [| done].
  destruct (edge_cols_to g !! item.1); [| done]. simpl.
  destruct (dict_get existing _); [| done].
  destruct (_is_same_edge _ _) as [[]|]; [done | | done].
  simpl. by rewrite bool_decide_eq_false_2.
Qed.

Lemma relation_calls_no_delete g existing item name :
  List.filter (deletes name) (relation_calls g existing item) = [].
Proof.
  unfold relation_calls.
  destruct (edge_cols_from g !! item.1); [| done].
  destruct (edge_cols_to g !! item.1); [| done]. simpl.
  destruct (dict_get existing _); [| done].
  by destruct (_is_same_edge _ _) as [[]|].
Qed.

Lemma stale_calls_no_replace gcs item name :
  List.filter (replaces name) (stale_calls gcs item) = [].
Proof. unfold stale_calls. by destruct (negb _). Qed.

Lemma stale_calls_other gcs item name :
  item.1 <> name -> List.filter (deletes name) (stale_calls gcs item) = [].
Proof.
  intros Hne. unfold stale_calls. destruct (negb _); [| done].
  simpl. by rewrite bool_decide_eq_false_2.
Qed.

Lemma relation_calls_keep g existing item :
  Forall (fun ev => drops_collection ev = false) (relation_calls g existing item).
Proof.
  unfold relation_calls.
  destruct (edge_cols_from g !! item.1); [| done].
  destruct (edge_cols_to g !! item.1); [| done]. simpl.
  destruct (dict_get existing _); [| by repeat constructor].
  destruct (_is_same_edge _ _) as [[]|]; by repeat constructor.
Qed.

Lemma stale_calls_keep gcs item :
  Forall (fun ev => drops_collection ev = false) (stale_calls gcs item).
Proof. unfold stale_calls. destruct (negb _); by repeat constructor. Qed.

Lemma Forall_concat_map {X} (P : Event -> Prop) (f : X -> list Event) xs :
  (forall x, x ∈ xs -> Forall P (f x)) -> Forall P (concat (map f xs)).
Proof.
  induction xs as [|x xs IH]; intros Hf; simpl; [constructor |].
  apply Forall_app. split; [apply Hf; by left |].
  apply IH. intros y Hy. apply Hf. by right.
Qed.

(** C1, amended. In a pass that completes, with declared relations on
    distinct edge collections: for every declared relation whose edge
    collection has a live definition, the calls that replace that edge
    definition are none when [_is_same_edge] finds the declared and the
    live definition the same, and exactly one, with the declared
    definition, when it does not. Definitions whose lists differ in length
    are never the same. When the source and target lists of both
    definitions are free of duplicates, [_is_same_edge] says "same" exactly
    when the two are equivalent: same edge collection, same set of sources,
    same set of targets, whatever the order. [t1] is what the
    pass does before it reads the live definitions, [t2] what it does
    after. *)
Theorem replaced_iff_not_same (g : Graph) (graph_info : option string) (w : World) :
  (update_graph g graph_info w).1 = Ok tt ->
  NoDup (map (fun item => cc_collection item.2) (edges g)) ->
  exists t1 t2,
    trace (update_graph g graph_info w).2
    = (trace w ++ t1 ++ EEdgeDefinitions (__graph__ g) :: t2)%list
    /\ Forall (fun ev => touches_edge_definitions ev = false) t1
    /\ forall rel_name relation live,
        (rel_name, relation) ∈ edges g ->
        dict_get
          (dict_of_pairs
             (map (fun e => (edge_collection e, e))
                  (edge_definitions_reply (trace w ++ t1) (__graph__ g))))
          (cc_collection relation) = Some live ->
        exists cols_from cols_to same,
          edge_cols_from g !! rel_name = Some cols_from
          /\ edge_cols_to g !! rel_name = Some cols_to
          /\ live ∈ edge_definitions_reply (trace w ++ t1) (__graph__ g)
          /\ edge_collection live = cc_collection relation
          /\ let declared := edge_definition_of relation cols_from cols_to in
             _is_same_edge declared live = Ok same
             /\ List.filter (replaces (cc_collection relation)) t2
                = (if same then [] else [EReplaceEdgeDefinition declared])
             /\ (same = true ->
                 length (from_vertex_collections declared)
                 = length (from_vertex_collections live)
                 /\ length (to_vertex_collections declared)
                    = length (to_vertex_collections live))
             /\ (NoDup (from_vertex_collections declared) ->
                 NoDup (to_vertex_collections declared) ->
                 NoDup (from_vertex_collections live) ->
                 NoDup (to_vertex_collections live) ->
                 same = true <-> equivalent declared live).
Proof.
  intros Hr Hnd.
  destruct (update_graph_trace g graph_info w Hr) as (t1 & P1 & Hlk & Ht).
  cbv zeta in Ht.
  eexists t1, _. split; [exact Ht |]. split.
  { eapply Forall_impl; [exact P1 |]. by intros ev [? _]. }
  intros rel_name relation live Hin Hlive.
  destruct (Hlk _ Hin) as [[cols_from Hf] [cols_to Hto]]. simpl in Hf, Hto.
  pose proof (dict_of_pairs_get _ _ _ Hlive) as Hl.
  apply elem_of_map in Hl as (e & [= Hn ->] & He).
  destruct (is_same_edge_total (edge_definition_of relation cols_from cols_to) e)
    as (same & Hsame); [done |].
  exists cols_from, cols_to, same.
  do 4 (split; [done |]). cbv zeta. split; [done |]. split; [| split].
  - rewrite List.filter_app.
    rewrite (filter_concat_none _ (stale_calls _))
      by (intros; apply stale_calls_no_replace).
    rewrite app_nil_r.
    rewrite (filter_concat_unique _ _ (fun item => cc_collection item.2)
               _ (rel_name, relation)); [| done | done |].
    2:{ intros y Hy. by apply relation_calls_other. }
    unfold relation_calls. simpl. rewrite Hf, Hto. simpl.
    rewrite Hlive, Hsame. destruct same; [done |].
    simpl. by rewrite bool_decide_eq_true_2.
  - intros ->. by apply is_same_edge_lengths.
  - intros N1 N2 N3 N4.
    rewrite <- (is_same_edge_equivalent _ _ N1 N2 N3 N4), Hsame.
    split; congruence.
Qed.

(** C2. In a pass that completes, every live edge definition whose edge
    collection is not the collection of a declared connection gets the
    warning, followed at once by the one call that deletes the edge
    definition of that collection; edge definitions are deleted for such
    collections only; and no call of the pass drops a collection or a
    graph with its collections. *)
Theorem stale_definitions_deleted (g : Graph) (graph_info : option string) (w : World) :
  (update_graph g graph_info w).1 = Ok tt ->
  exists t1 t2,
    trace (update_graph g graph_info w).2
    = (trace w ++ t1 ++ EEdgeDefinitions (__graph__ g) :: t2)%list
    /\ Forall (fun ev => touches_edge_definitions ev = false) t1
    /\ Forall (fun ev => drops_collection ev = false)
              (t1 ++ EEdgeDefinitions (__graph__ g) :: t2)
    /\ let live := edge_definitions_reply (trace w ++ t1) (__graph__ g) in
       let declared :=
         map (fun gc => cc_collection (relation gc)) (graph_connections g) in
       (forall ee,
          ee ∈ live -> edge_collection ee ∉ declared ->
          List.filter (deletes (edge_collection ee)) t2
          = [EDeleteEdgeDefinition (edge_collection ee)]
          /\ exists ee' ta tb,
              ee' ∈ live
              /\ edge_collection ee' = edge_collection ee
              /\ t2 = (ta ++ [ELog WARNING stale_message [LEdge ee'];
                             EDeleteEdgeDefinition (edge_collection ee)]
                         ++ tb)%list)
       /\ (forall name,
             EDeleteEdgeDefinition name ∈ t2 ->
             name ∈ map edge_collection live /\ name ∉ declared).
Proof.
  intros Hr.
  destruct (update_graph_trace g graph_info w Hr) as (t1 & P1 & _ & Ht).
  cbv zeta in Ht.
  set (live := edge_definitions_reply (trace w ++ t1) (__graph__ g)) in *.
  set (existing := dict_of_pairs (map (fun e => (edge_collection e, e)) live)) in *.
  set (gcs := dict_of_pairs _) in Ht.
  assert (Hgcs : forall name,
    dict_mem gcs name = true
    <-> name ∈ map (fun gc => cc_collection (relation gc)) (graph_connections g)).
  { intros name. unfold gcs. rewrite dict_mem_keys, dict_of_pairs_keys.
    by rewrite map_map. }
  assert (Hkeys : forall name,
    name ∈ map fst existing <-> name ∈ map edge_collection live).
  { intros name. unfold existing. rewrite dict_of_pairs_keys.
    by rewrite map_map. }
  eexists t1, _. split; [exact Ht |]. split.
  { eapply Forall_impl; [exact P1 |]. by intros ev [? _]. }
  split.
  { apply Forall_app. split.
    - eapply Forall_impl; [exact P1 |]. by intros ev [_ ?].
    - constructor; [done |]. apply Forall_app. split.
      + apply Forall_concat_map. intros; apply relation_calls_keep.
      + apply Forall_concat_map. intros; apply stale_calls_keep. }
  cbv zeta. split.
  - intros ee Hee Hstale.
    assert (Hk : edge_collection ee ∈ map fst existing).
    { apply Hkeys, elem_of_map. eauto. }
    apply elem_of_map in Hk as ([k ee'] & Hk & Hin). simpl in Hk. subst k.
    assert (Hcalls : stale_calls gcs (edge_collection ee, ee')
              = [ELog WARNING stale_message [LEdge ee'];
                 EDeleteEdgeDefinition (edge_collection ee)]).
    { unfold stale_calls. simpl.
      destruct (dict_mem gcs (edge_collection ee)) eqn:Em; [| done].
      by apply Hgcs in Em. }
    split.
    + rewrite List.filter_app.
      rewrite (filter_concat_none _ (relation_calls _ _))
        by (intros; apply relation_calls_no_delete).
      rewrite (filter_concat_unique _ _ fst _ (edge_collection ee, ee'));
        [| apply dict_of_pairs_NoDup | done |].
      2:{ intros y Hy. by apply stale_calls_other. }
      rewrite Hcalls. simpl. by rewrite bool_decide_eq_true_2.
    + apply list_elem_of_split in Hin as (l1 & l2 & Hsplit).
      exists ee', (concat (map (relation_calls g existing) (edges g))
                   ++ concat (map (stale_calls gcs) l1))%list,
             (concat (map (stale_calls gcs) l2)).
      split_and!.
      * assert (Hg : dict_get existing (edge_collection ee) = Some ee').
        { apply dict_elem_get; [apply dict_of_pairs_NoDup |].
          rewrite Hsplit. apply elem_of_app. right. by left. }
        apply dict_of_pairs_get, elem_of_map in Hg as (e & [= _ ->] & ?). done.
      * assert (Hg : dict_get existing (edge_collection ee) = Some ee').
        { apply dict_elem_get; [apply dict_of_pairs_NoDup |].
          rewrite Hsplit. apply elem_of_app. right. by left. }
        apply dict_of_pairs_get, elem_of_map in Hg as (e & [= Hn ->] & ?). done.
      * rewrite Hsplit, map_app, concat_app. simpl. rewrite Hcalls.
        by rewrite <- !app_assoc.
  - intros name Hin. apply elem_of_app in Hin as [Hin|Hin].
    + exfalso.
      assert (Hf : List.filter (deletes name)
                (concat (map (relation_calls g existing) (edges g))) = [])
        by (apply filter_concat_none; intros; apply relation_calls_no_delete).
      assert (Hm : EDeleteEdgeDefinition name
                   ∈ List.filter (deletes name)
                       (concat (map (relation_calls g existing) (edges g)))).
      { apply list_elem_of_In, filter_In. split; [by apply list_elem_of_In |].
        simpl. by rewrite bool_decide_eq_true_2. }
      rewrite Hf in Hm. by apply elem_of_nil in Hm.
    + apply list_elem_of_In, in_concat in Hin as (calls & Hc & Hin).
      apply in_map_iff in Hc as ([k ee'] & <- & Hk).
      unfold stale_calls in Hin. simpl in Hin.
      destruct (dict_mem gcs k) eqn:Em; simpl in Hin; [done |].
      destruct Hin as [|[[= <-]|[]]]; [done |].
      split.
      * apply Hkeys, elem_of_map. exists (k, ee'). by rewrite list_elem_of_In.
      * intros Hd. apply Hgcs in Hd. congruence.
Qed.
End SynchronizerFacts.

(** ** The sample world *)

Section SampleFacts.
Import Database Sample.
#[local] Existing Instance serializer.
#[local] Existing Instance stamping.
#[local] Existing Instance server.

Lemma stamping_quiet : @listeners_quiet stamping.
Proof.
  intros h r s. eexists. split; [reflexivity |].
  intros x. destruct (decide (x = r)) as [->|Hx].
  - by rewrite fn_lookup_insert.
  - by rewrite fn_lookup_insert_ne.
Defined.

Lemma stamping_keeps_dirty : @listeners_keep_dirty stamping.
Proof.
  intros h r s s' [= <-] x. destruct (decide (x = r)) as [->|Hx].
  - by rewrite fn_lookup_insert.
  - by rewrite fn_lookup_insert_ne.
Defined.

Lemma alice_is_dirty : _dirty (store world 0%nat) <> ∅.
Proof. intros Hd. by apply (f_equal (fun d => bool_decide (d = ∅))) in Hd. Defined.

(** C5 on the sample: Alice, dirty, is written once by the first call, and
    the second call does nothing. *)
Lemma update_only_dirty_idempotent_witness :
  _dirty (store world 0%nat) <> ∅
  /\ (exists t,
        trace (update 0%nat true world).2 = (trace world ++ t)%list
        /\ length (List.filter is_write t) = 1%nat)
  /\ update 0%nat true (update 0%nat true world).2
     = (Ok 0%nat,
        record (ECollection
                  (__collection__ (store (update 0%nat true world).2 0%nat)))
               (update 0%nat true world).2).
Proof.
  split; [exact alice_is_dirty |].
  apply (proj2 (update_only_dirty_idempotent 0%nat world)
               0%nat (update 0%nat true world).2
               stamping_keeps_dirty alice_is_dirty).
  vm_compute. reflexivity.
Defined.

Lemma bob_is_clean : exists e : ref, e ∈ [0; 1; 2]%nat /\ _dirty (store world e) = ∅.
Proof. exists 1%nat. split; [| reflexivity]. right. left. Defined.

(** In the list Alice, Bob, Oslo the only place to stop is Bob. *)
Lemma stop_at_bob (pre post : list ref) (r : ref) :
  [0; 1; 2]%nat = (pre ++ r :: post)%list ->
  (forall x, x ∈ pre -> _dirty (store world x) <> ∅) ->
  _dirty (store world r) = ∅ \/ r ∈ pre ->
  pre = [0%nat] /\ r = 1%nat.
Proof.
  intros Hl Hpre Hr.
  destruct pre as [|a [|b [|c pre]]]; simpl in Hl.
  - injection Hl as <- _. exfalso. destruct Hr as [Hr | Hr].
    + by apply alice_is_dirty.
    + by apply elem_of_nil in Hr.
  - by injection Hl as <- <- _.
  - injection Hl as <- <- _. exfalso.
    apply (Hpre 1%nat); [right; left | reflexivity].
  - injection Hl as _ _ _ Hl. by destruct pre.
Defined.


(** C10 on the sample: [bulk_add] returns Bob, and Alice, who comes before
    him, is left attached and with an empty dirty set although nothing was
    inserted. *)
Lemma bulk_short_circuit_not_atomic_witness :
  exists w',
    bulk_add [0; 1; 2]%nat true world = (Ok (ReturnedEntity 1%nat), w')
    /\ _db (store w' 0%nat) = true
    /\ _dirty (store w' 0%nat) = ∅.
Proof.
  destruct (bulk_short_circuit_not_atomic [0; 1; 2]%nat world
              stamping_quiet bob_is_clean)
    as [(pre & r & post & w' & t & Hl & Hr & Ha & _ & _ & Hp) _].
  destruct (stop_at_bob _ _ _ Hl (fun x Hx => proj1 (Hp x Hx)) Hr) as [-> ->].
  exists w'. split; [done |].
  destruct (Hp 0%nat) as (_ & _ & ? & ?); [by left | done].
Defined.

Lemma social_pass_completes :
  (update_graph social None world).1 = Ok tt.
Proof. vm_compute. reflexivity. Defined.

Lemma social_relations_distinct :
  NoDup (map (fun item : string * CollectionClass => cc_collection item.2)
             (edges social)).
Proof.
  apply NoDup_ListNoDup. simpl.
  constructor; [| constructor; [| constructor]]; simpl; intuition discriminate.
Defined.

(** C1 on the sample: [lives_in], declared towards cities and live towards
    persons, is replaced once; [knows], live as declared, is not. *)
Lemma replaced_iff_not_same_witness :
  exists t1 t2,
    trace (update_graph social None world).2
    = (trace world ++ t1 ++ EEdgeDefinitions "social" :: t2)%list
    /\ List.filter (replaces "lives_in") t2
       = [EReplaceEdgeDefinition
            {| edge_collection := "lives_in";
               from_vertex_collections := ["person"];
               to_vertex_collections := ["city"] |}]
    /\ List.filter (replaces "knows") t2 = [].
Proof.
  destruct (replaced_iff_not_same social None world
              social_pass_completes social_relations_distinct)
    as (t1 & t2 & Ht & _ & Hrel).
  exists t1, t2. split; [exact Ht |]. split.
  - destruct (Hrel "lives_in" lives_in
                {| edge_collection := "lives_in";
                   from_vertex_collections := ["person"];
                   to_vertex_collections := ["person"] |})
      as (cols_from & cols_to & same & Hf & Hto & _ & _ & Hsame & Hfilter & _).
    + right. left.
    + reflexivity.
    + vm_compute in Hf. injection Hf as <-.
      vm_compute in Hto. injection Hto as <-.
      vm_compute in Hsame. injection Hsame as <-.
      exact Hfilter.
  - destruct (Hrel "knows" knows
                {| edge_collection := "knows";
                   from_vertex_collections := ["person"];
                   to_vertex_collections := ["person"] |})
      as (cols_from & cols_to & same & Hf & Hto & _ & _ & Hsame & Hfilter & _).
    + left.
    + reflexivity.
    + vm_compute in Hf. injection Hf as <-.
      vm_compute in Hto. injection Hto as <-.
      vm_compute in Hsame. injection Hsame as <-.
      exact Hfilter.
Defined.

(** C2 on the sample: [visited], live and not declared, is deleted once. *)
Lemma stale_definitions_deleted_witness :
  exists t1 t2,
    trace (update_graph social None world).2
    = (trace world ++ t1 ++ EEdgeDefinitions "social" :: t2)%list
    /\ List.filter (deletes "visited") t2 = [EDeleteEdgeDefinition "visited"].
Proof.
  destruct (stale_definitions_deleted social None world
              social_pass_completes)
    as (t1 & t2 & Ht & _ & _ & Hs & _).
  exists t1, t2. split; [done |].
  apply (Hs {| edge_collection := "visited";
               from_vertex_collections := ["person"];
               to_vertex_collections := ["city"] |}).
  - right. right. left.
  - simpl. intros Hin. apply list_elem_of_In in Hin. simpl in Hin.
    intuition discriminate.
Defined.

(** C1, as stated, fails: the declared definition of [knows] names its
    target twice, the live one once; the two are equivalent, and the pass
    replaces the live definition all the same. *)
Lemma replaced_although_equivalent :
  (@update_graph (client [doubled_live]) doubled None world).1 = Ok tt
  /\ List.filter (replaces "knows")
       (trace (@update_graph (client [doubled_live]) doubled None world).2)
     = [EReplaceEdgeDefinition doubled_declared]
  /\ equivalent doubled_declared doubled_live.
Proof.
  split_and!.
  - vm_compute. reflexivity.
  - vm_compute. reflexivity.
  - split_and!; [done | done |]. simpl. set_solver.
Qed.
End SampleFacts.

(** C3. [bulk_add] never dispatches [pre_add], the hook the single-entity
    [add] dispatches before anything else; on the sample, where Alice is
    added both ways, [bulk_add] dispatches [pre_update] before the batched
    insert and [post_add] after it. *)
Theorem bulk_add_dispatches_pre_update :
  (forall (EM : EntityModel) (LS : Listeners) (CL : Client)
          (entity_list : list ref) (only_dirty : bool) (w : World),
      exists t,
        trace (@Database.bulk_add EM LS CL entity_list only_dirty w).2
        = (trace w ++ t)%list
        /\ Forall not_pre_add t)
  /\ (forall (EM : EntityModel) (LS : Listeners) (CL : Client)
             (entity : ref) (w : World),
        exists t,
          trace (@Database.add EM LS CL entity VNone w).2
          = (trace w ++ EDispatch entity pre_add :: t)%list)
  /\ trace (@Database.bulk_add Sample.serializer Sample.stamping
              (Sample.client Sample.live) [0%nat] false Sample.world).2
     = [ECollection "person"; EDispatch 0%nat pre_update;
        EInsertMany "person"
          [Database._entity_pre_process
             (@model_dump Sample.serializer Sample.alice)];
        EDispatch 0%nat post_add]
  /\ trace (@Database.add Sample.serializer Sample.stamping
              (Sample.client Sample.live) 0%nat VNone Sample.world).2
     = [EDispatch 0%nat pre_add; ECollection "person";
        EInsert "person"
          (Database._entity_pre_process
             (@model_dump Sample.serializer Sample.alice));
        EDispatch 0%nat post_add].
Proof.
  split_and!.
  - intros. apply bulk_add_not_pre_add.
  - intros. apply add_pre_add_first.
  - vm_compute. reflexivity.
  - vm_compute. reflexivity.
Qed.


(** C9, as stated, fails: a negative count and a negative offset are
    accepted and stored, and the query built with them is sent. *)
Lemma limit_accepts_negative :
  exists q,
    Query.limit (Query.init "users") (VInt (-1)) (VInt (-2)) = Ok q
    /\ Query._limit q = VInt (-1)
    /\ Query._limit_start_record q = VInt (-2)
    /\ trace (@Database.query_all Sample.loader (Sample.client []) q
                Sample.world).2
       = [EPrint ("FOR rec IN @@collection" +:+ nl +:+ nl
                  +:+ " LIMIT -2, -1 " +:+ nl +:+ " RETURN rec");
          EExecute ("FOR rec IN @@collection" +:+ nl +:+ nl
                    +:+ " LIMIT -2, -1 " +:+ nl +:+ " RETURN rec")
                   {[ "@collection" := VStr "users" ]} ∅].
Proof.
  eexists. split; [reflexivity |]. split_and!; [done | done |].
  vm_compute. reflexivity.
Qed.

(** ** Running a built query *)

Section QueryRunFacts.
Context {EM : EntityModel} {LD : EntityLoader} {LS : Listeners} {CL : Client}.
Import Database QueryText.

Lemma remote_run {A} (ev : Event) (reply : list Event -> A) (w : World) :
  remote ev reply w
  = if client_ok (trace w) ev
    then (Ok (reply (trace w)), record ev w)
    else (Raise RemoteError, record ev w).
Proof. reflexivity. Qed.

(** The bind variables a chain of calls leaves: each [filter] call
    overwrites the keys it binds, the other calls bind nothing. *)
Lemma chain_bind_vars (cs : list Query.Call) (q q' : Query.t) (k : string) :
  Query.chain q cs = Ok q' ->
  Query._bind_vars q' !! k
  = match bound cs k with
    | Some v => Some v
    | None => Query._bind_vars q !! k
    end.
Proof.
  revert q. induction cs as [|c cs IH]; intros q Hc.
  - by injection Hc as <-.
  - simpl in Hc. destruct (Query.call q c) as [q1|x] eqn:E; [| done].
    rewrite (IH _ Hc). unfold bound. simpl.
    destruct c as [cond o kw | col | n s]; simpl in E.
    + injection E as <-. simpl.
      destruct (kw !! k) as [v|] eqn:Ek.
      * rewrite last_cons.
        destruct (last _); [done |].
        by rewrite (lookup_union_Some_l _ _ _ _ Ek).
      * destruct (last _); [done |].
        by rewrite lookup_union_r.
    + by injection E as <-.
    + unfold Query.limit in E.
      destruct (isinstance_int n); [| done].
      destruct (isinstance_int s); [| done].
      by injection E as <-.
Qed.

(** No call of the chain changes the class of the builder. *)
Lemma chain_collection (cs : list Query.Call) (q q' : Query.t) :
  Query.chain q cs = Ok q' -> Query.collection q' = Query.collection q.
Proof.
  revert q. induction cs as [|c cs IH]; intros q Hc.
  - by injection Hc as <-.
  - simpl in Hc. destruct (Query.call q c) as [q1|x] eqn:E; [| done].
    rewrite (IH _ Hc).
    destruct c as [cond o kw | col | n s]; simpl in E.
    + by injection E as <-.
    + by injection E as <-.
    + unfold Query.limit in E.
      destruct (isinstance_int n); [| done].
      destruct (isinstance_int s); [| done].
      by injection E as <-.
Qed.

(** Loading sends nothing and touches no entity of the caller; it returns
    the entities of the rows, or raises what the first row that is not
    accepted raises. *)
Lemma load_each_run (coll : string) (rows : list Doc) (w : World) :
  exists res,
    load_each coll rows w = (res, w)
    /\ (forall es, res = Ok es <-> loads_to coll rows es)
    /\ (forall x, res = Raise x <-> first_refused coll rows x).
Proof.
  induction rows as [|rec rest IH].
  - exists (Ok []). split; [done |]. split.
    + intros es. split.
      * intros [= <-]. constructor.
      * intros Hl. by inversion Hl.
    + intros x. split; [done |]. by intros (i & r & Hi & _).
  - destruct IH as (res & Hrun & Hok & Hraise).
    simpl. unfold bind at 1.
    destruct (_load coll rec) as [e|x0] eqn:El; simpl.
    + unfold bind at 1. rewrite Hrun.
      destruct res as [es0|x0].
      * exists (Ok (e :: es0)). split; [done |]. split.
        -- intros es. split.
           ++ intros [= <-]. constructor; [done |]. by apply Hok.
           ++ intros Hl. inversion Hl as [|? e' ? es' He' Hrest]; subst.
              rewrite El in He'. injection He' as <-.
              apply Hok in Hrest. by injection Hrest as <-.
        -- intros x. split; [done |].
           intros ([|i] & r & Hi & Hr & Hbefore).
           ++ simpl in Hi. injection Hi as <-. congruence.
           ++ simpl in Hi.
              assert (Hf : first_refused coll rest x).
              { exists i, r. split; [done |]. split; [done |].
                intros j r' Hj Hr'. apply (Hbefore (S j) r'); [lia | done]. }
              by apply Hraise in Hf.
      * exists (Raise x0). split; [done |]. split.
        -- intros es. split; [done |].
           intros Hl. inversion Hl as [|? e' ? es' He' Hrest]; subst.
           by apply Hok in Hrest.
        -- intros x. split.
           ++ intros [= <-].
              destruct (proj1 (Hraise x0) eq_refl) as (i & r & Hi & Hr & Hbefore).
              exists (S i), r. split; [done |]. split; [done |].
              intros [|j] r' Hj Hr'.
              ** simpl in Hr'. injection Hr' as <-. eauto.
              ** simpl in Hr'. apply (Hbefore j r'); [lia | done].
           ++ intros ([|i] & r & Hi & Hr & Hbefore).
              ** simpl in Hi. injection Hi as <-. congruence.
              ** simpl in Hi. f_equal.
                 assert (Hf : first_refused coll rest x).
                 { exists i, r. split; [done |]. split; [done |].
                   intros j r' Hj Hr'. apply (Hbefore (S j) r'); [lia | done]. }
                 apply Hraise in Hf. by injection Hf.
    + exists (Raise x0). split; [done |]. split.
      * intros es. split; [done |].
        intros Hl. inversion Hl as [|? e' ? es' He' Hrest]; subst. congruence.
      * intros x. split.
        -- intros [= <-]. exists 0%nat, rec. split; [done |]. split; [done |].
           intros j r' Hj. lia.
        -- intros ([|i] & r & Hi & Hr & Hbefore).
           ++ simpl in Hi. injection Hi as <-. congruence.
           ++ destruct (Hbefore 0%nat rec) as (e & He); [lia | done |]. congruence.
Qed.

(** The loop of [Query.all] returns what the comprehension of [Query.aql]
    returns, behind the entities it starts with. *)
Lemma load_loop_each (coll : string) (rows : list Doc) (acc : list Entity)
    (w : World) :
  load_loop coll rows acc w
  = (match (load_each coll rows w).1 with
     | Ok es => Ok (acc ++ es)%list
     | Raise x => Raise x
     end, w).
Proof.
  revert acc. induction rows as [|rec rest IH]; intros acc.
  - simpl. by rewrite app_nil_r.
  - simpl. unfold bind at 1. unfold bind at 2.
    destruct (_load coll rec) as [e|x0]; simpl; [| done].
    destruct (load_each_run coll rest w) as (res & Hrun & _).
    rewrite IH. unfold bind, ret. rewrite !Hrun.
    destruct res; simpl; [| done].
    by rewrite <- app_assoc.
Qed.

(** X1. [Query.all] on a builder obtained from [Database.query] by any
    chain of [filter], [sort] and [limit] calls prints the text of the
    query and makes exactly one [execute] call: its text is the iteration,
    the filters in call order, one sort clause with the keys comma-joined
    in call order, the limit clause of the last [limit] call when its
    count is truthy, and the projection, however the calls were
    interleaved; its bind variables are those of the builder, and it has
    no other keyword. When the call fails its error is raised. Otherwise
    the rows are loaded by the class the builder was made for: the
    entities of the rows are returned in the order of the rows, or, when
    a row is not accepted, what the first such row raises is raised, after
    the call was made. *)
Theorem all_sends_compiled_chain (c : CollectionClass) (cs : list Query.Call)
    (q : Query.t) (w : World) :
  Query.chain (query c) cs = Ok q ->
  exists res,
    query_all q w
    = (res, record (EExecute (text cs) (Query._bind_vars q) ∅)
                   (record (EPrint (text cs)) w))
    /\ if client_ok (trace w ++ [EPrint (text cs)])
                    (EExecute (text cs) (Query._bind_vars q) ∅)
       then (forall es,
               res = Ok es
               <-> loads_to (cc_collection c)
                     (execute_reply (trace w ++ [EPrint (text cs)]) (text cs)
                                    (Query._bind_vars q) ∅) es)
            /\ (forall x,
                  res = Raise x
                  <-> first_refused (cc_collection c)
                        (execute_reply (trace w ++ [EPrint (text cs)])
                                       (text cs) (Query._bind_vars q) ∅) x)
       else res = Raise RemoteError.
Proof.
  intros Hc. unfold query_all, print.
  rewrite (chain_collection _ _ _ Hc).
  assert (Ht : Query.compile q = text cs) by by rewrite (compile_chain _ _ _ Hc).
  rewrite Ht. unfold bind at 1. unfold bind at 1. rewrite remote_run.
  simpl trace.
  destruct (client_ok _ _).
  - rewrite load_loop_each. simpl.
    destruct (load_each_run (cc_collection c)
                (execute_reply (trace w ++ [EPrint (text cs)]) (text cs)
                               (Query._bind_vars q) ∅)
                (record (EExecute (text cs) (Query._bind_vars q) ∅)
                        (record (EPrint (text cs)) w)))
      as (res & Hrun & Hok & Hraise).
    rewrite Hrun. simpl.
    exists res. split; [by destruct res |]. split; done.
  - by eexists.
Qed.

(** X2. On a builder made for a collection, after any chain of calls a
    bind variable has the value given by the last [filter] call that binds
    it; a variable no call binds is unbound, except [@collection], which
    then names the collection. A [filter] call that binds [@collection]
    overwrites it. *)
Theorem bind_vars_last_write_wins (coll : string) (cs : list Query.Call)
    (q : Query.t) (k : string) :
  Query.chain (Query.init coll) cs = Ok q ->
  Query._bind_vars q !! k
  = match bound cs k with
    | Some v => Some v
    | None => if decide (k = "@collection") then Some (VStr coll) else None
    end.
Proof.
  intros Hc. rewrite (chain_bind_vars _ _ _ k Hc).
  destruct (bound cs k); [done |]. simpl.
  destruct (decide (k = "@collection")) as [->|Hk].
  - by rewrite lookup_singleton_eq.
  - by rewrite lookup_singleton_ne.
Qed.

(** X3. [Query.aql] on a builder reached by any chain of calls sends the
    given text unchanged, whatever filters, sort keys and limit the
    builder holds, in exactly one [execute] call. The bind variables of
    that call are the caller's, with [@collection] set to the builder's
    value for it, over a value the caller gave; the other bind variables
    of the builder are not passed; the other keywords of the caller are
    passed as they are. When the call fails its error is raised.
    Otherwise the rows are loaded by the class of the builder: the
    entities of the rows are returned in the order of the rows, or what
    the first row that is not accepted raises is raised. *)
Theorem aql_injects_collection (coll : string) (cs : list Query.Call)
    (q : Query.t) (query : string) (bind_vars : option Doc) (kwargs : Doc)
    (w : World) :
  Query.chain (Query.init coll) cs = Ok q ->
  exists v sent res,
    Query._bind_vars q !! "@collection" = Some v
    /\ sent !! "@collection" = Some v
    /\ (forall k, k <> "@collection" ->
                  sent !! k = default ∅ bind_vars !! k)
    /\ query_aql q query bind_vars kwargs w
       = (res, record (EExecute query sent kwargs) w)
    /\ if client_ok (trace w) (EExecute query sent kwargs)
       then (forall es,
               res = Ok es
               <-> loads_to coll (execute_reply (trace w) query sent kwargs) es)
            /\ (forall x,
                  res = Raise x
                  <-> first_refused coll
                        (execute_reply (trace w) query sent kwargs) x)
       else res = Raise RemoteError.
Proof.
  intros Hc.
  pose proof (chain_bind_vars cs _ _ "@collection" Hc) as Hb.
  assert (exists v, Query._bind_vars q !! "@collection" = Some v) as (v & Hv).
  { rewrite Hb. destruct (bound cs "@collection"); [by eauto |].
    simpl. rewrite lookup_singleton_eq. eauto. }
  exists v.
  exists (match bind_vars with
          | Some given => <["@collection" := v]> given
          | None => {[ "@collection" := v ]}
          end).
  set (sent := match bind_vars with Some _ => _ | None => _ end).
  assert (Hrun : query_aql q query bind_vars kwargs w
    = if client_ok (trace w) (EExecute query sent kwargs)
      then load_each coll (execute_reply (trace w) query sent kwargs)
                     (record (EExecute query sent kwargs) w)
      else (Raise RemoteError, record (EExecute query sent kwargs) w)).
  { unfold query_aql, getitem. rewrite Hv, bind_ret_l.
    rewrite (chain_collection _ _ _ Hc). simpl Query.collection.
    unfold bind. rewrite remote_run. fold sent.
    by destruct (client_ok _ _). }
  rewrite Hrun. clear Hrun.
  destruct (client_ok _ _).
  - destruct (load_each_run coll (execute_reply (trace w) query sent kwargs)
                (record (EExecute query sent kwargs) w))
      as (res & Hrun & Hok & Hraise).
    exists res. split_and!; try done.
    + unfold sent. destruct bind_vars;
        [by rewrite lookup_insert_eq | by rewrite lookup_singleton_eq].
    + intros k Hk. unfold sent. destruct bind_vars; simpl.
      * by rewrite lookup_insert_ne.
      * by rewrite lookup_singleton_ne.
  - exists (Raise RemoteError). split_and!; try done.
    + unfold sent. destruct bind_vars;
        [by rewrite lookup_insert_eq | by rewrite lookup_singleton_eq].
    + intros k Hk. unfold sent. destruct bind_vars; simpl.
      * by rewrite lookup_insert_ne.
      * by rewrite lookup_singleton_ne.
Qed.

End QueryRunFacts.

(** ** The persister, call by call *)

Section PersisterRuns.
Context {EM : EntityModel} {LS : Listeners} {CL : Client}.
Import Database.

Ltac emits_basic :=
  first [ apply emits_get_entity | apply emits_set_entity
        | apply emits_attach_db | apply emits_dirty_clear
        | apply emits_post_process
        | apply emits_collection; done
        | apply emits_dispatch; done
        | apply emits_log; done ].

Ltac emits_next := eapply emits_bind; [emits_basic | intros ? _].

(** One turn of the loop of [_entity_post_process]. *)
Lemma write_back_run entity (k : string * string) (result : Doc) w :
  k.1 = "key_" \/ k.1 = "rev_" ->
  exists w',
    match result !! k.2 with
    | None | Some VNone => ret tt
    | Some v => let* _ := setattr entity k.1 v in dirty_remove entity k.1
    end w = (Ok tt, w')
    /\ trace w' = trace w
    /\ (forall x, x <> entity -> store w' x = store w x)
    /\ key_ (store w' entity)
       = (if decide (k.1 = "key_")
          then written (result !! k.2) (key_ (store w entity))
          else key_ (store w entity))
    /\ rev_ (store w' entity)
       = (if decide (k.1 = "rev_")
          then written (result !! k.2) (rev_ (store w entity))
          else rev_ (store w entity))
    /\ _dirty (store w' entity) ⊆ _dirty (store w entity)
    /\ _db (store w' entity) = _db (store w entity)
    /\ __collection__ (store w' entity) = __collection__ (store w entity)
    /\ fields (store w' entity) = fields (store w entity).
Proof.
  intros Hk.
  assert (Hnoop : exists w',
    ret tt w = (Ok tt, w')
    /\ trace w' = trace w
    /\ (forall x, x <> entity -> store w' x = store w x)
    /\ key_ (store w' entity)
       = (if decide (k.1 = "key_") then key_ (store w entity)
          else key_ (store w entity))
    /\ rev_ (store w' entity)
       = (if decide (k.1 = "rev_") then rev_ (store w entity)
          else rev_ (store w entity))
    /\ _dirty (store w' entity) ⊆ _dirty (store w entity)
    /\ _db (store w' entity) = _db (store w entity)
    /\ __collection__ (store w' entity) = __collection__ (store w entity)
    /\ fields (store w' entity) = fields (store w entity)).
  { exists w. split_and!; try done; by destruct (decide _). }
  destruct (result !! k.2) as [v|] eqn:Er; [| exact Hnoop].
  destruct (decide (v = VNone)) as [->|Hv]; [exact Hnoop |].
  clear Hnoop.
  assert (Hw : written (Some v) = fun _ => v).
  { by destruct v. }
  assert (Hrun : exists w',
    (let* _ := setattr entity k.1 v in dirty_remove entity k.1) w = (Ok tt, w')
    /\ trace w' = trace w
    /\ (forall x, x <> entity -> store w' x = store w x)
    /\ key_ (store w' entity)
       = (if decide (k.1 = "key_") then v else key_ (store w entity))
    /\ rev_ (store w' entity)
       = (if decide (k.1 = "rev_") then v else rev_ (store w entity))
    /\ _dirty (store w' entity) ⊆ _dirty (store w entity)
    /\ _db (store w' entity) = _db (store w entity)
    /\ __collection__ (store w' entity) = __collection__ (store w entity)
    /\ fields (store w' entity) = fields (store w entity)).
  { unfold setattr, dirty_remove, bind, get_entity, set_entity, ret. simpl.
    rewrite fn_lookup_insert. simpl.
    destruct (decide (k.1 ∈ _)) as [Hin|Hout]; [| set_solver].
    eexists. split; [reflexivity |]. simpl.
    rewrite !fn_lookup_insert. simpl.
    split_and!; try done.
    - intros x Hx. by rewrite !fn_lookup_insert_ne.
    - set_solver.
    - by rewrite decide_True. }
  destruct Hrun as (w' & Hr & Hrest). exists w'. rewrite Hw.
  split; [| exact Hrest].
  by destruct v.
Qed.

(** [_entity_post_process] returns, and writes the identity of the result
    onto the entity. *)
Lemma post_process_identity entity (result : Doc) w :
  exists w',
    _entity_post_process entity result w = (Ok tt, w')
    /\ trace w' = trace w
    /\ (forall x, x <> entity -> store w' x = store w x)
    /\ key_ (store w' entity)
       = written (result !! "_key") (key_ (store w entity))
    /\ rev_ (store w' entity)
       = written (result !! "_rev") (rev_ (store w entity))
    /\ _dirty (store w' entity) ⊆ _dirty (store w entity)
    /\ _db (store w' entity) = _db (store w entity)
    /\ __collection__ (store w' entity) = __collection__ (store w entity)
    /\ fields (store w' entity) = fields (store w entity).
Proof.
  destruct (write_back_run entity ("key_", "_key") result w)
    as (w1 & E1 & T1 & O1 & K1 & R1 & D1 & B1 & C1 & F1); [by left |].
  destruct (write_back_run entity ("rev_", "_rev") result w1)
    as (w2 & E2 & T2 & O2 & K2 & R2 & D2 & B2 & C2 & F2); [by right |].
  simpl in *.
  exists w2. split.
  { unfold _entity_post_process. simpl.
    unfold bind at 1. rewrite E1.
    unfold bind at 1. rewrite E2. done. }
  split_and!.
  - congruence.
  - intros x Hx. rewrite O2, O1; done.
  - rewrite K2, K1. done.
  - rewrite R2, R1. done.
  - set_solver.
  - congruence.
  - congruence.
  - congruence.
Qed.

Lemma same_entities_refl w : same_entities w w.
Proof. by intros x. Qed.

Lemma dispatch_keeps entity h w w' :
  listeners_keep_entities ->
  dispatch entity h w = (Ok tt, w') ->
  trace w' = (trace w ++ [EDispatch entity h])%list /\ same_entities w w'.
Proof.
  intros Hk Hd. apply dispatch_ok_inv in Hd as (s' & Hl & ->).
  split; [done |]. intros x. apply (Hk _ _ _ _ Hl x).
Qed.

Lemma attach_db_entity entity w :
  exists w', attach_db entity w = (Ok tt, w')
    /\ trace w' = trace w
    /\ (forall x, x <> entity -> store w' x = store w x)
    /\ __collection__ (store w' entity) = __collection__ (store w entity)
    /\ key_ (store w' entity) = key_ (store w entity)
    /\ rev_ (store w' entity) = rev_ (store w entity)
    /\ _dirty (store w' entity) = _dirty (store w entity)
    /\ _db (store w' entity) = true.
Proof.
  eexists. split; [reflexivity |]. simpl.
  rewrite !fn_lookup_insert. split_and!; try done.
  intros x Hx. by rewrite fn_lookup_insert_ne.
Qed.

Lemma dirty_clear_entity entity w :
  exists w', dirty_clear entity w = (Ok tt, w')
    /\ trace w' = trace w
    /\ (forall x, x <> entity -> store w' x = store w x)
    /\ __collection__ (store w' entity) = __collection__ (store w entity)
    /\ key_ (store w' entity) = key_ (store w entity)
    /\ rev_ (store w' entity) = rev_ (store w entity)
    /\ _dirty (store w' entity) = ∅
    /\ _db (store w' entity) = _db (store w entity).
Proof.
  eexists. split; [reflexivity |]. simpl.
  rewrite !fn_lookup_insert. split_and!; try done.
  intros x Hx. by rewrite fn_lookup_insert_ne.
Qed.

(** X4. When [add] without [if_present] returns, it returns the entity
    it was given, having made four calls: the [pre_add] hook, the
    collection handle, one insert of the serialized entity without null
    identity fields, the [post_add] hook. The entity then has the key and
    the revision of the server's reply, where the reply has them and they
    are not null, an empty dirty set, and is attached. The listeners are
    assumed to leave collection, identity, dirty set and attachment of
    entities alone. *)
Theorem add_writes_identity_back (entity : ref) (w : World) (r : ref)
    (w' : World) :
  listeners_keep_entities ->
  add entity VNone w = (Ok r, w') ->
  let e := store w entity in
  let c := __collection__ e in
  let data := _entity_pre_process (model_dump e) in
  let res :=
    insert_reply (trace w ++ [EDispatch entity pre_add; ECollection c]) c data in
  r = entity
  /\ trace w'
     = (trace w ++ [EDispatch entity pre_add; ECollection c; EInsert c data;
                    EDispatch entity post_add])%list
  /\ key_ (store w' entity) = written (res !! "_key") (key_ e)
  /\ rev_ (store w' entity) = written (res !! "_rev") (rev_ e)
  /\ _dirty (store w' entity) = ∅
  /\ _db (store w' entity) = true.
Proof.
  intros Hk Hrun e c data res.
  unfold add in Hrun. simpl in Hrun. rewrite bind_get_entity in Hrun.
  simpl in Hrun. unfold add_insert in Hrun.
  rewrite bind_get_entity in Hrun. fold e in Hrun. fold data in Hrun.
  apply bind_ok_inv in Hrun as ([] & w1 & E1 & Hrun).
  apply (dispatch_keeps _ _ _ _ Hk) in E1 as (T1 & S1).
  rewrite bind_get_entity, bind_collection in Hrun.
  destruct (S1 entity) as (C1 & K1 & R1 & D1 & B1).
  fold e in C1, K1, R1, D1, B1. rewrite C1 in Hrun. fold c in Hrun.
  apply bind_ok_inv in Hrun as ([] & w2 & E2 & Hrun).
  destruct (attach_db_entity entity (record (ECollection c) w1))
    as (? & E & T2 & _ & C2 & K2 & R2 & D2 & B2).
  rewrite E in E2. injection E2 as ->. clear E. simpl in *.
  apply bind_ok_inv in Hrun as (res' & w3 & E3 & Hrun).
  apply remote_ok_inv in E3 as (_ & -> & ->).
  assert (Hres : insert_reply (trace w2) c data = res).
  { unfold res. rewrite T2, T1. by rewrite <- app_assoc. }
  rewrite Hres in Hrun.
  apply bind_ok_inv in Hrun as ([] & w4 & E4 & Hrun).
  destruct (post_process_identity entity res (record (EInsert c data) w2))
    as (? & E & T4 & _ & K4 & R4 & D4 & B4 & C4 & _).
  rewrite E in E4. injection E4 as ->. clear E. simpl in *.
  apply bind_ok_inv in Hrun as ([] & w5 & E5 & Hrun).
  destruct (dirty_clear_entity entity w4)
    as (? & E & T5 & _ & C5 & K5 & R5 & D5 & B5).
  rewrite E in E5. injection E5 as ->. clear E.
  apply bind_ok_inv in Hrun as ([] & w6 & E6 & Hrun).
  apply (dispatch_keeps _ _ _ _ Hk) in E6 as (T6 & S6).
  injection Hrun as <- <-.
  destruct (S6 entity) as (C6 & K6 & R6 & D6 & B6).
  split_and!.
  - done.
  - rewrite T6, T5, T4, T2, T1. by rewrite <- !app_assoc.
  - rewrite K6, K5, K4, K2, K1. done.
  - rewrite R6, R5, R4, R2, R1. done.
  - by rewrite D6.
  - rewrite B6, B5, B4. done.
Qed.


(** X5. When [update] returns after a write (it was not the no-op of
    [only_dirty] with an empty dirty set), it returns the entity it was
    given, having made four calls: the collection handle, the
    [pre_update] hook, one update, the [post_update] hook. What it sent
    is the serialization of the entity as the hook left it, restricted to
    [_key] and the dirty fields under [only_dirty], without null identity
    fields. The entity then has the key and revision of the reply, where
    the reply has them and they are not null, an empty dirty set, and is
    attached. Same assumption on the listeners. *)
Theorem update_writes_identity_back (entity : ref) (only_dirty : bool)
    (w : World) (r : ref) (w' : World) :
  listeners_keep_entities ->
  (only_dirty = true -> _dirty (store w entity) <> ∅) ->
  update entity only_dirty w = (Ok r, w') ->
  exists s1,
    listener pre_update entity (store w) = Some s1
    /\ let e := store w entity in
       let c := __collection__ e in
       let data :=
         _entity_pre_process
           (if only_dirty
            then dirty_payload (model_dump (s1 entity)) (_dirty (s1 entity))
            else model_dump (s1 entity)) in
       let h := (trace w ++ [ECollection c; EDispatch entity pre_update])%list in
       let res := update_reply h c data in
       r = entity
       /\ trace w' = (h ++ [EUpdate c data; EDispatch entity post_update])%list
       /\ key_ (store w' entity) = written (res !! "_key") (key_ e)
       /\ rev_ (store w' entity) = written (res !! "_rev") (rev_ e)
       /\ _dirty (store w' entity) = ∅
       /\ _db (store w' entity) = true.
Proof.
  intros Hk Hd Hrun.
  unfold update in Hrun. rewrite bind_get_entity, bind_collection in Hrun.
  assert (Hgo : only_dirty && bool_decide (_dirty (store w entity) = ∅) = false).
  { destruct only_dirty; [| done]. simpl.
    apply bool_decide_eq_false_2. by apply Hd. }
  rewrite Hgo in Hrun.
  apply bind_ok_inv in Hrun as ([] & w1 & E1 & Hrun).
  pose proof E1 as E1'. apply dispatch_ok_inv in E1' as (s1 & Hl & Hw1).
  apply (dispatch_keeps _ _ _ _ Hk) in E1 as (T1 & S1).
  exists s1. split; [exact Hl |]. intros e c data h res.
  rewrite bind_get_entity in Hrun.
  destruct (S1 entity) as (C1 & K1 & R1 & D1 & B1). simpl in C1, K1, R1, D1, B1.
  assert (Hs1 : store w1 = s1) by (by rewrite Hw1).
  rewrite Hs1 in Hrun. fold data in Hrun.
  apply bind_ok_inv in Hrun as ([] & w2 & E2 & Hrun).
  destruct (attach_db_entity entity w1)
    as (? & E & T2 & _ & C2 & K2 & R2 & D2 & B2).
  rewrite E in E2. injection E2 as ->. clear E.
  apply bind_ok_inv in Hrun as (res' & w3 & E3 & Hrun).
  apply remote_ok_inv in E3 as (_ & -> & ->).
  assert (Hh : trace w2 = h).
  { rewrite T2, T1. unfold h. simpl. by rewrite <- app_assoc. }
  rewrite Hh in Hrun. fold e in Hrun. fold c in Hrun. fold res in Hrun.
  apply bind_ok_inv in Hrun as ([] & w4 & E4 & Hrun).
  destruct (dirty_clear_entity entity (record (EUpdate c data) w2))
    as (? & E & T4 & _ & C4 & K4 & R4 & D4 & B4).
  rewrite E in E4. injection E4 as ->. clear E. simpl in *.
  apply bind_ok_inv in Hrun as ([] & w5 & E5 & Hrun).
  destruct (post_process_identity entity res w4)
    as (? & E & T5 & _ & K5 & R5 & D5 & B5 & C5 & _).
  rewrite E in E5. injection E5 as ->. clear E.
  apply bind_ok_inv in Hrun as ([] & w6 & E6 & Hrun).
  apply (dispatch_keeps _ _ _ _ Hk) in E6 as (T6 & S6).
  injection Hrun as <- <-.
  destruct (S6 entity) as (C6 & K6 & R6 & D6 & B6).
  split_and!.
  - done.
  - rewrite T6, T5, T4, Hh. by rewrite <- !app_assoc.
  - rewrite K6, K5, K4, K2, K1. done.
  - rewrite R6, R5, R4, R2, R1. done.
  - rewrite D6. rewrite D4 in D5. set_solver.
  - rewrite B6, B5, B4. done.
Qed.

(** X6. What [add] inserts is the serialization of the entity as it was
    when [add] was called: the [pre_add] listeners run after it is taken
    and cannot change it. What a full [update] sends is the serialization
    of the entity as the [pre_update] listeners left it. *)
Theorem hooks_and_payloads (entity : ref) (w : World) :
  (exists t,
      trace (add entity VNone w).2 = (trace w ++ t)%list
      /\ Forall (inserts (_entity_pre_process (model_dump (store w entity)))) t)
  /\ (exists t,
      trace (update entity false w).2 = (trace w ++ t)%list
      /\ Forall (updates (fun d =>
                   exists s1,
                     listener pre_update entity (store w) = Some s1
                     /\ d = _entity_pre_process (model_dump (s1 entity)))) t).
Proof.
  split.
  - unfold add. simpl. rewrite bind_get_entity. simpl.
    unfold add_insert. rewrite bind_get_entity.
    set (data := _entity_pre_process (model_dump (store w entity))).
    match goal with
    | |- context [trace (?m w).2] =>
        assert (Hm : emits (inserts data) (fun _ => True) m)
    end.
    { do 4 emits_next.
      eapply emits_bind with (R := fun _ => True); [by apply emits_remote |].
      intros res _. do 3 emits_next. by apply emits_ret. }
    destruct (Hm w) as (t & Ht & HP & _). eauto.
  - unfold update. rewrite bind_get_entity, bind_collection.
    rewrite andb_false_l.
    set (c := __collection__ (store w entity)).
    unfold bind at 1.
    destruct (dispatch entity pre_update (record (ECollection c) w))
      as [[[]|x] w1] eqn:Ed.
    + apply dispatch_ok_inv in Ed as (s1 & Hl & ->).
      cbv beta. rewrite bind_get_entity. simpl store.
      set (data := _entity_pre_process (model_dump (s1 entity))).
      match goal with
      | |- context [trace (?m ?w0).2] =>
          assert (Hm : emits (updates (fun d => d = data)) (fun _ => True) m)
      end.
      { emits_next.
        eapply emits_bind with (R := fun _ => True); [by apply emits_remote |].
        intros res _. do 3 emits_next. by apply emits_ret. }
      match goal with
      | |- context [trace (?m ?w0).2] => destruct (Hm w0) as (t & Ht & HP & _)
      end.
      exists ([ECollection c; EDispatch entity pre_update] ++ t)%list.
      split; [rewrite Ht; simpl; by rewrite <- !app_assoc |].
      apply Forall_app. split; [by repeat constructor |].
      eapply Forall_impl; [exact HP |].
      intros [] Hev; try done. simpl in Hev |- *. eauto.
    + unfold dispatch in Ed.
      destruct (listener pre_update entity _); [done |].
      injection Ed as <- <-.
      exists [ECollection c; EDispatch entity pre_update].
      split; [simpl; by rewrite <- !app_assoc | by repeat constructor].
Qed.

(** X7. For an entity whose key is [None] (or another falsy value),
    [if_present] makes no difference: [add] asks the server nothing about
    the document and inserts it as a plain [add] does. *)
Theorem add_if_present_needs_key (entity : ref) (if_present : PyVal)
    (w : World) :
  if_present ∈ [VNone; VStr "ignore"; VStr "update"] ->
  truthy (key_ (store w entity)) = false ->
  add entity if_present w = add entity VNone w.
Proof.
  intros Hin Hk. unfold add.
  rewrite (bool_decide_eq_true_2 _ Hin).
  rewrite (bool_decide_eq_true_2 (VNone ∈ _)) by (by left).
  change (negb true) with false. cbv iota.
  rewrite !bind_get_entity, Hk, andb_false_r. done.
Qed.

Lemma add_plain entity w : add entity VNone w = add_insert entity w.
Proof. reflexivity. Qed.

Lemma add_checks_presence entity if_present w :
  if_present = VStr "ignore" \/ if_present = VStr "update" ->
  truthy (key_ (store w entity)) = true ->
  let c := __collection__ (store w entity) in
  let key := key_ (store w entity) in
  client_ok (trace w ++ [ECollection c]) (EHas c key) = true ->
  add entity if_present w
  = (let w1 := record (EHas c key) (record (ECollection c) w) in
     if has_reply (trace w ++ [ECollection c]) c key then
       if decide (if_present = VStr "ignore") then
         (let* _ := attach_db entity in ret entity) w1
       else update entity false w1
     else add_insert entity w1).
Proof.
  intros Hip Hk c key Hok. unfold add.
  rewrite bool_decide_eq_true_2
    by (destruct Hip as [-> | ->]; [right; left | right; right; left]).
  change (negb true) with false. cbv iota.
  rewrite bind_get_entity, Hk.
  assert (Ht : truthy if_present = true) by (by destruct Hip as [-> | ->]).
  rewrite Ht. rewrite andb_true_l.
  unfold exists_ at 1. unfold bind at 1.
  rewrite bind_get_entity, bind_collection.
  fold c. fold key. unfold remote at 1. simpl trace. rewrite Hok.
  cbv zeta.
  destruct (has_reply _ c key); [| done].
  destruct (decide (if_present = VStr "ignore")); [done |].
  destruct Hip as [-> | ->]; [done |].
  by rewrite decide_True.
Qed.

(** X8. [add] with [if_present="ignore"] for a keyed entity whose document
    the server has: the only calls are the collection handle and the
    existence check; no hook is dispatched and nothing is written. The
    entity is returned attached and otherwise as it was: its dirty set is
    not cleared, its key and revision are not refreshed. *)
Theorem add_ignore_leaves_present (entity : ref) (w : World) :
  let e := store w entity in
  let c := __collection__ e in
  truthy (key_ e) = true ->
  client_ok (trace w ++ [ECollection c]) (EHas c (key_ e)) = true ->
  has_reply (trace w ++ [ECollection c]) c (key_ e) = true ->
  exists w',
    add entity (VStr "ignore") w = (Ok entity, w')
    /\ trace w' = (trace w ++ [ECollection c; EHas c (key_ e)])%list
    /\ (forall x, x <> entity -> store w' x = store w x)
    /\ _db (store w' entity) = true
    /\ _dirty (store w' entity) = _dirty e
    /\ key_ (store w' entity) = key_ e
    /\ rev_ (store w' entity) = rev_ e.
Proof.
  intros e c Hk Hok Hhas.
  rewrite (add_checks_presence entity (VStr "ignore") w) by (done || by left).
  fold e. fold c. rewrite Hhas. rewrite decide_True by done. cbv zeta.
  set (w1 := record _ _).
  destruct (attach_db_entity entity w1)
    as (w2 & E & T2 & O2 & C2 & K2 & R2 & D2 & B2).
  exists w2. split; [by rewrite (bind_ok _ _ _ _ _ E) |].
  split_and!; try done.
  rewrite T2. unfold w1. simpl. by rewrite <- app_assoc.
Qed.

(** X9. [add] with [if_present] set, for a keyed entity, after the
    existence check: when the server does not have the document, the
    entity is inserted as by a plain [add]; when it has it and
    [if_present="update"], the call is [update(entity)], a full update
    with the update hooks and no add hook. *)
Theorem add_if_present_delegates (entity : ref) (if_present : PyVal)
    (w : World) :
  let c := __collection__ (store w entity) in
  let key := key_ (store w entity) in
  let w1 := record (EHas c key) (record (ECollection c) w) in
  if_present = VStr "ignore" \/ if_present = VStr "update" ->
  truthy key = true ->
  client_ok (trace w ++ [ECollection c]) (EHas c key) = true ->
  (has_reply (trace w ++ [ECollection c]) c key = false ->
   add entity if_present w = add entity VNone w1)
  /\ (has_reply (trace w ++ [ECollection c]) c key = true ->
      add entity (VStr "update") w = update entity false w1).
Proof.
  intros c key w1 Hip Hk Hok. split; intros Hhas.
  - rewrite (add_checks_presence entity if_present w) by done.
    fold c. fold key. rewrite Hhas. cbv zeta. fold w1.
    by rewrite add_plain.
  - rewrite (add_checks_presence entity (VStr "update") w) by (done || by right).
    fold c. fold key. rewrite Hhas. cbv zeta. by rewrite decide_False.
Qed.

(** What [delete] does when it returns. *)
Lemma delete_ok_run entity w r w' :
  listeners_keep_entities ->
  delete entity w = (Ok r, w') ->
  r = entity
  /\ trace w'
     = (trace w ++ delete_calls entity (__collection__ (store w entity))
                                (key_ (store w entity)))%list
  /\ same_entities w w'.
Proof.
  intros Hk Hrun. unfold delete in Hrun.
  apply bind_ok_inv in Hrun as ([] & w1 & E1 & Hrun).
  apply (dispatch_keeps _ _ _ _ Hk) in E1 as (T1 & S1).
  rewrite bind_get_entity, bind_collection in Hrun.
  destruct (S1 entity) as (C1 & K1 & _). rewrite C1, K1 in Hrun.
  apply bind_ok_inv in Hrun as ([] & w2 & E2 & Hrun).
  apply remote_ok_inv in E2 as (_ & _ & ->).
  apply bind_ok_inv in Hrun as ([] & w3 & E3 & Hrun).
  apply (dispatch_keeps _ _ _ _ Hk) in E3 as (T3 & S3).
  injection Hrun as <- <-.
  split; [done |]. split.
  - rewrite T3. simpl. rewrite T1. by rewrite <- !app_assoc.
  - intros x. destruct (S1 x) as (? & ? & ? & ? & ?).
    destruct (S3 x) as (? & ? & ? & ? & ?). simpl in *.
    split_and!; congruence.
Qed.

(** X10. When [delete] returns, it returns the entity it was given,
    having made four calls: the [pre_delete] hook, the collection handle,
    one delete by the key of the entity, the [post_delete] hook. It leaves
    the entity as it was: key, revision, dirty set and attachment are kept.
    Same assumption on the listeners. *)
Theorem delete_keeps_entity (entity : ref) (w : World) (r : ref) (w' : World) :
  listeners_keep_entities ->
  delete entity w = (Ok r, w') ->
  r = entity
  /\ trace w'
     = (trace w ++ delete_calls entity (__collection__ (store w entity))
                                (key_ (store w entity)))%list
  /\ same_entities w w'.
Proof. apply delete_ok_run. Qed.

Lemma bulk_delete_loop_ok entity_list acc w res w' :
  listeners_keep_entities ->
  bulk_delete_loop entity_list acc w = (Ok res, w') ->
  res = (acc ++ entity_list)%list
  /\ trace w'
     = (trace w
        ++ concat (map (fun x => delete_calls x (__collection__ (store w x))
                                              (key_ (store w x)))
                       entity_list))%list
  /\ same_entities w w'.
Proof.
  intros Hk. revert acc w res w'.
  induction entity_list as [|x rest IH]; intros acc w res w' Hrun.
  - injection Hrun as <- <-. rewrite !app_nil_r.
    split; [done |]. split; [done |]. apply same_entities_refl.
  - simpl in Hrun.
    apply bind_ok_inv in Hrun as (r & w1 & E1 & Hrun).
    apply (delete_ok_run _ _ _ _ Hk) in E1 as (-> & T1 & S1).
    apply IH in Hrun as (-> & T & S).
    split; [by rewrite <- app_assoc |]. split.
    + rewrite T, T1. cbn [map concat]. rewrite <- app_assoc. do 3 f_equal.
      apply map_ext. intros y.
      destruct (S1 y) as (-> & -> & _). done.
    + intros y. destruct (S1 y) as (? & ? & ? & ? & ?).
      destruct (S y) as (? & ? & ? & ? & ?).
      split_and!; congruence.
Qed.

(** X11. When [bulk_delete] returns, it returns the list it was given,
    the same entities in the same order, and what it has done is one
    [delete] per element of the list, in order: the four calls of each,
    one after the other, nothing batched. An entity listed twice is
    deleted twice. Same assumption on the listeners. *)
Theorem bulk_delete_deletes_each (entity_list : list ref) (w : World)
    (res : list ref) (w' : World) :
  listeners_keep_entities ->
  bulk_delete entity_list w = (Ok res, w') ->
  res = entity_list
  /\ trace w'
     = (trace w
        ++ concat (map (fun x => delete_calls x (__collection__ (store w x))
                                              (key_ (store w x)))
                       entity_list))%list
  /\ same_entities w w'.
Proof.
  intros Hk Hrun. by apply bulk_delete_loop_ok in Hrun.
Qed.

Lemma bulk_delete_loop_app pre rest acc w res w1 :
  bulk_delete_loop pre acc w = (Ok res, w1) ->
  bulk_delete_loop (pre ++ rest) acc w = bulk_delete_loop rest res w1.
Proof.
  revert acc w. induction pre as [|x pre IH]; intros acc w Hrun.
  - by injection Hrun as <- <-.
  - simpl in Hrun |- *.
    apply bind_ok_inv in Hrun as (r & w0 & E & Hrun).
    rewrite (bind_ok _ _ _ _ _ E). by apply IH.
Qed.

(** X12. [bulk_delete] is not atomic: when the [delete] of one entity
    raises, [bulk_delete] raises that error there and then. The entities
    before it in the list have been deleted and stay deleted, the ones
    after it are not touched, and the results collected so far are
    lost. *)
Theorem bulk_delete_stops_at_failure (pre : list ref) (r : ref)
    (post : list ref) (w : World) (res : list ref) (w1 : World) (x : Exn)
    (w2 : World) :
  bulk_delete pre w = (Ok res, w1) ->
  delete r w1 = (Raise x, w2) ->
  bulk_delete (pre ++ r :: post) w = (Raise x, w2).
Proof.
  intros Hpre Hr. unfold bulk_delete in *.
  rewrite (bulk_delete_loop_app _ _ _ _ _ _ Hpre). simpl.
  unfold bind. by rewrite Hr.
Qed.

(** One turn of the loop of [_entity_pre_process]. *)
Lemma strip_one (data : Doc) (k0 k : string) :
  match data !! k0 with
  | Some VNone => base.delete k0 data
  | _ => data
  end !! k
  = if bool_decide (k = k0) && bool_decide (data !! k = Some VNone)
    then None
    else data !! k.
Proof.
  destruct (decide (k = k0)) as [->|Hne].
  - rewrite (bool_decide_eq_true_2 (k0 = k0)) by done. rewrite andb_true_l.
    destruct (data !! k0) as [v|] eqn:E.
    + destruct (decide (v = VNone)) as [->|Hv].
      * rewrite bool_decide_eq_true_2 by done. by rewrite lookup_delete_eq.
      * rewrite bool_decide_eq_false_2 by congruence. by destruct v.
    + by rewrite bool_decide_eq_false_2.
  - rewrite (bool_decide_eq_false_2 (k = k0)) by done. rewrite andb_false_l.
    destruct (data !! k0) as [[]|]; try done. by rewrite lookup_delete_ne.
Qed.

Lemma pre_process_lookup (data : Doc) (k : string) :
  _entity_pre_process data !! k = stripped k (data !! k).
Proof.
  unfold _entity_pre_process, stripped. cbn [fold_left].
  rewrite (strip_one _ "_rev" k), (strip_one data "_key" k).
  destruct (decide (k = "_key")) as [->|Hkey].
  - rewrite (bool_decide_eq_false_2 ("_key" = "_rev")) by done.
    rewrite (bool_decide_eq_true_2 ("_key" = "_key")) by done.
    rewrite (bool_decide_eq_true_2 (_ \/ _)) by (by left).
    by rewrite andb_false_l, !andb_true_l.
  - rewrite (bool_decide_eq_false_2 (k = "_key")) by done.
    rewrite !andb_false_l.
    destruct (decide (k = "_rev")) as [->|Hrev].
    + rewrite (bool_decide_eq_true_2 (_ \/ _)) by (by right).
      by rewrite bool_decide_eq_true_2.
    + rewrite (bool_decide_eq_false_2 (_ \/ _)) by naive_solver.
      by rewrite bool_decide_eq_false_2.
Qed.

(** X13. [_entity_pre_process] removes [_key] and [_rev] exactly when
    they are bound to [None]; every other entry of the payload, a null
    field that is not an identity field included, is left as it is. *)
Theorem pre_process_strips_null_identity (data : Doc) (k : string) :
  _entity_pre_process data !! k = stripped k (data !! k).
Proof. apply pre_process_lookup. Qed.


Lemma dirty_payload_lookup (data : Doc) (dirty : gset string) (k : string) :
  dirty_payload data dirty !! k
  = if bool_decide (k = "_key" \/ k ∈ dirty) then data !! k else None.
Proof.
  unfold dirty_payload. case_bool_decide as Hk.
  - destruct (data !! k) as [v|] eqn:E.
    + by apply map_lookup_filter_Some_2.
    + apply map_lookup_filter_None_2. by left.
  - apply map_lookup_filter_None_2. right. intros v _. done.
Qed.

(** X14. What [update] with [only_dirty] sends holds [_key] and the
    fields named in the dirty set, and nothing else: each with the value
    the serializer gives it, taken after the [pre_update] listeners have
    run, a null [_key] or [_rev] left out. *)
Theorem dirty_update_sends_dirty_fields (entity : ref) (w : World) :
  exists t,
    trace (update entity true w).2 = (trace w ++ t)%list
    /\ Forall
         (updates (fun d =>
            exists s1,
              listener pre_update entity (store w) = Some s1
              /\ forall k,
                   d !! k
                   = if bool_decide (k = "_key" \/ k ∈ _dirty (s1 entity))
                     then stripped k (model_dump (s1 entity) !! k)
                     else None)) t.
Proof.
  unfold update. rewrite bind_get_entity, bind_collection.
  rewrite andb_true_l.
  set (c := __collection__ (store w entity)).
  destruct (bool_decide (_dirty (store w entity) = ∅)).
  { exists [ECollection c]. split; [done | by repeat constructor]. }
  unfold bind at 1.
  destruct (dispatch entity pre_update (record (ECollection c) w))
    as [[[]|x] w1] eqn:Ed.
  - apply dispatch_ok_inv in Ed as (s1 & Hl & ->).
    cbv beta. rewrite bind_get_entity. simpl store.
    set (data := _entity_pre_process
                   (dirty_payload (model_dump (s1 entity)) (_dirty (s1 entity)))).
    match goal with
    | |- context [trace (?m ?w0).2] =>
        assert (Hm : emits (updates (fun d => d = data)) (fun _ => True) m)
    end.
    { emits_next.
      eapply emits_bind with (R := fun _ => True); [by apply emits_remote |].
      intros res _. do 3 emits_next. by apply emits_ret. }
    match goal with
    | |- context [trace (?m ?w0).2] => destruct (Hm w0) as (t & Ht & HP & _)
    end.
    exists ([ECollection c; EDispatch entity pre_update] ++ t)%list.
    split; [rewrite Ht; simpl; by rewrite <- !app_assoc |].
    apply Forall_app. split; [by repeat constructor |].
    eapply Forall_impl; [exact HP |].
    intros [] Hev; try done. simpl in Hev |- *. subst doc.
    exists s1. split; [done |]. intros k. unfold data.
    rewrite pre_process_lookup, dirty_payload_lookup.
    destruct (bool_decide (k = "_key" \/ _)); [done |].
    unfold stripped. by destruct (_ && _).
  - unfold dispatch in Ed.
    destruct (listener pre_update entity _); [done |].
    injection Ed as <- <-.
    exists [ECollection c; EDispatch entity pre_update].
    split; [simpl; by rewrite <- !app_assoc | by repeat constructor].
Qed.

(** *** The groups and the batched calls of [bulk_update] *)

Lemma bulk_update_collect_grouped coll entity_list only_dirty :
  listeners_keep_collection ->
  forall processed collections w collections' w',
    (forall x, __collection__ (store w x) = coll x) ->
    grouped coll processed collections ->
    bulk_update_collect entity_list only_dirty collections w
    = (Ok (inr collections'), w') ->
    grouped coll (processed ++ entity_list) collections'
    /\ (forall x, __collection__ (store w' x) = coll x)
    /\ exists t, trace w' = (trace w ++ t)%list
                 /\ Forall (fun ev => is_batch ev = false) t.
Proof.
  intros Hk.
  induction entity_list as [|e rest IH];
    intros processed collections w collections' w' Hcoll Hg Hrun.
  - injection Hrun as <- <-. rewrite app_nil_r.
    split; [done |]. split; [done |]. exists []. by rewrite app_nil_r.
  - simpl in Hrun. rewrite bind_get_entity, bind_collection in Hrun.
    destruct (only_dirty && _); [done |].
    apply bind_ok_inv in Hrun as ([] & w1 & E1 & Hrun).
    apply dispatch_ok_inv in E1 as (s1 & L1 & ->).
    rewrite bind_get_entity in Hrun.
    apply bind_ok_inv in Hrun as ([] & w2 & E2 & Hrun).
    assert (H1 : forall x, __collection__ (s1 x) = coll x).
    { intros x. rewrite (Hk _ _ _ _ L1 x). apply Hcoll. }
    assert (H2 : forall x, __collection__ (store w2 x) = coll x).
    { intros x. pose proof (attach_db_collection e
        {| store := s1;
           trace := (trace (record (ECollection (__collection__ (store w e))) w)
                     ++ [EDispatch e pre_update])%list |} x) as Ha.
      rewrite E2 in Ha. simpl in Ha. rewrite Ha. apply H1. }
    simpl store in Hrun. rewrite H1, Hcoll in Hrun.
    eapply IH in Hrun as (Hg' & Hc' & t & Ht & Hb);
      [| exact H2 | by apply grouped_file].
    rewrite <- app_assoc in Hg'. split; [exact Hg' |]. split; [done |].
    assert (T2 : trace w2 = (trace w ++ [ECollection (__collection__ (store w e));
                                         EDispatch e pre_update])%list).
    { injection E2 as <-. simpl. by rewrite <- app_assoc. }
    exists ([ECollection (__collection__ (store w e)); EDispatch e pre_update] ++ t)%list.
    split.
    + rewrite Ht, T2. by rewrite <- app_assoc.
    + apply Forall_app. split; [by repeat constructor | done].
Qed.

(** The second loop of [bulk_update]: one batched update per key, in the
    order of the keys. *)
Lemma bulk_update_send_batches (collections : list (string * CollectionDict))
    w w' :
  for_each collections
    (fun item =>
       let data := item.2 in
       let* res :=
         remote (EUpdateMany (collection_model data) (entity_dict_list data))
                (fun h => update_many_reply h (collection_model data)
                                            (entity_dict_list data)) in
       bulk_post post_update (entity_obj_list data) res 0) w
  = (Ok tt, w') ->
  exists t,
    trace w' = (trace w ++ t)%list
    /\ List.filter is_batch t
       = map (fun item => EUpdateMany (collection_model item.2)
                                      (entity_dict_list item.2)) collections.
Proof.
  revert w. induction collections as [|[name data] rest IH]; intros w Hrun.
  - injection Hrun as <-. exists []. by rewrite app_nil_r.
  - simpl in Hrun.
    apply bind_ok_inv in Hrun as ([] & w2 & E & Hrun).
    apply bind_ok_inv in E as (res & w1 & E1 & E2).
    apply remote_ok_inv in E1 as (_ & -> & ->).
    destruct (bulk_post_no_batch post_update (entity_obj_list data)
                (update_many_reply (trace w) (collection_model data)
                                   (entity_dict_list data)) 0
                (record (EUpdateMany (collection_model data)
                                     (entity_dict_list data)) w))
      as (tp & Tp & Pp & _).
    rewrite E2 in Tp. simpl in Tp.
    apply IH in Hrun as (t & Ht & Hf).
    exists (EUpdateMany (collection_model data) (entity_dict_list data)
            :: tp ++ t)%list.
    split.
    + rewrite Ht, Tp. by rewrite <- !app_assoc.
    + simpl. rewrite List.filter_app, (filter_batch_none _ Pp), Hf. done.
Qed.

(** *** The order of the groups, the payloads of a group *)

Lemma first_occurrences_elem (l : list string) (x : string) :
  x ∈ first_occurrences l <-> x ∈ l.
Proof.
  induction l as [|y l IH]; simpl; [done |]. split.
  - intros [->|Hin]%elem_of_cons; [by left |].
    apply list_elem_of_In, filter_In in Hin as [Hin _].
    right. apply IH. by apply list_elem_of_In.
  - intros [->|Hin]%elem_of_cons; [by left |].
    destruct (decide (x = y)) as [->|Hne]; [by left |].
    right. apply list_elem_of_In, filter_In. split.
    + apply list_elem_of_In. by apply IH.
    + by rewrite bool_decide_eq_false_2.
Qed.

Lemma first_occurrences_snoc (l : list string) (k : string) :
  first_occurrences (l ++ [k])
  = if decide (k ∈ l) then first_occurrences l
    else (first_occurrences l ++ [k])%list.
Proof.
  induction l as [|y l IH]; simpl.
  - done.
  - rewrite IH. destruct (decide (k = y)) as [->|Hne].
    + rewrite (decide_True (P := y ∈ y :: l)) by (by left).
      destruct (decide (y ∈ l)); [done |].
      rewrite List.filter_app. simpl.
      rewrite bool_decide_eq_true_2 by done. simpl. by rewrite app_nil_r.
    + destruct (decide (k ∈ l)) as [Hin|Hout].
      * rewrite decide_True by (by right). done.
      * rewrite decide_False by (by intros [?|?]%elem_of_cons).
        rewrite List.filter_app. simpl.
        by rewrite bool_decide_eq_false_2.
Qed.

(** The first loop of [bulk_update] makes a key when it meets a
    collection for the first time, behind the keys it has. *)
Lemma bulk_update_collect_keys coll entity_list only_dirty :
  listeners_keep_collection ->
  forall processed collections w collections' w',
    (forall x, __collection__ (store w x) = coll x) ->
    map fst collections = first_occurrences (map coll processed) ->
    bulk_update_collect entity_list only_dirty collections w
    = (Ok (inr collections'), w') ->
    map fst collections'
    = first_occurrences (map coll (processed ++ entity_list)).
Proof.
  intros Hk.
  induction entity_list as [|e rest IH];
    intros processed collections w collections' w' Hcoll Hkeys Hrun.
  - injection Hrun as <- <-. by rewrite app_nil_r.
  - simpl in Hrun. rewrite bind_get_entity, bind_collection in Hrun.
    destruct (only_dirty && _); [done |].
    apply bind_ok_inv in Hrun as ([] & w1 & E1 & Hrun).
    apply dispatch_ok_inv in E1 as (s1 & L1 & ->).
    rewrite bind_get_entity in Hrun.
    apply bind_ok_inv in Hrun as ([] & w2 & E2 & Hrun).
    assert (H1 : forall x, __collection__ (s1 x) = coll x).
    { intros x. rewrite (Hk _ _ _ _ L1 x). apply Hcoll. }
    assert (H2 : forall x, __collection__ (store w2 x) = coll x).
    { intros x. pose proof (attach_db_collection e
        {| store := s1;
           trace := (trace (record (ECollection (__collection__ (store w e))) w)
                     ++ [EDispatch e pre_update])%list |} x) as Ha.
      rewrite E2 in Ha. simpl in Ha. rewrite Ha. apply H1. }
    simpl store in Hrun. rewrite H1, Hcoll in Hrun.
    eapply (IH (processed ++ [e])%list) in Hrun; [| exact H2 |].
    + by rewrite <- app_assoc in Hrun.
    + unfold file_entity. rewrite dict_set_keys, map_app, Hkeys. simpl.
      rewrite first_occurrences_snoc.
      destruct (decide (coll e ∈ first_occurrences (map coll processed)))
        as [Hin|Hout].
      * apply (proj1 (first_occurrences_elem _ _)) in Hin.
        by rewrite decide_True.
      * rewrite decide_False; [done |].
        intros Hin. by apply Hout, (proj2 (first_occurrences_elem _ _)).
Qed.

Lemma payloads_file coll (pay : ref -> Doc) processed collections e :
  grouped coll processed collections ->
  (forall name cd,
      (name, cd) ∈ collections ->
      entity_dict_list cd = map pay (entity_obj_list cd)) ->
  forall name cd,
    (name, cd) ∈ file_entity collections (coll e) (coll e) e (pay e) ->
    entity_dict_list cd = map pay (entity_obj_list cd).
Proof.
  intros (Hnd & _ & _) Hpay name cd Hin. unfold file_entity in Hin.
  apply dict_elem_get in Hin; [| by apply dict_set_NoDup].
  rewrite dict_set_get in Hin.
  destruct (decide (coll e = name)) as [<-|Hne].
  - injection Hin as <-. simpl.
    destruct (dict_get collections (coll e)) as [old|] eqn:Eold; [| done].
    apply dict_get_elem, Hpay in Eold. rewrite Eold, map_app. done.
  - by apply dict_get_elem, Hpay in Hin.
Qed.

(** When the listeners leave what is serialized alone, the first loop of
    [bulk_update] files each entity with its payload as of the call. *)
Lemma bulk_update_collect_payloads coll (s0 : Store) entity_list only_dirty :
  listeners_keep_collection -> listeners_keep_dump -> dump_ignores_db ->
  forall processed collections w collections' w',
    (forall x, __collection__ (store w x) = coll x) ->
    (forall x, model_dump (store w x) = model_dump (s0 x)
               /\ _dirty (store w x) = _dirty (s0 x)) ->
    grouped coll processed collections ->
    (forall name cd,
        (name, cd) ∈ collections ->
        entity_dict_list cd
        = map (fun x => update_payload only_dirty (s0 x)) (entity_obj_list cd)) ->
    bulk_update_collect entity_list only_dirty collections w
    = (Ok (inr collections'), w') ->
    forall name cd,
      (name, cd) ∈ collections' ->
      entity_dict_list cd
      = map (fun x => update_payload only_dirty (s0 x)) (entity_obj_list cd).
Proof.
  intros Hk Hdump Hdb.
  induction entity_list as [|e rest IH];
    intros processed collections w collections' w' Hcoll Hsame Hg Hpay Hrun.
  - by injection Hrun as <- <-.
  - simpl in Hrun. rewrite bind_get_entity, bind_collection in Hrun.
    destruct (only_dirty && _); [done |].
    apply bind_ok_inv in Hrun as ([] & w1 & E1 & Hrun).
    apply dispatch_ok_inv in E1 as (s1 & L1 & ->).
    rewrite bind_get_entity in Hrun.
    apply bind_ok_inv in Hrun as ([] & w2 & E2 & Hrun).
    assert (H1 : forall x, __collection__ (s1 x) = coll x).
    { intros x. rewrite (Hk _ _ _ _ L1 x). apply Hcoll. }
    assert (S1 : forall x, model_dump (s1 x) = model_dump (s0 x)
                          /\ _dirty (s1 x) = _dirty (s0 x)).
    { intros x. destruct (Hdump _ _ _ _ L1 x) as [-> ->]. apply Hsame. }
    assert (H2 : forall x, __collection__ (store w2 x) = coll x).
    { intros x. pose proof (attach_db_collection e
        {| store := s1;
           trace := (trace (record (ECollection (__collection__ (store w e))) w)
                     ++ [EDispatch e pre_update])%list |} x) as Ha.
      rewrite E2 in Ha. simpl in Ha. rewrite Ha. apply H1. }
    assert (S2 : forall x, model_dump (store w2 x) = model_dump (s0 x)
                          /\ _dirty (store w2 x) = _dirty (s0 x)).
    { intros x. injection E2 as <-. simpl.
      destruct (decide (x = e)) as [->|Hne].
      - rewrite fn_lookup_insert. destruct (S1 e) as [<- <-].
        split; [apply Hdb | done].
      - rewrite fn_lookup_insert_ne by done. apply S1. }
    simpl store in Hrun. rewrite H1, Hcoll in Hrun.
    assert (Hdata :
      _entity_pre_process
        (if only_dirty then dirty_payload (model_dump (s1 e)) (_dirty (s1 e))
         else model_dump (s1 e))
      = update_payload only_dirty (s0 e)).
    { unfold update_payload. by destruct (S1 e) as [-> ->]. }
    rewrite Hdata in Hrun.
    eapply (IH (processed ++ [e])%list); [exact H2 | exact S2 | | | exact Hrun].
    + by apply grouped_file.
    + by apply (payloads_file coll (fun x => update_payload only_dirty (s0 x))
                  processed).
Qed.

(** X15. When [bulk_update] returns the mapping: its keys are the
    collections of the entities given, each once, in the order in which
    they first occur in the list; under each key are the entities of that
    collection in the order given, with one payload each; and the batched
    calls made are one [update_many] per key, in the order of the keys,
    sent to the collection of the key with the payloads of its group.
    When moreover the listeners leave what is serialized of the entities
    and their dirty sets alone, and the serializer does not dump [_db],
    the payloads of a group are those of its entities as they were at the
    call, in the order of the entities: the serialized entity, restricted
    to [_key] and its dirty fields under [only_dirty], without null
    identity fields. The listeners are assumed not to move an entity to
    another collection. *)
Theorem bulk_update_batches (entity_list : list ref) (only_dirty : bool)
    (w : World) (collections : list (string * CollectionDict)) (w' : World) :
  listeners_keep_collection ->
  bulk_update entity_list only_dirty w
  = (Ok (ReturnedCollections collections), w') ->
  map fst collections
  = first_occurrences (map (fun e => __collection__ (store w e)) entity_list)
  /\ grouped (fun e => __collection__ (store w e)) entity_list collections
  /\ (listeners_keep_dump -> dump_ignores_db ->
      forall name cd,
        (name, cd) ∈ collections ->
        entity_dict_list cd
        = map (fun e => update_payload only_dirty (store w e))
              (entity_obj_list cd))
  /\ exists t,
      trace w' = (trace w ++ t)%list
      /\ List.filter is_batch t
         = map (fun item => EUpdateMany item.1 (entity_dict_list item.2))
               collections.
Proof.
  intros Hk Hrun. unfold bulk_update in Hrun.
  apply bind_ok_inv in Hrun as (collected & w1 & E1 & Hrun).
  destruct collected as [entity | cols]; [done |].
  apply bind_ok_inv in Hrun as ([] & w2 & E2 & Hrun).
  injection Hrun as <- <-.
  pose proof E1 as Ekeys. pose proof E1 as Epay.
  eapply (bulk_update_collect_keys (fun e => __collection__ (store w e))
            _ _ Hk []) in Ekeys; [| done | done].
  eapply (bulk_update_collect_grouped (fun e => __collection__ (store w e))
            _ _ Hk []) in E1 as (Hg & _ & t1 & T1 & P1);
    [| done | apply grouped_nil].
  simpl in Hg, Ekeys. split; [done |]. split; [done |]. split.
  { intros Hdump Hdb.
    eapply (bulk_update_collect_payloads (fun e => __collection__ (store w e))
              (store w) _ _ Hk Hdump Hdb []);
      [| | apply grouped_nil | | exact Epay]; try done.
    intros name cd Hin. by apply elem_of_nil in Hin. }
  apply bulk_update_send_batches in E2 as (t2 & T2 & F2).
  exists (t1 ++ t2)%list. split.
  - rewrite T2, T1. by rewrite <- app_assoc.
  - rewrite List.filter_app, (filter_batch_none _ P1), F2. simpl.
    apply map_ext_in. intros [name cd] Hin. simpl.
    destruct Hg as (_ & _ & Hgroups).
    apply list_elem_of_In, Hgroups in Hin as (_ & _ & ->). done.
Qed.

(** *** Positional write-back *)

Lemma bulk_post_run post entity_obj_list (res : list Doc) num w w' :
  listeners_keep_entities ->
  NoDup entity_obj_list ->
  bulk_post post entity_obj_list res num w = (Ok tt, w') ->
  trace w' = (trace w ++ map (fun x => EDispatch x post) entity_obj_list)%list
  /\ (forall i x,
        entity_obj_list !! i = Some x ->
        exists r,
          res !! (num + i)%nat = Some r
          /\ key_ (store w' x) = written (r !! "_key") (key_ (store w x))
          /\ rev_ (store w' x) = written (r !! "_rev") (rev_ (store w x))
          /\ _dirty (store w' x) = ∅)
  /\ (forall y, y ∉ entity_obj_list ->
        key_ (store w' y) = key_ (store w y)
        /\ rev_ (store w' y) = rev_ (store w y)
        /\ _dirty (store w' y) = _dirty (store w y)).
Proof.
  intros Hk. revert num w.
  induction entity_obj_list as [|x rest IH]; intros num w Hnd Hrun.
  - injection Hrun as <-. simpl. rewrite app_nil_r.
    split; [done |]. split; [| done].
    intros i y Hi. by rewrite lookup_nil in Hi.
  - apply NoDup_cons in Hnd as [Hx Hnd]. simpl in Hrun.
    apply bind_ok_inv in Hrun as ([] & w1 & E1 & Hrun).
    destruct (dirty_clear_entity x w)
      as (? & E & T1 & O1 & C1 & K1 & R1 & D1 & B1).
    rewrite E in E1. injection E1 as ->. clear E.
    apply bind_ok_inv in Hrun as ([] & w2 & E2 & Hrun).
    destruct (res !! num) as [r|] eqn:Er; [| done].
    destruct (post_process_identity x r w1)
      as (? & E & T2 & O2 & K2 & R2 & D2 & B2 & C2 & _).
    rewrite E in E2. injection E2 as ->. clear E.
    apply bind_ok_inv in Hrun as ([] & w3 & E3 & Hrun).
    apply (dispatch_keeps _ _ _ _ Hk) in E3 as (T3 & S3).
    apply IH in Hrun as (T & Hpos & Hframe); [| done].
    assert (Hoth : forall y, y <> x ->
              key_ (store w3 y) = key_ (store w y)
              /\ rev_ (store w3 y) = rev_ (store w y)
              /\ _dirty (store w3 y) = _dirty (store w y)).
    { intros y Hy. destruct (S3 y) as (_ & -> & -> & -> & _).
      by rewrite O2, O1. }
    split_and!.
    + rewrite T, T3, T2, T1. simpl. by rewrite <- app_assoc.
    + intros [|i] y Hi; simpl in Hi.
      * injection Hi as <-. exists r. rewrite Nat.add_0_r.
        split; [done |].
        destruct (Hframe x Hx) as (-> & -> & ->).
        destruct (S3 x) as (_ & -> & -> & -> & _).
        rewrite K2, R2, K1, R1. split_and!; [done | done |].
        rewrite D1 in D2. set_solver.
      * destruct (Hpos i y Hi) as (r' & Hr' & Hkey & Hrev & Hd).
        exists r'. replace (num + S i)%nat with (S num + i)%nat by lia.
        split; [done |].
        assert (Hyx : y <> x).
        { intros ->. apply Hx. by eapply list_elem_of_lookup_2. }
        destruct (Hoth y Hyx) as (Hk3 & Hr3 & _).
        rewrite Hkey, Hrev, Hk3, Hr3. done.
    + intros y Hy. apply not_elem_of_cons in Hy as [Hyx Hy].
      destruct (Hframe y Hy) as (-> & -> & ->). by apply Hoth.
Qed.

(** X16. The write-back of the bulk calls is by position: when the loop
    that follows a batched call returns for a group of distinct entities,
    the reply has at least as many results as the group has entities,
    the post hook was dispatched once for each entity in group order, and
    the entity at position [i] has the key and the revision of result
    [i], where that result has them and they are not null, and an empty
    dirty set. Results beyond the group are ignored. The listeners are
    assumed to leave collection, identity, dirty set and attachment of
    entities alone. *)
Theorem bulk_write_back_by_position (post : Hook) (entity_obj_list : list ref)
    (res : list Doc) (w w' : World) :
  listeners_keep_entities ->
  NoDup entity_obj_list ->
  bulk_post post entity_obj_list res 0 w = (Ok tt, w') ->
  (length entity_obj_list <= length res)%nat
  /\ trace w' = (trace w ++ map (fun x => EDispatch x post) entity_obj_list)%list
  /\ forall i x,
       entity_obj_list !! i = Some x ->
       exists r,
         res !! i = Some r
         /\ key_ (store w' x) = written (r !! "_key") (key_ (store w x))
         /\ rev_ (store w' x) = written (r !! "_rev") (rev_ (store w x))
         /\ _dirty (store w' x) = ∅.
Proof.
  intros Hk Hnd Hrun.
  apply bulk_post_run in Hrun as (T & Hpos & _); [| done..].
  split; [| split; [done | exact Hpos]].
  destruct (decide (length entity_obj_list <= length res)%nat) as [|Hn]; [done |].
  exfalso.
  destruct (lookup_lt_is_Some_2 entity_obj_list (length res)) as [x Hx]; [lia |].
  destruct (Hpos _ _ Hx) as (r & Hr & _).
  apply lookup_lt_Some in Hr. simpl in Hr. lia.
Qed.

End PersisterRuns.

(** ** Creating collections and graphs *)

Section CreationFacts.
Context {EM : EntityModel} {LS : Listeners} {CL : Client}.
Import Database.



(** The loop over the declared indexes: it stops at the first index the
    server refuses. *)
Lemma add_indexes_run col (indexes : list Index) w :
  exists k,
    (k <= length indexes)%nat
    /\ trace (for_each indexes
                (fun index => remote (EAddIndex col index) (fun _ => tt)) w).2
       = (trace w ++ map (EAddIndex col) (take k indexes))%list
    /\ ((for_each indexes
           (fun index => remote (EAddIndex col index) (fun _ => tt)) w).1 = Ok tt ->
        k = length indexes).
Proof.
  revert w. induction indexes as [|index rest IH]; intros w.
  - exists 0%nat. simpl. by rewrite app_nil_r.
  - simpl. unfold bind at 1 2. unfold remote at 1 3.
    destruct (client_ok (trace w) (EAddIndex col index)).
    + destruct (IH (record (EAddIndex col index) w)) as (k & Hk & Ht & Hok).
      exists (S k). split; [simpl; lia |]. split.
      * rewrite Ht. simpl. by rewrite <- app_assoc.
      * intros Hr. simpl. f_equal. by apply Hok.
    + exists 1%nat. split; [simpl; lia |]. split; [| done].
      simpl. by destruct rest.
Qed.

Lemma create_collection_run (c : CollectionClass) (w : World) :
  let name := cc_collection c in
  let given := default ∅ (cc_col_args c) in
  let indexes := default [] (cc_indexes c) in
  exists (col_args : Doc) (k : nat),
    (forall key,
        col_args !! key
        = match given !! key with
          | Some v => Some v
          | None =>
              if cc_is_relation c && bool_decide (key = "edge")
              then Some (VBool true)
              else None
          end)
    /\ (k <= length indexes)%nat
    /\ trace (create_collection c w).2
       = (trace w ++ ECreateCollection name col_args
                  :: map (EAddIndex name) (take k indexes))%list
    /\ ((create_collection c w).1 = Ok tt -> k = length indexes)
    /\ (client_ok (trace w) (ECreateCollection name col_args) = false ->
        k = 0%nat /\ (create_collection c w).1 = Raise RemoteError).
Proof.
  intros name given indexes.
  set (col_args :=
    if cc_is_relation c && negb (bool_decide (is_Some (given !! "edge")))
    then <["edge" := VBool true]> given
    else given).
  assert (Hargs : forall key,
    col_args !! key
    = match given !! key with
      | Some v => Some v
      | None =>
          if cc_is_relation c && bool_decide (key = "edge")
          then Some (VBool true)
          else None
      end).
  { intros key. unfold col_args.
    destruct (cc_is_relation c); simpl; [| by destruct (given !! key)].
    case_bool_decide as He; simpl.
    - destruct (given !! key) eqn:Ek; [done |].
      case_bool_decide as Hkey; [| done]. subst key.
      rewrite Ek in He. by destruct He.
    - destruct (decide (key = "edge")) as [->|Hne].
      + rewrite lookup_insert_eq.
        destruct (given !! "edge") eqn:Ek; [| by rewrite bool_decide_eq_true_2].
        exfalso. apply He. eauto.
      + rewrite lookup_insert_ne by done.
        rewrite (bool_decide_eq_false_2 (key = "edge")) by done.
        by destruct (given !! key). }
  exists col_args.
  assert (Hcc : create_collection c w
    = if client_ok (trace w) (ECreateCollection name col_args)
      then match cc_indexes c with
           | Some l =>
               for_each l (fun index => remote (EAddIndex name index) (fun _ => tt))
           | None => ret tt
           end (record (ECreateCollection name col_args) w)
      else (Raise RemoteError, record (ECreateCollection name col_args) w)).
  { unfold create_collection, bind, remote. fold given. fold col_args. fold name.
    by destruct (client_ok _ _). }
  rewrite Hcc. clear Hcc.
  destruct (client_ok (trace w) (ECreateCollection name col_args)) eqn:Hok.
  - destruct (cc_indexes c) as [l|] eqn:El.
    + destruct (add_indexes_run name l (record (ECreateCollection name col_args) w))
        as (k & Hk & Ht & Hr).
      exists k. unfold indexes. simpl default.
      split; [done |]. split; [done |]. split.
      * rewrite Ht. simpl. by rewrite <- app_assoc.
      * split; [exact Hr | done].
    + exists 0%nat. unfold indexes. simpl.
      split; [done |]. split; [lia |]. split; [done |]. split; done.
  - exists 0%nat. split; [done |]. split; [lia |]. rewrite take_0. simpl.
    split; [done |]. split; [done |]. done.
Qed.

(** The loop over the indexes: all of them are accepted, or it stops at
    the first one that is refused. *)
Lemma add_indexes_first_refusal (col : string) (indexes : list Index)
    (w : World) :
  ((forall i idx,
       indexes !! i = Some idx ->
       client_ok (trace w ++ map (EAddIndex col) (take i indexes))
                 (EAddIndex col idx) = true)
   /\ for_each indexes (fun index => remote (EAddIndex col index) (fun _ => tt)) w
      = (Ok tt, {| store := store w;
                   trace := trace w ++ map (EAddIndex col) indexes |}))
  \/ (exists i idx,
        indexes !! i = Some idx
        /\ client_ok (trace w ++ map (EAddIndex col) (take i indexes))
                     (EAddIndex col idx) = false
        /\ (forall j idx',
              (j < i)%nat -> indexes !! j = Some idx' ->
              client_ok (trace w ++ map (EAddIndex col) (take j indexes))
                        (EAddIndex col idx') = true)
        /\ for_each indexes
             (fun index => remote (EAddIndex col index) (fun _ => tt)) w
           = (Raise RemoteError,
              {| store := store w;
                 trace := trace w ++ map (EAddIndex col) (take (S i) indexes) |})).
Proof.
  revert w. induction indexes as [|x rest IH]; intros w.
  - left. split; [by intros i idx Hi |].
    simpl. unfold ret. destruct w. simpl. by rewrite app_nil_r.
  - assert (Hstep :
      for_each (x :: rest) (fun index => remote (EAddIndex col index) (fun _ => tt)) w
      = if client_ok (trace w) (EAddIndex col x)
        then for_each rest (fun index => remote (EAddIndex col index) (fun _ => tt))
                      (record (EAddIndex col x) w)
        else (Raise RemoteError, record (EAddIndex col x) w)).
    { simpl. unfold bind, remote. by destruct (client_ok _ _). }
    rewrite !Hstep. clear Hstep.
    destruct (client_ok (trace w) (EAddIndex col x)) eqn:Hx.
    + destruct (IH (record (EAddIndex col x) w))
        as [[Hall Hrun] | (i & idx & Hi & Href & Hbefore & Hrun)].
      * left. split.
        -- intros [|i] idx Hi; simpl in Hi.
           ++ injection Hi as <-. simpl. by rewrite app_nil_r.
           ++ specialize (Hall i idx Hi). simpl in Hall |- *.
              by rewrite <- app_assoc in Hall.
        -- rewrite Hrun. simpl. by rewrite <- app_assoc.
      * right. exists (S i), idx. split; [done |]. split_and!.
        -- simpl in Href |- *. by rewrite <- app_assoc in Href.
        -- intros [|j] idx' Hj Hidx'; simpl in Hidx'.
           ++ injection Hidx' as <-. simpl. by rewrite app_nil_r.
           ++ specialize (Hbefore j idx' ltac:(lia) Hidx').
              simpl in Hbefore |- *. by rewrite <- app_assoc in Hbefore.
        -- rewrite Hrun. simpl. by rewrite <- app_assoc.
    + right. exists 0%nat, x. split; [done |]. split_and!.
      * simpl. by rewrite app_nil_r.
      * intros j idx' Hj. lia.
      * by destruct rest.
Qed.

(** The creation arguments, and the two halves of [create_collection]. *)
Lemma create_collection_unfold (c : CollectionClass) (w : World) :
  let name := cc_collection c in
  let given := default ∅ (cc_col_args c) in
  exists col_args : Doc,
    (forall key,
        col_args !! key
        = match given !! key with
          | Some v => Some v
          | None =>
              if cc_is_relation c && bool_decide (key = "edge")
              then Some (VBool true)
              else None
          end)
    /\ create_collection c w
       = if client_ok (trace w) (ECreateCollection name col_args)
         then for_each (default [] (cc_indexes c))
                (fun index => remote (EAddIndex name index) (fun _ => tt))
                (record (ECreateCollection name col_args) w)
         else (Raise RemoteError, record (ECreateCollection name col_args) w).
Proof.
  intros name given.
  set (col_args :=
    if cc_is_relation c && negb (bool_decide (is_Some (given !! "edge")))
    then <["edge" := VBool true]> given
    else given).
  exists col_args. split.
  - intros key. unfold col_args.
    destruct (cc_is_relation c); simpl; [| by destruct (given !! key)].
    case_bool_decide as He; simpl.
    + destruct (given !! key) eqn:Ek; [done |].
      case_bool_decide as Hkey; [| done]. subst key.
      rewrite Ek in He. by destruct He.
    + destruct (decide (key = "edge")) as [->|Hne].
      * rewrite lookup_insert_eq.
        destruct (given !! "edge") eqn:Ek; [| by rewrite bool_decide_eq_true_2].
        exfalso. apply He. eauto.
      * rewrite lookup_insert_ne by done.
        rewrite (bool_decide_eq_false_2 (key = "edge")) by done.
        by destruct (given !! key).
  - unfold create_collection, bind, remote. fold given. fold col_args. fold name.
    destruct (client_ok _ _); [| done].
    by destruct (cc_indexes c).
Qed.

(** X17. [create_collection] first creates the collection, with the
    creation arguments of the class, to which [edge=True] is added for a
    relation class whose arguments say nothing about [edge] (an [edge]
    entry of the class is passed as it is); then it creates the declared
    indexes in their order. When the creation is refused, it raises and no
    index is asked for. When every index is accepted, it returns, having
    asked for all of them. When an index is refused, it raises at the
    first such index: the indexes before it were created, the later ones
    are not asked for, and the collection is not removed. No entity is
    touched. *)
Theorem create_collection_calls (c : CollectionClass) (w : World) :
  let name := cc_collection c in
  let given := default ∅ (cc_col_args c) in
  let indexes := default [] (cc_indexes c) in
  exists col_args : Doc,
    (forall key,
        col_args !! key
        = match given !! key with
          | Some v => Some v
          | None =>
              if cc_is_relation c && bool_decide (key = "edge")
              then Some (VBool true)
              else None
          end)
    /\ ((client_ok (trace w) (ECreateCollection name col_args) = false
         /\ create_collection c w
            = (Raise RemoteError,
               {| store := store w;
                  trace := trace w ++ creating name col_args indexes 0 |}))
        \/ (client_ok (trace w) (ECreateCollection name col_args) = true
            /\ (forall i idx,
                  indexes !! i = Some idx ->
                  client_ok (trace w ++ creating name col_args indexes i)
                            (EAddIndex name idx) = true)
            /\ create_collection c w
               = (Ok tt,
                  {| store := store w;
                     trace := trace w ++ creating name col_args indexes
                                                  (length indexes) |}))
        \/ (client_ok (trace w) (ECreateCollection name col_args) = true
            /\ exists i idx,
                indexes !! i = Some idx
                /\ client_ok (trace w ++ creating name col_args indexes i)
                             (EAddIndex name idx) = false
                /\ (forall j idx',
                      (j < i)%nat -> indexes !! j = Some idx' ->
                      client_ok (trace w ++ creating name col_args indexes j)
                                (EAddIndex name idx') = true)
                /\ create_collection c w
                   = (Raise RemoteError,
                      {| store := store w;
                         trace := trace w ++ creating name col_args indexes
                                                      (S i) |}))).
Proof.
  intros name given indexes.
  destruct (create_collection_unfold c w) as (col_args & Hargs & Hrun).
  fold name given indexes in Hargs, Hrun.
  exists col_args. split; [exact Hargs |].
  rewrite Hrun. clear Hrun. unfold creating.
  destruct (client_ok (trace w) (ECreateCollection name col_args)) eqn:Hok.
  - right.
    destruct (add_indexes_first_refusal name indexes
                (record (ECreateCollection name col_args) w))
      as [[Hall Hrun] | (i & idx & Hi & Href & Hbefore & Hrun)].
    + left. split; [done |]. split.
      * intros i idx Hi. specialize (Hall i idx Hi). simpl in Hall.
        by rewrite <- app_assoc in Hall.
      * rewrite Hrun. simpl. rewrite firstn_all. by rewrite <- app_assoc.
    + right. split; [done |]. exists i, idx. split; [done |]. split_and!.
      * simpl in Href. by rewrite <- app_assoc in Href.
      * intros j idx' Hj Hidx'. specialize (Hbefore j idx' Hj Hidx').
        simpl in Hbefore. by rewrite <- app_assoc in Hbefore.
      * rewrite Hrun. simpl. by rewrite <- app_assoc.
  - left. split; [done |]. by rewrite take_0.
Qed.

(** *** Any property of the calls *)

Section GraphEmits.
Context (P : Event -> Prop).
Hypothesis P_log : forall lvl fmt args, P (ELog lvl fmt args).

Lemma emits_getitem {A} (d : gmap string A) (k : string) :
  emits P (fun _ => True) (getitem d k).
Proof.
  unfold getitem. destruct (d !! k); [by apply emits_ret | apply emits_raise].
Qed.

Lemma emits_lift {A} (r : Res A) : emits P (fun _ => True) (lift r).
Proof. destruct r; [by apply emits_ret | apply emits_raise]. Qed.

Lemma create_collection_emits (c : CollectionClass) :
  (forall args, P (ECreateCollection (cc_collection c) args)) ->
  (forall index, P (EAddIndex (cc_collection c) index)) ->
  emits P (fun _ => True) (create_collection c).
Proof.
  intros Hc Hi. unfold create_collection.
  eapply emits_bind with (R := fun col => col = cc_collection c);
    [by apply emits_remote |].
  intros col ->. destruct (cc_indexes c); [| by apply emits_ret].
  apply emits_for_each. intros idx _. by apply emits_remote.
Qed.

Lemma ensure_vertex_emits names (c : CollectionClass) :
  (forall args, P (ECreateCollection (cc_collection c) args)) ->
  (forall index, P (EAddIndex (cc_collection c) index)) ->
  emits P (fun _ => True) (ensure_vertex_collection names c).
Proof.
  intros Hc Hi.
  apply emits_try_except; [| by apply emits_log].
  destruct (bool_decide _); [by apply emits_log |].
  eapply emits_bind; [by apply emits_log | intros _ _].
  by apply create_collection_emits.
Qed.

Lemma ensure_edge_emits names (c : CollectionClass) :
  emits P (fun _ => True) (ensure_edge_collection names c).
Proof.
  apply emits_try_except; [| by apply emits_log].
  destruct (bool_decide _); [by apply emits_log |].
  eapply emits_bind; [by apply emits_log | intros _ _].
  apply emits_raise.
Qed.

Lemma create_unless_ignored_emits ignore fmt (c : CollectionClass) :
  (ignored ignore c = false ->
   (forall args, P (ECreateCollection (cc_collection c) args))
   /\ (forall index, P (EAddIndex (cc_collection c) index))) ->
  emits P (fun _ => True) (create_unless_ignored ignore fmt c).
Proof.
  intros Hc. unfold create_unless_ignored.
  destruct (ignored ignore c); [by apply emits_ret |].
  destruct Hc as [Hc Hi]; [done |].
  apply emits_try_except; [| by apply emits_log].
  by apply create_collection_emits.
Qed.

Lemma collect_edge_definitions_emits g items acc :
  emits P (fun _ => True) (collect_edge_definitions g items acc).
Proof.
  revert acc. induction items as [|item rest IH]; intros acc; simpl.
  - by apply emits_ret.
  - eapply emits_bind; [apply emits_getitem | intros cols_from _].
    eapply emits_bind; [apply emits_getitem | intros cols_to _].
    apply IH.
Qed.

Hypothesis P_reads : P ECollections /\ P EGraphs.
Hypothesis P_definitions :
  forall ev, touches_edge_definitions ev = true -> P ev.

Lemma get_graph_info_emits g : emits P (fun _ => True) (_get_graph_info g).
Proof.
  eapply emits_bind with (R := fun _ => True);
    [apply emits_remote; [apply P_reads | done] |].
  intros ? _. by apply emits_ret.
Qed.

Lemma sync_relation_emits g existing item :
  emits P (fun _ => True) (sync_relation g existing item).
Proof.
  unfold sync_relation.
  eapply emits_bind; [apply emits_getitem | intros cols_from _].
  eapply emits_bind; [apply emits_getitem | intros cols_to _].
  cbv zeta. destruct (dict_get existing _) as [live|].
  - eapply emits_bind; [apply emits_lift | intros same _].
    destruct (negb same); [| by apply emits_ret].
    eapply emits_bind; [by apply emits_log | intros _ _].
    apply emits_remote; [by apply P_definitions | done].
  - eapply emits_bind; [by apply emits_log | intros _ _].
    apply emits_remote; [by apply P_definitions | done].
Qed.

Lemma drop_if_stale_emits gcs item :
  emits P (fun _ => True) (drop_if_stale gcs item).
Proof.
  unfold drop_if_stale. destruct (negb _); [| by apply emits_ret].
  eapply emits_bind; [by apply emits_log | intros _ _].
  apply emits_remote; [by apply P_definitions | done].
Qed.

Lemma update_graph_emits g graph_info :
  (forall item, item ∈ vertices g ->
     (forall args, P (ECreateCollection (cc_collection item.2) args))
     /\ (forall index, P (EAddIndex (cc_collection item.2) index))) ->
  emits P (fun _ => True) (update_graph g graph_info).
Proof.
  intros Hv. unfold update_graph.
  eapply emits_bind with (R := fun _ => True).
  { destruct graph_info; [by apply emits_ret | apply get_graph_info_emits]. }
  intros _ _.
  eapply emits_bind with (R := fun _ => True);
    [apply emits_remote; [apply P_reads | done] |].
  intros names _.
  eapply emits_bind with (R := fun _ => True).
  { apply emits_for_each. intros item Hin.
    destruct (Hv item Hin). by apply ensure_vertex_emits. }
  intros _ _.
  eapply emits_bind with (R := fun _ => True).
  { apply emits_for_each. intros item _. apply ensure_edge_emits. }
  intros _ _.
  eapply emits_bind with (R := fun _ => True);
    [apply emits_remote; [by apply P_definitions | done] |].
  intros live _.
  eapply emits_bind with (R := fun _ => True).
  { apply emits_for_each. intros item _. apply sync_relation_emits. }
  intros _ _.
  apply emits_for_each. intros item _. apply drop_if_stale_emits.
Qed.

Lemma create_graph_emits g ignore :
  (forall item, item ∈ (vertices g ++ edges g)%list ->
     ignored ignore item.2 = false ->
     (forall args, P (ECreateCollection (cc_collection item.2) args))
     /\ (forall index, P (EAddIndex (cc_collection item.2) index))) ->
  (forall defs, P (ECreateGraph (__graph__ g) defs)) ->
  emits P (fun _ => True) (create_graph g ignore).
Proof.
  intros Hc Hg. unfold create_graph.
  eapply emits_bind with (R := fun _ => True).
  { apply emits_for_each. intros item Hin.
    apply create_unless_ignored_emits. apply Hc.
    apply elem_of_app. by left. }
  intros _ _.
  eapply emits_bind with (R := fun _ => True).
  { apply emits_for_each. intros item Hin.
    apply create_unless_ignored_emits. apply Hc.
    apply elem_of_app. by right. }
  intros _ _.
  eapply emits_bind; [apply collect_edge_definitions_emits | intros defs _].
  by apply emits_remote.
Qed.

End GraphEmits.



(** Lines 396-409 send nothing; they succeed when the lookups do, and
    then give the declared definitions in the order of the relations. *)
Lemma collect_edge_definitions_run g items acc w :
  match collect_edge_definitions g items acc w with
  | (Ok defs, w') =>
      w' = w
      /\ defs = (acc ++ map (declared_definition g) items)%list
      /\ Forall (fun item : string * CollectionClass =>
                   is_Some (edge_cols_from g !! item.1)
                   /\ is_Some (edge_cols_to g !! item.1)) items
  | (Raise x, w') =>
      w' = w
      /\ ~ Forall (fun item : string * CollectionClass =>
                     is_Some (edge_cols_from g !! item.1)
                     /\ is_Some (edge_cols_to g !! item.1)) items
  end.
Proof.
  revert acc. induction items as [|item rest IH]; intros acc; simpl.
  - by rewrite app_nil_r.
  - unfold getitem, bind.
    destruct (edge_cols_from g !! item.1) as [cf|] eqn:Ef; simpl.
    2:{ split; [done |]. intros [[[? ?] _] _]%Forall_cons. simpl in *. congruence. }
    destruct (edge_cols_to g !! item.1) as [ct|] eqn:Et; simpl.
    2:{ split; [done |]. intros [[_ [? ?]] _]%Forall_cons. simpl in *. congruence. }
    specialize (IH (acc ++ [edge_definition_of item.2 cf ct])%list).
    destruct (collect_edge_definitions g rest _ w) as [[defs|x] w'].
    + destruct IH as (-> & -> & Hall). split; [done |]. split.
      * rewrite <- app_assoc. simpl. do 2 f_equal.
        unfold declared_definition. by rewrite Ef, Et.
      * constructor; [| done]. rewrite Ef, Et. eauto.
    + destruct IH as (-> & Hn). split; [done |].
      intros [_ ?]%Forall_cons. done.
Qed.

(** X18. When [create_graph] returns, the last call it has made is the one
    [create_graph] call of python-arango, for the name of the graph, with
    one edge definition per declared relation, in the order of the
    relations: the collection of the relation, the names of its source
    classes, the names of its target classes. Everything before is
    collection and index creation, and log lines. *)
Theorem create_graph_definitions (g : Graph)
    (ignore_collections : option (list string)) (w : World) :
  (create_graph g ignore_collections w).1 = Ok tt ->
  relations_resolved g
  /\ exists t,
      trace (create_graph g ignore_collections w).2
      = (trace w ++ t
         ++ [ECreateGraph (__graph__ g)
               (map (declared_definition g) (edges g))])%list
      /\ Forall sets_up t.
Proof.
  intros Hr.
  destruct (create_graph g ignore_collections w) as [res w'] eqn:E.
  simpl in Hr. subst res. simpl. unfold create_graph in E.
  apply bind_ok_inv in E as ([] & wA & EA & E).
  apply bind_ok_inv in E as ([] & wB & EB & E).
  apply bind_ok_inv in E as (defs & wC & EC & E).
  apply remote_ok_inv in E as (_ & _ & ->).
  pose proof (collect_edge_definitions_run g (edges g) [] wB) as Hc.
  rewrite EC in Hc. destruct Hc as (-> & -> & Hall).
  split; [exact Hall |].
  assert (Hloop : forall fmt items w0,
    exists t, trace (for_each items
                       (fun item : string * CollectionClass =>
                          create_unless_ignored ignore_collections fmt item.2) w0).2
              = (trace w0 ++ t)%list /\ Forall sets_up t).
  { intros fmt items w0.
    destruct (emits_for_each sets_up items
                (fun item : string * CollectionClass =>
                   create_unless_ignored ignore_collections fmt item.2)) with (w := w0)
      as (t & Ht & HP & _); [| eauto].
    intros item _. by apply create_unless_ignored_emits. }
  destruct (Hloop "Error creating collection %s, it probably already exists"
              (vertices g) w) as (tA & TA & PA).
  rewrite EA in TA. simpl in TA.
  destruct (Hloop "Error creating edge collection %s, it probably already exists"
              (edges g) wA) as (tB & TB & PB).
  rewrite EB in TB. simpl in TB.
  exists (tA ++ tB)%list. split.
  - simpl. rewrite TB, TA. by rewrite <- !app_assoc.
  - by apply Forall_app.
Qed.



(** X20. Every collection that [create_graph] creates or indexes is a
    declared vertex or edge collection of the graph that
    [ignore_collections] does not name. *)
Theorem create_graph_skips_ignored (g : Graph)
    (ignore_collections : option (list string)) (w : World) :
  exists t,
    trace (create_graph g ignore_collections w).2 = (trace w ++ t)%list
    /\ Forall (builds_only (declared_and_kept g ignore_collections)) t.
Proof.
  destruct (create_graph_emits
              (builds_only (declared_and_kept g ignore_collections)))
    with (g := g) (ignore := ignore_collections) (w := w)
    as (t & Ht & HP & _); [done | | done | eauto].
  intros item Hin Hig. split; intros ?; simpl; by exists item.
Qed.


Lemma is_same_edge_refl (e : EdgeDef) : _is_same_edge e e = Ok true.
Proof.
  unfold _is_same_edge.
  rewrite bool_decide_eq_true_2 by done. simpl.
  rewrite !Nat.eqb_refl. simpl.
  assert (Hall : forall l : list string,
            forallb (fun cname => bool_decide (cname ∈ l)) l = true).
  { intros l. by apply forallb_elem. }
  by rewrite !Hall.
Qed.

Lemma NoDup_map_inj {X} (f : X -> string) (l : list X) x y :
  NoDup (map f l) -> x ∈ l -> y ∈ l -> f x = f y -> x = y.
Proof.
  induction l as [|z l IH]; intros Hnd Hx Hy Hf.
  - by apply elem_of_nil in Hx.
  - simpl in Hnd. apply NoDup_cons in Hnd as [Hz Hnd].
    apply elem_of_cons in Hx as [->|Hx]; apply elem_of_cons in Hy as [->|Hy].
    + done.
    + exfalso. apply Hz. rewrite Hf. apply elem_of_map. eauto.
    + exfalso. apply Hz. rewrite <- Hf. apply elem_of_map. eauto.
    + by apply IH.
Qed.

Lemma filter_changes_prepares t :
  Forall prepares t -> List.filter changes_edge_definitions t = [].
Proof.
  induction 1 as [|ev t [Hev _] _ IH]; [done |]. simpl.
  destruct ev; try done; exact IH.
Qed.

(** X22. A pass over a graph that is live as declared changes nothing:
    when the live edge definitions are the declared ones, whatever their
    order, a pass that completes creates, replaces and deletes no edge
    definition. The declared relations are on distinct edge collections
    and each is among the connections of the graph. *)
Theorem converged_pass_changes_nothing (g : Graph)
    (graph_info : option string) (w : World) :
  (update_graph g graph_info w).1 = Ok tt ->
  NoDup (map (fun item : string * CollectionClass => cc_collection item.2)
             (edges g)) ->
  (forall h d, d ∈ edge_definitions_reply h (__graph__ g) ->
               exists item, item ∈ edges g /\ d = declared_definition g item) ->
  (forall h item, item ∈ edges g ->
                  declared_definition g item
                  ∈ edge_definitions_reply h (__graph__ g)) ->
  (forall item : string * CollectionClass, item ∈ edges g ->
     exists gc, gc ∈ graph_connections g
                /\ cc_collection (relation gc) = cc_collection item.2) ->
  exists t,
    trace (update_graph g graph_info w).2 = (trace w ++ t)%list
    /\ List.filter changes_edge_definitions t = [].
Proof.
  intros Hrun Hnd Hlive Hdecl Hconn.
  destruct (update_graph_trace g graph_info w Hrun) as (t1 & P1 & Hlook & Ht).
  cbv zeta in Ht.
  set (live := edge_definitions_reply (trace w ++ t1) (__graph__ g)) in Ht.
  set (existing := dict_of_pairs (map (fun e => (edge_collection e, e)) live)) in Ht.
  set (connections := dict_of_pairs _) in Ht.
  assert (Hrel : forall item, item ∈ edges g ->
            relation_calls g existing item = []).
  { intros item Hin. unfold relation_calls.
    destruct (Hlook item Hin) as [[cf Ef] [ct Et]]. rewrite Ef, Et.
    assert (Hd : edge_definition_of item.2 cf ct = declared_definition g item).
    { unfold declared_definition. by rewrite Ef, Et. }
    rewrite Hd.
    assert (Hget : dict_get existing (edge_collection (declared_definition g item))
                   = Some (declared_definition g item)).
    { apply dict_elem_get; [apply dict_of_pairs_NoDup |].
      destruct (dict_get existing (edge_collection (declared_definition g item)))
        as [v|] eqn:Eg.
      - pose proof Eg as Eg'. apply dict_get_elem in Eg'.
        apply dict_of_pairs_get in Eg.
        apply elem_of_map in Eg as (d & [= Hn ->] & Hd').
        destruct (Hlive _ _ Hd') as (item' & Hin' & ->).
        assert (item' = item) as ->; [| done].
        eapply (NoDup_map_inj (fun it : string * CollectionClass => cc_collection it.2));
          [exact Hnd | done | done |]. by symmetry.
      - exfalso. apply dict_get_None in Eg. apply Eg.
        apply dict_of_pairs_keys. rewrite map_map. simpl.
        apply elem_of_map. exists (declared_definition g item).
        split; [done |]. apply Hdecl. done. }
    rewrite Hget. by rewrite is_same_edge_refl. }
  assert (Hstale : forall item, item ∈ existing -> stale_calls connections item = []).
  { intros [name ee] Hin. unfold stale_calls. cbn [fst snd].
    assert (Hm : dict_mem connections name = true); [| by rewrite Hm].
    apply dict_mem_keys, dict_of_pairs_keys. rewrite map_map. simpl.
    assert (Hname : name ∈ map fst existing).
    { apply elem_of_map. by exists (name, ee). }
    unfold existing in Hname.
    apply (proj1 (dict_of_pairs_keys _ _)) in Hname.
    rewrite map_map in Hname. simpl in Hname.
    apply elem_of_map in Hname as (d & -> & Hd).
    destruct (Hlive _ _ Hd) as (item & Hin' & ->).
    destruct (Hconn item Hin') as (gc & Hgc & Hn).
    apply elem_of_map. exists gc. split; [| done]. by rewrite Hn. }
  eexists. split; [exact Ht |].
  rewrite List.filter_app, (filter_changes_prepares _ P1). simpl.
  rewrite List.filter_app.
  rewrite (filter_concat_none changes_edge_definitions (relation_calls g existing))
    by (by intros y Hy; rewrite Hrel).
  rewrite (filter_concat_none changes_edge_definitions (stale_calls connections))
    by (by intros y Hy; rewrite Hstale).
  done.
Qed.

(** *** [create_all] and [drop_all] *)

Lemma graph_objs_elem db_objects g :
  g ∈ graph_objs db_objects -> GraphClass g ∈ db_objects.
Proof.
  unfold graph_objs. intros (obj & Hin & Hs)%list_elem_of_omap.
  by destruct obj as [g'| |]; simplify_eq.
Qed.

Lemma create_all_keeps db_objects :
  emits (fun ev => is_drop ev = false) (fun _ => True) (create_all db_objects).
Proof.
  unfold create_all.
  eapply emits_bind with (R := fun _ => True).
  { apply emits_for_each. intros g _. unfold create_or_update_graph.
    eapply emits_bind with (R := fun _ => True);
      [by apply get_graph_info_emits |].
    intros [gi|] _.
    - eapply emits_bind; [by apply emits_log | intros _ _].
      apply update_graph_emits; try done. intros ev. by destruct ev.
    - eapply emits_bind; [by apply emits_log | intros _ _].
      by apply create_graph_emits. }
  intros _ _.
  eapply emits_bind with (R := fun _ => True); [by apply emits_remote |].
  intros names _. apply emits_for_each. intros obj _.
  unfold create_if_missing. destruct obj as [g | [] c |]; try by apply emits_ret.
  destruct (bool_decide _); [by apply emits_log |].
  eapply emits_bind; [by apply emits_log | intros _ _].
  by apply create_collection_emits.
Qed.

(** X23. Creation never drops: whatever the declarations and whatever the
    server answers, and whether they return or raise, [create_graph],
    [update_graph] and [create_all] send no call that drops a collection
    or a graph. *)
Theorem creation_never_drops (w : World) :
  (forall g ignore_collections, exists t,
      trace (create_graph g ignore_collections w).2 = (trace w ++ t)%list
      /\ Forall (fun ev => is_drop ev = false) t)
  /\ (forall g graph_info, exists t,
      trace (update_graph g graph_info w).2 = (trace w ++ t)%list
      /\ Forall (fun ev => is_drop ev = false) t)
  /\ (forall db_objects, exists t,
      trace (create_all db_objects w).2 = (trace w ++ t)%list
      /\ Forall (fun ev => is_drop ev = false) t).
Proof.
  split_and!.
  - intros g ig.
    destruct (create_graph_emits (fun ev => is_drop ev = false))
      with (g := g) (ignore := ig) (w := w) as (t & ? & ? & _); eauto; done.
  - intros g gi.
    destruct (update_graph_emits (fun ev => is_drop ev = false))
      with (g := g) (graph_info := gi) (w := w) as (t & ? & ? & _);
      eauto; try done.
    intros ev. by destruct ev.
  - intros objs. destruct (create_all_keeps objs w) as (t & ? & ? & _). eauto.
Qed.

Lemma omap_created_indexes name (l : list Index) :
  omap created (map (EAddIndex name) l) = [].
Proof. by induction l. Qed.

Lemma sets_up_indexes name (l : list Index) :
  Forall sets_up (map (EAddIndex name) l).
Proof. induction l; by constructor. Qed.

Lemma create_missing_run names (db_objects : list DbObject) w :
  (for_each db_objects (create_if_missing names) w).1 = Ok tt ->
  exists t,
    trace (for_each db_objects (create_if_missing names) w).2 = (trace w ++ t)%list
    /\ omap created t = map cc_collection (missing_classes names db_objects)
    /\ Forall sets_up t.
Proof.
  revert w. induction db_objects as [|obj rest IH]; intros w Hr.
  - exists []. by rewrite app_nil_r.
  - simpl in Hr. apply bind_run in Hr as ([] & E1 & E2 & E3).
    simpl. rewrite E3. clear E3.
    destruct (IH _ E2) as (t & Ht & Hc & Hs). rewrite Ht. clear Ht.
    assert (Hobj : exists t1,
      trace (create_if_missing names obj w).2 = (trace w ++ t1)%list
      /\ omap created t1
         = map cc_collection (missing_classes names [obj])
      /\ Forall sets_up t1).
    { unfold create_if_missing in *.
      destruct obj as [g | [] c |]; try (exists []; by rewrite app_nil_r).
      unfold missing_classes. simpl.
      destruct (bool_decide (cc_collection c ∈ names)).
      - exists [ELog DEBUG "Collection %s already exists" [LStr (cc_collection c)]].
        split; [done |]. split; [done | by repeat constructor].
      - unfold bind, log in E1 |- *. simpl in E1 |- *.
        match type of E1 with
        | (create_collection c ?w0).1 = _ =>
            destruct (create_collection_run c w0) as (args & k & _ & _ & Ht & Hk & _)
        end.
        rewrite Ht. rewrite (Hk E1). rewrite firstn_all.
        eexists (_ :: _ :: _)%list. split; [| split].
        + simpl. rewrite <- app_assoc. done.
        + simpl. by rewrite omap_created_indexes.
        + constructor; [done |]. constructor; [done |]. apply sets_up_indexes. }
    destruct Hobj as (t1 & -> & Hc1 & Hs1).
    exists (t1 ++ t)%list. split; [by rewrite <- app_assoc |]. split.
    + rewrite omap_app, Hc1, Hc. unfold missing_classes. simpl.
      by destruct (match obj with Class true c => _ | _ => None end).
    + by apply Forall_app.
Qed.

(** X24. On a list without graph classes, when [create_all] returns it
    has asked for the list of collections once and then created, in the
    order of the list, exactly the direct subclasses of [Collection] whose
    collection the server did not list. Classes derived from [Relation],
    other indirect subclasses and other objects are passed over; besides
    the creations there are only index creations and log lines. *)
Theorem create_all_creates_missing_classes (db_objects : list DbObject)
    (w : World) :
  graph_objs db_objects = [] ->
  (create_all db_objects w).1 = Ok tt ->
  exists t,
    trace (create_all db_objects w).2 = (trace w ++ ECollections :: t)%list
    /\ omap created t
       = map cc_collection
             (missing_classes (collections_reply (trace w)) db_objects)
    /\ Forall sets_up t.
Proof.
  intros Hg Hr. unfold create_all in *. rewrite Hg in *. simpl in Hr |- *.
  rewrite bind_ret_l in Hr |- *.
  apply bind_run in Hr as (names & E1 & E2 & E3). rewrite E3. clear E3.
  unfold remote in E1, E2 |- *.
  destruct (client_ok (trace w) ECollections); [| done].
  simpl in E1, E2 |- *. injection E1 as <-.
  destruct (create_missing_run _ _ _ E2) as (t & Ht & Hc & Hs).
  exists t. rewrite Ht. simpl. by rewrite <- app_assoc.
Qed.





(** X26. What [drop_all] drops is listed: every graph it drops is a graph
    class of the list and is dropped with [drop_collections] true, so its
    vertex and edge collections go with it; every collection it drops by
    itself is a direct subclass of [Collection] of the list. *)
Theorem drop_all_drops_listed (db_objects : list DbObject) (w : World) :
  exists t,
    trace (drop_all db_objects w).2 = (trace w ++ t)%list
    /\ Forall (drops_listed db_objects) t.
Proof.
  assert (Hm : emits (drops_listed db_objects) (fun _ => True)
                     (drop_all db_objects)).
  { unfold drop_all.
    eapply emits_bind with (R := fun _ => True).
    - apply emits_for_each. intros g Hin. unfold drop_graph_if_present.
      eapply emits_bind with (R := fun _ => True).
      { eapply emits_bind with (R := fun _ => True);
          [by apply emits_remote | intros ? _; by apply emits_ret]. }
      intros [gi|] _; [| by apply emits_log].
      eapply emits_bind; [by apply emits_log | intros _ _].
      apply emits_remote; [| done]. simpl. split; [done |].
      exists g. split; [by apply graph_objs_elem | done].
    - intros _ _. apply emits_for_each. intros obj Hin.
      unfold drop_if_collection.
      destruct obj as [g | [] c |]; try by apply emits_ret.
      intros w0. unfold try_except_delete_error, drop_collection.
      destruct (client_ok (trace w0) _); simpl.
      + exists [EDeleteCollection (cc_collection c)].
        split; [done |]. split; [| done].
        repeat constructor. simpl. by exists c.
      + destruct (delete_collection_error _ _); simpl;
          try (exists [EDeleteCollection (cc_collection c)];
               split; [done |]; split; [| done];
               repeat constructor; simpl; by exists c).
        eexists [_; _]. split; [by rewrite <- app_assoc |]. split; [| done].
        repeat constructor. simpl. by exists c. }
  destruct (Hm w) as (t & ? & ? & _). eauto.
Qed.

End CreationFacts.

(** ** Writes that fail *)

Section FailedWrites.
Context {EM : EntityModel} {LS : Listeners} {CL : Client}.
Import Database.







End FailedWrites.

(** ** Edge definitions that are missing *)

Section MissingDefinitions.
Context {EM : EntityModel} {LS : Listeners} {CL : Client}.
Import Database.

Lemma relation_calls_create_other g existing item name :
  cc_collection item.2 <> name ->
  List.filter (creates_definition name) (relation_calls g existing item) = [].
Proof.
  intros Hne. unfold relation_calls.
  destruct (edge_cols_from g !! item.1); [| done].
  destruct (edge_cols_to g !! item.1); [| done]. simpl.
  destruct (dict_get existing _).
  - by destruct (_is_same_edge _ _) as [[]|].
  - simpl. by rewrite bool_decide_eq_false_2.
Qed.

Lemma stale_calls_no_create gcs item name :
  List.filter (creates_definition name) (stale_calls gcs item) = [].
Proof. unfold stale_calls. by destruct (negb _). Qed.

(** X29. In a pass that completes, with declared relations on distinct
    edge collections: a declared relation whose edge collection has no
    live definition gets exactly one [create_edge_definition] call, with
    the definition the graph declares for it; a declared relation whose
    edge collection has a live definition gets none. [t1] is what the pass
    does before it reads the live definitions, [t2] what it does after. *)
Theorem missing_definition_created (g : Graph) (graph_info : option string)
    (w : World) :
  (update_graph g graph_info w).1 = Ok tt ->
  NoDup (map (fun item : string * CollectionClass => cc_collection item.2)
             (edges g)) ->
  exists t1 t2,
    trace (update_graph g graph_info w).2
    = (trace w ++ t1 ++ EEdgeDefinitions (__graph__ g) :: t2)%list
    /\ Forall (fun ev => touches_edge_definitions ev = false) t1
    /\ forall item : string * CollectionClass,
         item ∈ edges g ->
         List.filter (creates_definition (cc_collection item.2)) t2
         = if bool_decide
                (cc_collection item.2
                 ∈ map edge_collection
                       (edge_definitions_reply (trace w ++ t1) (__graph__ g)))
           then []
           else [ECreateEdgeDefinition (declared_definition g item)].
Proof.
  intros Hr Hnd.
  destruct (update_graph_trace g graph_info w Hr) as (t1 & P1 & Hlk & Ht).
  cbv zeta in Ht.
  set (live := edge_definitions_reply (trace w ++ t1) (__graph__ g)) in *.
  set (existing := dict_of_pairs (map (fun e => (edge_collection e, e)) live)) in *.
  eexists t1, _. split; [exact Ht |]. split.
  { eapply Forall_impl; [exact P1 |]. by intros ev [? _]. }
  intros item Hin.
  destruct (Hlk _ Hin) as [[cols_from Hf] [cols_to Hto]].
  rewrite List.filter_app.
  rewrite (filter_concat_none _ (stale_calls _))
    by (intros; apply stale_calls_no_create).
  rewrite app_nil_r.
  rewrite (filter_concat_unique _ _
             (fun item : string * CollectionClass => cc_collection item.2)
             _ item); [| done | done |].
  2:{ intros y Hy. by apply relation_calls_create_other. }
  unfold relation_calls. rewrite Hf, Hto. simpl.
  assert (Hd : edge_definition_of item.2 cols_from cols_to
               = declared_definition g item).
  { unfold declared_definition. by rewrite Hf, Hto. }
  destruct (dict_get existing (cc_collection item.2)) as [e|] eqn:Eg.
  - rewrite bool_decide_eq_true_2.
    + by destruct (_is_same_edge _ e) as [[]|].
    + apply dict_get_elem in Eg.
      assert (Hk : cc_collection item.2 ∈ map fst existing).
      { apply elem_of_map. by exists (cc_collection item.2, e). }
      unfold existing in Hk.
      apply (proj1 (dict_of_pairs_keys _ _)) in Hk.
      by rewrite map_map in Hk.
  - rewrite bool_decide_eq_false_2.
    + simpl. rewrite bool_decide_eq_true_2 by done. by rewrite Hd.
    + intros Hk. apply dict_get_None in Eg. apply Eg.
      unfold existing. apply dict_of_pairs_keys. by rewrite map_map.
Qed.

End MissingDefinitions.

(** ** The sample world, further runs *)

Section SampleRuns.
Import Database Sample.
#[local] Existing Instance serializer.
#[local] Existing Instance stamping.

Lemma stamping_keeps_entities : @listeners_keep_entities stamping.
Proof.
  intros h r s s' [= <-] x. destruct (decide (x = r)) as [->|Hx].
  - by rewrite fn_lookup_insert.
  - by rewrite fn_lookup_insert_ne.
Defined.

Lemma stamping_keeps_collection : @listeners_keep_collection stamping.
Proof.
  intros h r s s' [= <-] x. destruct (decide (x = r)) as [->|Hx].
  - by rewrite fn_lookup_insert.
  - by rewrite fn_lookup_insert_ne.
Defined.

(** X1 on the sample chain: the text is printed and sent, and the two rows
    of the answer come back as Ann and Ben. *)
Lemma all_sends_compiled_chain_witness :
  exists q,
    Query.chain (query person) calls = Ok q
    /\ (@query_all loader answering q world).1 = Ok [ann; ben]
    /\ trace (@query_all loader answering q world).2
       = [EPrint ("FOR rec IN @@collection" +:+ nl
                  +:+ "FILTER rec.age > @min OR rec.city == @c "
                  +:+ nl +:+ " SORT rec.name, rec.age DESC"
                  +:+ nl +:+ " LIMIT 0, 2 "
                  +:+ nl +:+ " RETURN rec");
          EExecute ("FOR rec IN @@collection" +:+ nl
                    +:+ "FILTER rec.age > @min OR rec.city == @c "
                    +:+ nl +:+ " SORT rec.name, rec.age DESC"
                    +:+ nl +:+ " LIMIT 0, 2 "
                    +:+ nl +:+ " RETURN rec")
                   {[ "@collection" := VStr "person"; "c" := VStr "Oslo";
                      "min" := VInt 18 ]} ∅].
Proof.
  eexists. split; [vm_compute; reflexivity |].
  match goal with
  | |- (query_all ?q _).1 = _ /\ _ =>
      destruct (@all_sends_compiled_chain loader answering person calls q world)
        as (res & Hrun & Hres); [vm_compute; reflexivity |]
  end.
  rewrite Hrun. split; [| vm_compute; reflexivity].
  assert (Hc : forall h ev, @client_ok answering h ev = true) by reflexivity.
  rewrite Hc in Hres. destruct Hres as [Hok _]. simpl fst.
  apply Hok. unfold loads_to.
  change (execute_reply _ _ _ _) with [ann_row; ben_row].
  repeat constructor; vm_compute; reflexivity.
Defined.

(** X2 on the sample chain: [min] is bound twice, the second binding
    stays. *)
Lemma bind_vars_last_write_wins_witness :
  exists q,
    Query.chain (Query.init "person") calls = Ok q
    /\ Query._bind_vars q !! "min" = Some (VInt 18)
    /\ Query._bind_vars q !! "@collection" = Some (VStr "person").
Proof.
  eexists. split; [vm_compute; reflexivity |]. split.
  - match goal with
    | |- Query._bind_vars ?q !! _ = _ =>
        rewrite (bind_vars_last_write_wins "person" calls q "min")
    end; vm_compute; reflexivity.
  - vm_compute. reflexivity.
Defined.

(** X3 on the sample chain: the caller's [@collection] is overwritten,
    the builder's [min] is not passed, the keyword [count] is; the second
    row of the answer has no key, and its error is what the call
    raises. *)
Lemma aql_injects_collection_witness :
  exists q,
    Query.chain (Query.init "person") calls = Ok q
    /\ exists sent,
        @query_aql loader garbled q "FOR d IN @@collection RETURN d"
          (Some {[ "@collection" := VStr "city"; "n" := VInt 1 ]})
          {[ "count" := VBool true ]} world
        = (Raise KeyError,
           record (EExecute "FOR d IN @@collection RETURN d" sent
                            {[ "count" := VBool true ]}) world)
        /\ sent !! "@collection" = Some (VStr "person")
        /\ sent !! "n" = Some (VInt 1)
        /\ sent !! "min" = None.
Proof.
  eexists. split; [vm_compute; reflexivity |].
  match goal with
  | |- exists sent, query_aql ?q _ _ _ _ = _ /\ _ =>
      destruct (@aql_injects_collection loader garbled "person" calls q
                  "FOR d IN @@collection RETURN d"
                  (Some {[ "@collection" := VStr "city"; "n" := VInt 1 ]})
                  {[ "count" := VBool true ]} world)
        as (v & sent & res & Hv & Hs & Hothers & Hrun & Hres);
        [vm_compute; reflexivity |]
  end.
  exists sent. rewrite Hrun.
  assert (Hc : forall h ev, @client_ok garbled h ev = true) by reflexivity.
  rewrite Hc in Hres. destruct Hres as [_ Hraise].
  assert (Hr : res = Raise KeyError).
  { apply Hraise.
    change (execute_reply _ _ _ _)
      with [ann_row; ({[ "name" := VStr "Nobody" ]} : Doc); ben_row].
    exists 1%nat, {[ "name" := VStr "Nobody" ]}.
    split; [reflexivity |]. split; [vm_compute; reflexivity |].
    intros [|j] r Hj Hr; [| lia]. injection Hr as <-.
    eexists. vm_compute. reflexivity. }
  rewrite Hr. split; [reflexivity |].
  assert (Hperson : v = VStr "person").
  { vm_compute in Hv. by injection Hv as <-. }
  rewrite <- Hperson. split; [exact Hs |].
  split; [by rewrite Hothers | by rewrite Hothers].
Defined.

(** X4 on the sample: Alice is added; the server numbers her 2. *)
Lemma add_writes_identity_back_witness :
  key_ (store (@add _ _ server 0%nat VNone world).2 0%nat) = VInt 2
  /\ rev_ (store (@add _ _ server 0%nat VNone world).2 0%nat) = VStr "r1"
  /\ _dirty (store (@add _ _ server 0%nat VNone world).2 0%nat) = ∅
  /\ _db (store (@add _ _ server 0%nat VNone world).2 0%nat) = true.
Proof.
  destruct (@add_writes_identity_back serializer stamping server 0%nat world
              0%nat (@add _ _ server 0%nat VNone world).2
              stamping_keeps_entities)
    as (_ & _ & Hk & Hr & Hd & Hb); [vm_compute; reflexivity |].
  split_and!; [| | exact Hd | exact Hb].
  - rewrite Hk. vm_compute. reflexivity.
  - rewrite Hr. vm_compute. reflexivity.
Defined.

(** X5 on the sample: Alice is updated, dirty fields only. *)
Lemma update_writes_identity_back_witness :
  key_ (store (@update _ _ server 0%nat true world).2 0%nat) = VInt 2
  /\ _dirty (store (@update _ _ server 0%nat true world).2 0%nat) = ∅
  /\ _db (store (@update _ _ server 0%nat true world).2 0%nat) = true.
Proof.
  destruct (@update_writes_identity_back serializer stamping server 0%nat true
              world 0%nat (@update _ _ server 0%nat true world).2
              stamping_keeps_entities (fun _ => alice_is_dirty))
    as (s1 & _ & _ & _ & Hk & _ & Hd & Hb); [vm_compute; reflexivity |].
  split_and!; [| exact Hd | exact Hb].
  rewrite Hk. vm_compute. reflexivity.
Defined.

(** X7 on the sample: Alice has no key, [if_present="ignore"] changes
    nothing. *)
Lemma add_if_present_needs_key_witness :
  @add _ _ server 0%nat (VStr "ignore") world = @add _ _ server 0%nat VNone world.
Proof.
  apply (@add_if_present_needs_key serializer stamping server).
  - right. left.
  - reflexivity.
Defined.

(** X8 on the sample: Bob, whom the server has, is left as he is. *)
Lemma add_ignore_leaves_present_witness :
  exists w',
    @add _ _ keeper 1%nat (VStr "ignore") world = (Ok 1%nat, w')
    /\ trace w' = [ECollection "person"; EHas "person" (VStr "bob")]
    /\ _db (store w' 1%nat) = true.
Proof.
  destruct (@add_ignore_leaves_present serializer stamping keeper 1%nat world)
    as (w' & Hrun & Ht & _ & Hdb & _); [vm_compute; reflexivity.. |].
  exists w'. split_and!; [exact Hrun | exact Ht | exact Hdb].
Defined.

(** X9 on the sample: for Bob, whom the server has, [if_present="update"]
    makes [add] an [update]. *)
Lemma add_if_present_delegates_witness :
  @add _ _ keeper 1%nat (VStr "update") world
  = @update _ _ keeper 1%nat false
      (record (EHas "person" (VStr "bob")) (record (ECollection "person") world)).
Proof.
  apply (proj2 (@add_if_present_delegates serializer stamping keeper 1%nat
                  (VStr "update") world (or_intror eq_refl) eq_refl eq_refl)).
  reflexivity.
Defined.

(** X10 on the sample: Bob is deleted. *)
Lemma delete_keeps_entity_witness :
  trace (@delete _ server 1%nat world).2
  = delete_calls 1%nat "person" (VStr "bob")
  /\ key_ (store (@delete _ server 1%nat world).2 1%nat) = VStr "bob".
Proof.
  destruct (@delete_keeps_entity stamping server 1%nat world 1%nat
              (@delete _ server 1%nat world).2 stamping_keeps_entities)
    as (_ & Ht & Hs); [vm_compute; reflexivity |].
  split; [exact Ht |]. destruct (Hs 1%nat) as (_ & Hk & _). exact Hk.
Defined.

(** X11 on the sample: Bob, then Alice. *)
Lemma bulk_delete_deletes_each_witness :
  trace (@bulk_delete _ server [1; 0]%nat world).2
  = (delete_calls 1%nat "person" (VStr "bob")
     ++ delete_calls 0%nat "person" VNone)%list.
Proof.
  destruct (@bulk_delete_deletes_each stamping server [1; 0]%nat world
              [1; 0]%nat (@bulk_delete _ server [1; 0]%nat world).2
              stamping_keeps_entities)
    as (_ & Ht & _); [vm_compute; reflexivity |].
  exact Ht.
Defined.

(** X12 on the sample: Bob is deleted, the delete of Alice, who has no
    key, is refused, and Oslo is never reached. *)
Lemma bulk_delete_stops_at_failure_witness :
  exists w2,
    @bulk_delete _ refusing [1; 0; 2]%nat world = (Raise RemoteError, w2)
    /\ trace w2
       = (delete_calls 1%nat "person" (VStr "bob")
          ++ [EDispatch 0%nat pre_delete; ECollection "person";
              EDelete "person" VNone])%list.
Proof.
  eexists. split.
  - apply (@bulk_delete_stops_at_failure stamping refusing [1%nat] 0%nat [2%nat]
             world [1%nat] (@bulk_delete _ refusing [1%nat] world).2);
      vm_compute; reflexivity.
  - vm_compute. reflexivity.
Defined.

Lemma silent_keeps_collection : @listeners_keep_collection silent.
Proof. by intros h r s s' [= <-] x. Defined.

Lemma silent_keeps_dump : @listeners_keep_dump serializer silent.
Proof. by intros h r s s' [= <-] x. Defined.

Lemma serializer_ignores_db : @dump_ignores_db serializer.
Proof. by intros e. Defined.

(** X15 on the sample: a city, Alice and another city, with listeners
    that stamp the entities: two groups, cities first; and with
    listeners that do nothing: the payloads are those of the entities as
    they were. *)
Lemma bulk_update_batches_witness :
  (exists collections w',
      @bulk_update _ stamping server [2; 0; 3]%nat false world
      = (Ok (ReturnedCollections collections), w')
      /\ map fst collections = ["city"; "person"])
  /\ (exists collections w',
        @bulk_update _ silent server [2; 0; 3]%nat false world
        = (Ok (ReturnedCollections collections), w')
        /\ forall name cd,
            (name, cd) ∈ collections ->
            entity_dict_list cd
            = map (fun e => update_payload false (store world e))
                  (entity_obj_list cd)).
Proof.
  split.
  - assert (exists collections w',
              @bulk_update _ stamping server [2; 0; 3]%nat false world
              = (Ok (ReturnedCollections collections), w')) as (c & w' & E)
      by (eexists _, _; vm_compute; reflexivity).
    exists c, w'. split; [exact E |].
    rewrite (proj1 (@bulk_update_batches serializer stamping server
                      [2; 0; 3]%nat false world c w'
                      stamping_keeps_collection E)).
    vm_compute. reflexivity.
  - assert (exists collections w',
              @bulk_update _ silent server [2; 0; 3]%nat false world
              = (Ok (ReturnedCollections collections), w')) as (c & w' & E)
      by (eexists _, _; vm_compute; reflexivity).
    exists c, w'. split; [exact E |].
    apply (proj1 (proj2 (proj2
             (@bulk_update_batches serializer silent server
                [2; 0; 3]%nat false world c w'
                silent_keeps_collection E)))
             silent_keeps_dump serializer_ignores_db).
Defined.

Lemma two_distinct : NoDup [0; 2]%nat.
Proof.
  apply NoDup_cons. split.
  - intros Hin. apply list_elem_of_singleton in Hin. discriminate.
  - apply NoDup_singleton.
Defined.

(** X16 on the sample: Alice and Oslo after a batch whose reply has one
    result too many: Oslo gets the key of the second result. *)
Lemma bulk_write_back_by_position_witness :
  key_ (store (@bulk_post stamping post_add [0; 2]%nat
                 [identity_of 7; identity_of 8; identity_of 9] 0 world).2 2%nat)
  = VInt 8.
Proof.
  destruct (@bulk_write_back_by_position stamping post_add [0; 2]%nat
              [identity_of 7; identity_of 8; identity_of 9] world
              (@bulk_post stamping post_add [0; 2]%nat
                 [identity_of 7; identity_of 8; identity_of 9] 0 world).2
              stamping_keeps_entities two_distinct)
    as (_ & _ & Hpos); [vm_compute; reflexivity |].
  destruct (Hpos 1%nat 2%nat eq_refl) as (r & Hr & Hk & _).
  injection Hr as <-. rewrite Hk. vm_compute. reflexivity.
Defined.


(** X18 on the sample: the graph is created with its two definitions. *)
Lemma create_graph_definitions_witness :
  exists t,
    trace (@create_graph server social None world).2
    = (t ++ [ECreateGraph "social"
               [ {| edge_collection := "knows";
                    from_vertex_collections := ["person"];
                    to_vertex_collections := ["person"] |};
                 {| edge_collection := "lives_in";
                    from_vertex_collections := ["person"];
                    to_vertex_collections := ["city"] |} ]])%list
    /\ Forall sets_up t.
Proof.
  destruct (@create_graph_definitions server social None world)
    as (_ & t & Ht & Hs); [vm_compute; reflexivity |].
  exists t. split; [| exact Hs]. rewrite Ht. vm_compute. reflexivity.
Defined.


(** X22 on the sample: live as declared, nothing is changed. *)
Lemma converged_pass_changes_nothing_witness :
  List.filter changes_edge_definitions
    (trace (@update_graph (client converged) social None world).2) = [].
Proof.
  destruct (@converged_pass_changes_nothing (client converged) social None world)
    as (t & Ht & Hf).
  - vm_compute. reflexivity.
  - exact social_relations_distinct.
  - intros h d Hd. simpl in Hd.
    apply elem_of_cons in Hd as [-> | Hd].
    + exists ("lives_in", lives_in). split; [right; left | reflexivity].
    + apply list_elem_of_singleton in Hd as ->.
      exists ("knows", knows). split; [left | reflexivity].
  - intros h item Hin. simpl in Hin.
    apply elem_of_cons in Hin as [-> | Hin].
    + right. left.
    + apply list_elem_of_singleton in Hin as ->. left.
  - intros item Hin. simpl in Hin.
    apply elem_of_cons in Hin as [-> | Hin].
    + exists {| relation := knows |}. split; [left | reflexivity].
    + apply list_elem_of_singleton in Hin as ->.
      exists {| relation := lives_in |}. split; [right; left | reflexivity].
  - rewrite Ht. simpl. exact Hf.
Defined.

(** X24 on the sample: of person, knows and city, only city is created:
    person is listed, knows is a relation. *)
Lemma create_all_creates_missing_classes_witness :
  exists t,
    trace (@create_all server classes world).2 = (ECollections :: t)%list
    /\ omap created t = ["city"].
Proof.
  destruct (@create_all_creates_missing_classes server classes world)
    as (t & Ht & Hc & _); [reflexivity | vm_compute; reflexivity |].
  exists t. split; [exact Ht | exact Hc].
Defined.






(** X29 on the sample: only [knows] is live; [lives_in] is created,
    [knows] is not. *)
Lemma missing_definition_created_witness :
  exists t1 t2,
    trace (@update_graph (client [doubled_live]) social None world).2
    = (t1 ++ EEdgeDefinitions "social" :: t2)%list
    /\ List.filter (creates_definition "lives_in") t2
       = [ECreateEdgeDefinition
            {| edge_collection := "lives_in";
               from_vertex_collections := ["person"];
               to_vertex_collections := ["city"] |}]
    /\ List.filter (creates_definition "knows") t2 = [].
Proof.
  destruct (@missing_definition_created (client [doubled_live]) social None world)
    as (t1 & t2 & Ht & _ & Hrel).
  - vm_compute. reflexivity.
  - exact social_relations_distinct.
  - exists t1, t2. split; [exact Ht |]. split.
    + exact (Hrel ("lives_in", lives_in) ltac:(right; left)).
    + exact (Hrel ("knows", knows) ltac:(left)).
Defined.

End SampleRuns.
